(** * A verified model of the in-memory file system of [FileSystemNode.py]

    The program keeps a tree of [FileSystemNode] objects linked by three
    pointers ([parent], first [child], [next] sibling) and a [FileSystem]
    object holding the [root] and the [current] directory.  Python objects
    have identity and are mutated in place, so the model is a store:
    node objects live in a list addressed by their index, and the line
    lists held by files live in a second list.  Allocation appends, a field
    assignment alters one cell, and nothing is ever collected (an object
    that became unreachable simply stays where it is). *)

From Stdlib Require Import Ascii String ZArith.
From stdpp Require Import base tactics option strings numbers list.


(** ** Python string primitives used by the program *)

Module Py.

Definition slash : ascii := "/"%char.

(** [s.startswith(c)] for a one-character prefix. *)
Definition startswith (c : ascii) (s : string) : bool :=
  match s with
  | String a _ => Ascii.eqb a c
  | EmptyString => false
  end.

(** [s.split(c)]: the pieces between the occurrences of [c]; never empty. *)
Fixpoint split (c : ascii) (s : string) : list string :=
  match s with
  | EmptyString => [EmptyString]
  | String a s' =>
      if Ascii.eqb a c then EmptyString :: split c s'
      else match split c s' with
           | w :: ws => String a w :: ws
           | [] => [String a EmptyString]
           end
  end.

Fixpoint lstrip (c : ascii) (s : string) : string :=
  match s with
  | String a s' => if Ascii.eqb a c then lstrip c s' else s
  | EmptyString => EmptyString
  end.

Fixpoint rstrip (c : ascii) (s : string) : string :=
  match s with
  | String a s' =>
      match rstrip c s' with
      | EmptyString => if Ascii.eqb a c then EmptyString else String a EmptyString
      | r => String a r
      end
  | EmptyString => EmptyString
  end.

(** [s.strip(c)] for a one-character set. *)
Definition strip (c : ascii) (s : string) : string := rstrip c (lstrip c s).

(** [c in s]. *)
Fixpoint contains (c : ascii) (s : string) : bool :=
  match s with
  | String a s' => Ascii.eqb a c || contains c s'
  | EmptyString => false
  end.

(** [s.rsplit(c, 1)] when [c] occurs in [s]: the text before and after
    the last occurrence; [None] when [c] does not occur (Python then
    returns the one-element list [[s]]). *)
Fixpoint rsplit1 (c : ascii) (s : string) : option (string * string) :=
  match s with
  | EmptyString => None
  | String a s' =>
      match rsplit1 c s' with
      | Some (l, r) => Some (String a l, r)
      | None => if Ascii.eqb a c then Some (EmptyString, s') else None
      end
  end.

Fixpoint rev_string (s : string) (acc : string) : string :=
  match s with
  | EmptyString => acc
  | String a s' => rev_string s' (String a acc)
  end.

(** [s.endswith(suffix)]. *)
Definition endswith (suffix s : string) : bool :=
  String.prefix (rev_string suffix EmptyString) (rev_string s EmptyString).

(** [sep.join(l)]. *)
Definition join (sep : string) (l : list string) : string := String.concat sep l.

(** The ASCII characters for which [str.isspace] holds (tab, line feed,
    vertical tab, form feed, carriage return, the four separators
    0x1c-0x1f and the space).  Strings are byte strings here, so the
    non-ASCII white space of Unicode is not recognised. *)
Definition isspace (a : ascii) : bool :=
  let n := nat_of_ascii a in
  ((9 <=? n)%nat && (n <=? 13)%nat) || ((28 <=? n)%nat && (n <=? 32)%nat).

Fixpoint lstrip_ws (s : string) : string :=
  match s with
  | String a s' => if isspace a then lstrip_ws s' else s
  | EmptyString => EmptyString
  end.

Fixpoint rstrip_ws (s : string) : string :=
  match s with
  | String a s' =>
      match rstrip_ws s' with
      | EmptyString => if isspace a then EmptyString else String a EmptyString
      | r => String a r
      end
  | EmptyString => EmptyString
  end.

(** [s.strip()]. *)
Definition strip_ws (s : string) : string := rstrip_ws (lstrip_ws s).

(** [s.split()]: the maximal runs of characters that are not white space.
    [cur] is the run being read, in reverse. *)
Fixpoint split_ws_aux (s : string) (cur : string) : list string :=
  let flush := match cur with
               | EmptyString => []
               | _ => [rev_string cur EmptyString]
               end in
  match s with
  | EmptyString => flush
  | String a s' =>
      if isspace a then flush ++ split_ws_aux s' EmptyString
      else split_ws_aux s' (String a cur)
  end.

Definition split_ws (s : string) : list string := split_ws_aux s EmptyString.

Definition digit (a : ascii) : option Z :=
  let n := nat_of_ascii a in
  if (48 <=? n)%nat && (n <=? 57)%nat then Some (Z.of_nat (n - 48)) else None.

(** Decimal digits with single underscores allowed between two digits;
    [acc] is the value read so far and [after_digit] tells whether the
    previous character was a digit. *)
Fixpoint digits (s : string) (acc : Z) (after_digit : bool) : option Z :=
  match s with
  | EmptyString => if after_digit then Some acc else None
  | String a s' =>
      match digit a with
      | Some d => digits s' (10 * acc + d)%Z true
      | None =>
          if Ascii.eqb a "_"%char && after_digit then
            match s' with
            | String b _ =>
                match digit b with
                | Some _ => digits s' acc false
                | None => None
                end
            | EmptyString => None
            end
          else None
      end
  end.

(** [int(s)] on an ASCII string: [None] stands for [ValueError]. *)
Definition int (s : string) : option Z :=
  match strip_ws s with
  | String "-" s' => Z.opp <$> digits s' 0%Z false
  | String "+" s' => digits s' 0%Z false
  | s' => digits s' 0%Z false
  end.

End Py.

(** ** The object store *)

(** A reference to a node object (its index in [nodes]) and to a line list
    (its index in [lists]). *)
Abbreviation ref := nat (only parsing).
Abbreviation lref := nat (only parsing).

(** The fields of a [FileSystemNode] object.  [content] is a reference to a
    Python list for a file and [None] for a directory. *)
Record FileSystemNode := mkNode {
  name : string;
  is_file : bool;
  parent : option ref;
  child : option ref;
  next : option ref;
  content : option lref
}.

(** Field assignments [node.f = v]. *)
Definition set_name (v : string) (n : FileSystemNode) : FileSystemNode :=
  mkNode v (is_file n) (parent n) (child n) (next n) (content n).
Definition set_parent (v : option ref) (n : FileSystemNode) : FileSystemNode :=
  mkNode (name n) (is_file n) v (child n) (next n) (content n).
Definition set_child (v : option ref) (n : FileSystemNode) : FileSystemNode :=
  mkNode (name n) (is_file n) (parent n) v (next n) (content n).
Definition set_next (v : option ref) (n : FileSystemNode) : FileSystemNode :=
  mkNode (name n) (is_file n) (parent n) (child n) v (content n).
Definition set_content (v : option lref) (n : FileSystemNode) : FileSystemNode :=
  mkNode (name n) (is_file n) (parent n) (child n) (next n) v.

(** The [FileSystem] object together with the store it points into. *)
Record FileSystem := mkFS {
  nodes : list FileSystemNode;
  lists : list (list string);
  root : ref;
  current : ref
}.

Definition with_nodes (h : list FileSystemNode) (fs : FileSystem) : FileSystem :=
  mkFS h (lists fs) (root fs) (current fs).
Definition with_lists (ls : list (list string)) (fs : FileSystem) : FileSystem :=
  mkFS (nodes fs) ls (root fs) (current fs).
Definition with_current (c : ref) (fs : FileSystem) : FileSystem :=
  mkFS (nodes fs) (lists fs) (root fs) c.

(** [FileSystemNode(name, is_file, parent)]: a file gets a fresh empty
    list; the new object is the last cell of the store. *)
Definition new_node (fs : FileSystem) (nm : string) (file : bool)
    (par : option ref) : FileSystem * ref :=
  let r := length (nodes fs) in
  if file then
    (mkFS (nodes fs ++ [mkNode nm true par None None (Some (length (lists fs)))])
          (lists fs ++ [[]]) (root fs) (current fs), r)
  else
    (with_nodes (nodes fs ++ [mkNode nm false par None None None]) fs, r).

(** [self.add_child(child)] on the node [self]. *)
Definition add_child (h : list FileSystemNode) (self c : ref)
    : option (list FileSystemNode) :=
  s ← h !! self;
  let h1 := alter (set_next (child s)) c h in
  Some (alter (set_child (Some c)) self h1).

(** [FileSystem()]: the root directory, which is also the current one. *)
Definition init : FileSystem :=
  mkFS [mkNode "root" false None None None None] [] 0 0.

(** ** Loops over the sibling chain

    A [while] loop that follows [next] pointers is given as fuel the number
    of allocated nodes: a chain that visits more cells than exist repeats
    one, so it is cyclic and the Python loop does not terminate either.
    [None] as the outer result means that the call does not return
    (it loops, or raises an exception that nothing catches). *)

Fixpoint find_child_from (fuel : nat) (h : list FileSystemNode)
    (cur : option ref) (nm : string) : option (option ref) :=
  match cur with
  | None => Some None
  | Some c =>
      match fuel with
      | 0 => None
      | S fuel' =>
          n ← h !! c;
          if String.eqb (name n) nm then Some (Some c)
          else find_child_from fuel' h (next n) nm
      end
  end.

Definition find_child (h : list FileSystemNode) (par : ref) (nm : string)
    : option (option ref) :=
  p ← h !! par;
  find_child_from (length h) h (child p) nm.

(** The body of the [for part in parts] loop of [get_node_by_path]. *)
Fixpoint walk (h : list FileSystemNode) (node : ref) (parts : list string)
    : option (option ref) :=
  match parts with
  | [] => Some (Some node)
  | part :: parts' =>
      if String.eqb part "" || String.eqb part "." then walk h node parts'
      else if String.eqb part ".." then
        n ← h !! node;
        match parent n with
        | Some p => walk h p parts'
        | None => walk h node parts'
        end
      else
        nxt ← find_child h node part;
        match nxt with
        | None => Some None
        | Some x => walk h x parts'
        end
  end.

Definition get_node_by_path (fs : FileSystem) (path : string)
    : option (option ref) :=
  if Py.startswith Py.slash path then
    if String.eqb path "/" then Some (Some (root fs))
    else walk (nodes fs) (root fs) (Py.split Py.slash (Py.strip Py.slash path))
  else walk (nodes fs) (current fs) (Py.split Py.slash path).

(** What a command printed when it returned: [Err] for the messages that
    precede an early [return], [Ok] for the output of a completed command. *)
Inductive result :=
  | Ok (out : list string)
  | Err (msg : string).

(** [ls]: the names along the chain of the current directory. *)
Fixpoint ls_names (fuel : nat) (h : list FileSystemNode) (cur : option ref)
    : option (list string) :=
  match cur with
  | None => Some []
  | Some c =>
      match fuel with
      | 0 => None
      | S fuel' =>
          n ← h !! c;
          rest ← ls_names fuel' h (next n);
          Some ((if is_file n then name n else name n +:+ "/") :: rest)
      end
  end.

Definition ls_command (fs : FileSystem) (args : list string)
    : option (result * FileSystem) :=
  node ← nodes fs !! current fs;
  children ← ls_names (length (nodes fs)) (nodes fs) (child node);
  match children with
  | [] => Some (Ok ["Empty directory."], fs)
  | _ => Some (Ok [Py.join (String "009"%char "") children], fs)
  end.

(** The common end of [mkdir] and [touch]: the duplicate check, the
    allocation and the insertion at the head of the chain. *)
Definition create_in (fs : FileSystem) (target : ref) (nm : string)
    (file : bool) (out : list string) : option (result * FileSystem) :=
  dup ← find_child (nodes fs) target nm;
  match dup with
  | Some _ => Some (Err "A node with that name already exists.", fs)
  | None =>
      let '(fs1, new) := new_node fs nm file (Some target) in
      h ← add_child (nodes fs1) target new;
      Some (Ok out, with_nodes h fs1)
  end.

Definition mkdir_command (fs : FileSystem) (args : list string)
    : option (result * FileSystem) :=
  match args with
  | [_; folder_name] => create_in fs (current fs) folder_name false []
  | [_; path; folder_name] =>
      target ← get_node_by_path fs path;
      match target with
      | None => Some (Err "Path not found or not a directory.", fs)
      | Some t =>
          n ← nodes fs !! t;
          if is_file n then Some (Err "Path not found or not a directory.", fs)
          else create_in fs t folder_name false []
      end
  | _ => Some (Err "Usage: mkdir [<path>] <folder_name>", fs)
  end.

Definition touch_tail (fs : FileSystem) (target : ref) (file_name : string)
    : option (result * FileSystem) :=
  if negb (Py.endswith ".txt" file_name) then
    Some (Err "File name must end with .txt", fs)
  else
    create_in fs target file_name true
      ["File '" +:+ file_name +:+ "' created."].

Definition touch_command (fs : FileSystem) (args : list string)
    : option (result * FileSystem) :=
  match args with
  | [_; file_name] => touch_tail fs (current fs) file_name
  | [_; path; file_name] =>
      target ← get_node_by_path fs path;
      match target with
      | None => Some (Err "Path not found or not a directory.", fs)
      | Some t =>
          n ← nodes fs !! t;
          if is_file n then Some (Err "Path not found or not a directory.", fs)
          else touch_tail fs t file_name
      end
  | _ => Some (Err "Usage: touch [<path>] <file_name>", fs)
  end.

Definition cd_command (fs : FileSystem) (args : list string)
    : option (result * FileSystem) :=
  match args with
  | [_; path] =>
      new_dir ← get_node_by_path fs path;
      match new_dir with
      | None => Some (Err "Path not found or not a directory.", fs)
      | Some d =>
          n ← nodes fs !! d;
          if is_file n then Some (Err "Path not found or not a directory.", fs)
          else Some (Ok [], with_current d fs)
      end
  | _ => Some (Err "Usage: cd <path>", fs)
  end.

(** ** Removal *)

(** The loop [while curr and curr.next != target: curr = curr.next]. *)
Fixpoint find_prev (fuel : nat) (h : list FileSystemNode) (curr : option ref)
    (target : ref) : option (option ref) :=
  match curr with
  | None => Some None
  | Some c =>
      match fuel with
      | 0 => None
      | S fuel' =>
          n ← h !! c;
          if decide (next n = Some target) then Some (Some c)
          else find_prev fuel' h (next n) target
      end
  end.

(** The block that takes [target] out of the chain of its parent [par];
    [rm] has it once and [mv] twice, word for word. *)
Definition unlink (h : list FileSystemNode) (par target : ref)
    : option (list FileSystemNode) :=
  p ← h !! par;
  t ← h !! target;
  if decide (child p = Some target) then
    Some (alter (set_child (next t)) par h)
  else
    curr ← find_prev (length h) h (child p) target;
    match curr with
    | Some c => Some (alter (set_next (next t)) c h)
    | None => Some h
    end.

(** Recursion over a subtree ([remove_subtree], [deep_copy]) is bounded by
    twice the number of allocated nodes: each level of the model spends one
    unit on the node and one on the step along its chain. *)
Definition subtree_fuel (h : list FileSystemNode) : nat := 2 * length h + 2.

(** [remove_subtree] only walks the subtree: it writes nothing. *)
Fixpoint remove_subtree (fuel : nat) (h : list FileSystemNode) (node : ref)
    : option unit :=
  match fuel with
  | 0 => None
  | S fuel' => n ← h !! node; remove_children fuel' h (child n)
  end
with remove_children (fuel : nat) (h : list FileSystemNode)
    (c : option ref) : option unit :=
  match c with
  | None => Some ()
  | Some ch =>
      match fuel with
      | 0 => None
      | S fuel' =>
          n ← h !! ch;
          let next_child := next n in
          _ ← remove_subtree fuel' h ch;
          remove_children fuel' h next_child
      end
  end.

Definition rm_command (fs : FileSystem) (args : list string)
    : option (result * FileSystem) :=
  match args with
  | [_; path] =>
      target ← get_node_by_path fs path;
      match target with
      | None => Some (Err "Path not found.", fs)
      | Some t =>
          n ← nodes fs !! t;
          match parent n with
          | None => Some (Err "Cannot remove root directory.", fs)
          | Some p =>
              h ← unlink (nodes fs) p t;
              _ ← remove_subtree (subtree_fuel h) h t;
              Some (Ok [], with_nodes h fs)
          end
      end
  | _ => Some (Err "Usage: rm <path>", fs)
  end.

Definition rename_command (fs : FileSystem) (args : list string)
    : option (result * FileSystem) :=
  match args with
  | [_; path; new_name] =>
      target ← get_node_by_path fs path;
      match target with
      | None => Some (Err "Path not found.", fs)
      | Some t =>
          n ← nodes fs !! t;
          match parent n with
          | None => Some (Err "Cannot rename root directory.", fs)
          | Some p =>
              dup ← find_child (nodes fs) p new_name;
              match dup with
              | Some _ => Some (Err "A node with that name already exists.", fs)
              | None =>
                  Some (Ok [], with_nodes (alter (set_name new_name) t (nodes fs)) fs)
              end
          end
      end
  | _ => Some (Err "Usage: rename <path> <new_name>", fs)
  end.

(** ** Copy *)

(** [deep_copy(node, new_parent)] and its [while child] loop.  The
    constructor gives a file copy an empty list, which [node.content[:]]
    then replaces by a fresh copy of the source's lines. *)
Fixpoint deep_copy (fuel : nat) (fs : FileSystem) (node new_parent : ref)
    : option (FileSystem * ref) :=
  match fuel with
  | 0 => None
  | S fuel' =>
      n ← nodes fs !! node;
      let '(fs1, copy_node) := new_node fs (name n) (is_file n) (Some new_parent) in
      fs2 ← (if is_file n then
               k ← content n;
               l ← lists fs1 !! k;
               Some (mkFS (alter (set_content (Some (length (lists fs1))))
                                 copy_node (nodes fs1))
                          (lists fs1 ++ [l]) (root fs1) (current fs1))
             else Some fs1);
      fs3 ← copy_children fuel' fs2 (child n) copy_node;
      Some (fs3, copy_node)
  end
with copy_children (fuel : nat) (fs : FileSystem) (c : option ref)
    (copy_node : ref) : option FileSystem :=
  match c with
  | None => Some fs
  | Some ch =>
      match fuel with
      | 0 => None
      | S fuel' =>
          '(fs1, child_copy) ← deep_copy fuel' fs ch copy_node;
          h ← add_child (nodes fs1) copy_node child_copy;
          n ← h !! ch;
          copy_children fuel' (with_nodes h fs1) (next n) copy_node
      end
  end.

(** How a destination that does not resolve is read: the parent path and
    the new name. *)
Definition split_dest (d : string) : string * string :=
  if Py.contains Py.slash d then
    match Py.rsplit1 Py.slash d with
    | Some (p, new_name) => (if String.eqb p "" then "/" else p, new_name)
    | None => (".", d)
    end
  else (".", d).

Definition cp_command (fs : FileSystem) (args : list string)
    : option (result * FileSystem) :=
  match args with
  | [_; source_path; destination_path] =>
      src ← get_node_by_path fs source_path;
      match src with
      | None => Some (Err "Source path not found.", fs)
      | Some s =>
          dst ← get_node_by_path fs destination_path;
          match dst with
          | Some d =>
              dn ← nodes fs !! d;
              if is_file dn then Some (Err "Destination is a file.", fs)
              else
                sn ← nodes fs !! s;
                dup ← find_child (nodes fs) d (name sn);
                match dup with
                | Some _ =>
                    Some (Err "Destination already has a node with the same name.", fs)
                | None =>
                    '(fs1, copy_node) ← deep_copy (subtree_fuel (nodes fs)) fs s d;
                    h ← add_child (nodes fs1) d copy_node;
                    Some (Ok [], with_nodes h fs1)
                end
          | None =>
              let '(parent_path, new_name) := split_dest destination_path in
              parent_dst ← get_node_by_path fs parent_path;
              match parent_dst with
              | None => Some (Err "Destination parent path is not valid.", fs)
              | Some pd =>
                  pn ← nodes fs !! pd;
                  if is_file pn then
                    Some (Err "Destination parent path is not valid.", fs)
                  else
                    dup ← find_child (nodes fs) pd new_name;
                    match dup with
                    | Some _ =>
                        Some (Err "A node with that name already exists in the destination.", fs)
                    | None =>
                        '(fs1, copy_node) ← deep_copy (subtree_fuel (nodes fs)) fs s pd;
                        let h1 := alter (set_name new_name) copy_node (nodes fs1) in
                        h ← add_child h1 pd copy_node;
                        Some (Ok [], with_nodes h fs1)
                    end
              end
          end
      end
  | _ => Some (Err "Usage: cp <source_path> <destination_path>", fs)
  end.

(** ** Move *)

(** The three assignments that hang [src] under [dst], at the head of its
    chain; the name is assigned between them in the renaming form. *)
Definition relink (h : list FileSystemNode) (src dst : ref)
    (new_name : option string) : option (list FileSystemNode) :=
  let h1 := alter (set_parent (Some dst)) src h in
  let h2 := match new_name with
            | Some nm => alter (set_name nm) src h1
            | None => h1
            end in
  d ← h2 !! dst;
  let h3 := alter (set_next (child d)) src h2 in
  Some (alter (set_child (Some src)) dst h3).

Definition mv_command (fs : FileSystem) (args : list string)
    : option (result * FileSystem) :=
  match args with
  | [_; source_path; destination_path] =>
      src ← get_node_by_path fs source_path;
      match src with
      | None => Some (Err "Source path not found.", fs)
      | Some s =>
          sn ← nodes fs !! s;
          match parent sn with
          | None => Some (Err "Cannot move root directory.", fs)
          | Some par =>
              dst ← get_node_by_path fs destination_path;
              match dst with
              | Some d =>
                  dn ← nodes fs !! d;
                  if is_file dn then Some (Err "Destination is a file.", fs)
                  else
                    dup ← find_child (nodes fs) d (name sn);
                    match dup with
                    | Some _ =>
                        Some (Err "Destination already has a node with the same name.", fs)
                    | None =>
                        h1 ← unlink (nodes fs) par s;
                        h ← relink h1 s d None;
                        Some (Ok [], with_nodes h fs)
                    end
              | None =>
                  let '(parent_path, new_name) := split_dest destination_path in
                  parent_dst ← get_node_by_path fs parent_path;
                  match parent_dst with
                  | None => Some (Err "Destination parent path is not valid.", fs)
                  | Some pd =>
                      pn ← nodes fs !! pd;
                      if is_file pn then
                        Some (Err "Destination parent path is not valid.", fs)
                      else
                        dup ← find_child (nodes fs) pd new_name;
                        match dup with
                        | Some _ =>
                            Some (Err "A node with that name already exists in the destination.", fs)
                        | None =>
                            h1 ← unlink (nodes fs) par s;
                            h ← relink h1 s pd (Some new_name);
                            Some (Ok [], with_nodes h fs)
                        end
                  end
              end
          end
      end
  | _ => Some (Err "Usage: mv <source_path> <destination_path>", fs)
  end.

(** ** Content editors *)

(** The console loop [while True: line = input(); if line.strip() == "/end/":
    break], over the lines still to come on the console: the lines read
    before the sentinel and what follows it.  [None] when the console ends
    first ([input] raises [EOFError]). *)
Fixpoint read_lines (stdin : list string) : option (list string * list string) :=
  match stdin with
  | [] => None
  | line :: rest =>
      if String.eqb (Py.strip_ws line) "/end/" then Some ([], rest)
      else '(ls, rest') ← read_lines rest; Some (line :: ls, rest')
  end.

(** The shared opening of the editors and of [cat]: the path must name a
    file. *)
Definition file_at (fs : FileSystem) (path : string)
    : option (option (ref * FileSystemNode)) :=
  node ← get_node_by_path fs path;
  match node with
  | None => Some None
  | Some r =>
      n ← nodes fs !! r;
      if is_file n then Some (Some (r, n)) else Some None
  end.

Definition nwfiletxt_command (fs : FileSystem) (args : list string)
    (stdin : list string) : option (result * FileSystem * list string) :=
  match args with
  | [_; path] =>
      f ← file_at fs path;
      match f with
      | None => Some (Err "File not found or not a file.", fs, stdin)
      | Some (r, _) =>
          '(new_lines, rest) ← read_lines stdin;
          Some (Ok ["Enter new content for the file. Type '/end/' to finish."],
                mkFS (alter (set_content (Some (length (lists fs)))) r (nodes fs))
                     (lists fs ++ [new_lines]) (root fs) (current fs),
                rest)
      end
  | _ => Some (Err "Usage: nwfiletxt <path>", fs, stdin)
  end.

Definition appendtxt_command (fs : FileSystem) (args : list string)
    (stdin : list string) : option (result * FileSystem * list string) :=
  match args with
  | [_; path] =>
      f ← file_at fs path;
      match f with
      | None => Some (Err "File not found or not a file.", fs, stdin)
      | Some (_, n) =>
          '(new_lines, rest) ← read_lines stdin;
          k ← content n;
          _ ← lists fs !! k;
          Some (Ok ["Enter text to append. Type '/end/' to finish."],
                with_lists (alter (λ l : list string, l ++ new_lines) k (lists fs)) fs,
                rest)
      end
  | _ => Some (Err "Usage: appendtxt <path>", fs, stdin)
  end.

(** The line-number checks shared by [editline] and [deline]; [edit] is
    the list operation at the 0-based index. *)
Definition edit_at (fs : FileSystem) (n : FileSystemNode) (number : string)
    (edit : nat → list string → list string) : option (result * FileSystem) :=
  match Py.int number with
  | None => Some (Err "Line number must be an integer.", fs)
  | Some line_number =>
      k ← content n;
      l ← lists fs !! k;
      if ((line_number <? 1) || (Z.of_nat (length l) <? line_number))%Z then
        Some (Err "Invalid line number.", fs)
      else
        Some (Ok [], with_lists (alter (edit (Z.to_nat (line_number - 1))) k (lists fs)) fs)
  end.

Definition editline_command (fs : FileSystem) (args : list string)
    : option (result * FileSystem) :=
  match args with
  | _ :: path :: number :: ((_ :: _) as text) =>
      f ← file_at fs path;
      match f with
      | None => Some (Err "File not found or not a file.", fs)
      | Some (_, n) =>
          edit_at fs n number (λ i (l : list string), <[i := Py.join " " text]> l)
      end
  | _ => Some (Err "Usage: editline <path> <line_number> <new_text>", fs)
  end.

Definition deline_command (fs : FileSystem) (args : list string)
    : option (result * FileSystem) :=
  match args with
  | [_; path; number] =>
      f ← file_at fs path;
      match f with
      | None => Some (Err "File not found or not a file.", fs)
      | Some (_, n) => edit_at fs n number (λ i (l : list string), delete i l)
      end
  | _ => Some (Err "Usage: deline <path> <line_number>", fs)
  end.

Definition cat_command (fs : FileSystem) (args : list string)
    : option (result * FileSystem) :=
  match args with
  | [_; path] =>
      f ← file_at fs path;
      match f with
      | None => Some (Err "File not found or not a file.", fs)
      | Some (_, n) =>
          k ← content n;
          l ← lists fs !! k;
          Some (Ok l, fs)
      end
  | _ => Some (Err "Usage: cat <path>", fs)
  end.

(** ** Dispatch and prompt *)

Definition no_input (stdin : list string) (r : option (result * FileSystem))
    : option (result * FileSystem * list string) :=
  '(res, fs) ← r; Some (res, fs, stdin).

(** [process_command(command_line)], with the lines that the console will
    deliver after it.  The help text is not reproduced. *)
Definition process_command (fs : FileSystem) (command_line : string)
    (stdin : list string) : option (result * FileSystem * list string) :=
  match Py.split_ws command_line with
  | [] => Some (Ok [], fs, stdin)
  | (cmd :: _) as args =>
      if String.eqb cmd "ls" then no_input stdin (ls_command fs args)
      else if String.eqb cmd "mkdir" then no_input stdin (mkdir_command fs args)
      else if String.eqb cmd "touch" then no_input stdin (touch_command fs args)
      else if String.eqb cmd "cd" then no_input stdin (cd_command fs args)
      else if String.eqb cmd "rm" then no_input stdin (rm_command fs args)
      else if String.eqb cmd "rename" then no_input stdin (rename_command fs args)
      else if String.eqb cmd "cp" then no_input stdin (cp_command fs args)
      else if String.eqb cmd "mv" then no_input stdin (mv_command fs args)
      else if String.eqb cmd "nwfiletxt" then nwfiletxt_command fs args stdin
      else if String.eqb cmd "appendtxt" then appendtxt_command fs args stdin
      else if String.eqb cmd "editline" then no_input stdin (editline_command fs args)
      else if String.eqb cmd "deline" then no_input stdin (deline_command fs args)
      else if String.eqb cmd "cat" then no_input stdin (cat_command fs args)
      else if String.eqb cmd "help" then Some (Ok ["Available commands:"], fs, stdin)
      else Some (Err ("Unknown command: " +:+ cmd), fs, stdin)
  end.

(** The [while node] loop of [get_full_path]: the names from [node] up to
    the root, the root's first. *)
Fixpoint path_parts (fuel : nat) (h : list FileSystemNode) (node : option ref)
    (parts : list string) : option (list string) :=
  match node with
  | None => Some parts
  | Some r =>
      match fuel with
      | 0 => None
      | S fuel' => n ← h !! r; path_parts fuel' h (parent n) (name n :: parts)
      end
  end.

Definition get_full_path (fs : FileSystem) (node : ref) : option string :=
  parts ← path_parts (length (nodes fs)) (nodes fs) (Some node) [];
  match parts with
  | _ :: ((_ :: _) as rest) => Some ("/" +:+ Py.join "/" rest)
  | _ => Some "/"
  end.

(** The states that the command loop [run] can be in: [init], and whatever
    a command leaves behind when it returns. *)
Inductive reachable : FileSystem → Prop :=
  | reachable_init : reachable init
  | reachable_step fs command_line stdin res fs' stdin' :
      reachable fs →
      process_command fs command_line stdin = Some (res, fs', stdin') →
      reachable fs'.

(** Running a script of command lines that read nothing from the console;
    the result of the last command is kept. *)
Fixpoint run_script (fs : FileSystem) (script : list string)
    : option (result * FileSystem) :=
  match script with
  | [] => Some (Ok [], fs)
  | [command_line] => '(res, fs', _) ← process_command fs command_line []; Some (res, fs')
  | command_line :: rest =>
      '(_, fs', _) ← process_command fs command_line [];
      run_script fs' rest
  end.

(** The operations that write to the store, applied to an argument list. *)
Inductive command :=
  | Mkdir | Touch | Cd | Rm | Rename | Cp | Mv
  | Nwfiletxt | Appendtxt | Editline | Deline.

Definition run_command (c : command) (fs : FileSystem) (args stdin : list string)
    : option (result * FileSystem * list string) :=
  match c with
  | Mkdir => no_input stdin (mkdir_command fs args)
  | Touch => no_input stdin (touch_command fs args)
  | Cd => no_input stdin (cd_command fs args)
  | Rm => no_input stdin (rm_command fs args)
  | Rename => no_input stdin (rename_command fs args)
  | Cp => no_input stdin (cp_command fs args)
  | Mv => no_input stdin (mv_command fs args)
  | Nwfiletxt => nwfiletxt_command fs args stdin
  | Appendtxt => appendtxt_command fs args stdin
  | Editline => no_input stdin (editline_command fs args)
  | Deline => no_input stdin (deline_command fs args)
  end.

(** ** Notions used to state the properties *)

(** The lines of the file object [r], read through its list reference. *)
Definition content_of (fs : FileSystem) (r : ref) : option (list string) :=
  n ← nodes fs !! r; k ← content n; lists fs !! k.

(** What [editline] and [deline] must return on a file whose list [k]
    holds the lines [l], for the line-number argument [number]; [new] is
    the list that replaces [l] when the 1-based number is in range. *)
Definition line_edit_outcome (fs : FileSystem) (k : lref) (l : list string)
    (number : string) (new : nat → list string)
    (out : option (result * FileSystem)) : Prop :=
  match Py.int number with
  | None => out = Some (Err "Line number must be an integer.", fs)
  | Some z =>
      if decide (1 ≤ z ≤ Z.of_nat (length l))%Z then
        out = Some (Ok [], with_lists (<[k := new (Z.to_nat (z - 1))]> (lists fs)) fs)
      else out = Some (Err "Invalid line number.", fs)
  end.


(** [chain h o l]: following [next] from the pointer [o] visits exactly the
    cells [l], in that order, and then reaches [None]. *)
Fixpoint chain (h : list FileSystemNode) (o : option ref) (l : list ref) : Prop :=
  match l with
  | [] => o = None
  | c :: l' => o = Some c ∧ ∃ n, h !! c = Some n ∧ chain h (next n) l'
  end.

(** The same walk as a function, with the fuel of the sibling loops. *)
Fixpoint chain_from (fuel : nat) (h : list FileSystemNode) (o : option ref)
    : option (list ref) :=
  match o with
  | None => Some []
  | Some c =>
      match fuel with
      | 0 => None
      | S fuel' => n ← h !! c; rest ← chain_from fuel' h (next n); Some (c :: rest)
      end
  end.

(** The children collection of the node [p]: the cells of its chain,
    first child first.  This is the order in which [ls] lists them. *)
Definition children (h : list FileSystemNode) (p : ref) : option (list ref) :=
  n ← h !! p; chain_from (length h) h (child n).

Definition name_of (h : list FileSystemNode) (c : ref) : option string :=
  name <$> h !! c.

Definition parent_of (h : list FileSystemNode) (c : ref) : option ref :=
  n ← h !! c; parent n.

(** The first cell of [l] that bears the name [nm]. *)
Fixpoint first_named (h : list FileSystemNode) (nm : string) (l : list ref)
    : option ref :=
  match l with
  | [] => None
  | c :: l' =>
      if decide (name_of h c = Some nm) then Some c else first_named h nm l'
  end.

(** The store that a script leaves behind ([init] if it does not return). *)
Definition state_after (script : list string) : FileSystem :=
  match run_script init script with
  | Some (_, fs) => fs
  | None => init
  end.

(** A directory [a] that was removed while it was the current directory:
    the cursor still points to its cell, which still names the root as its
    parent, but no chain holds it any more. *)
Definition removed_cwd : FileSystem :=
  Eval vm_compute in state_after ["mkdir a"; "cd a"; "rm ."].

(** [ancestor h a c]: [a] is reached from [c] by one or more [parent]
    steps. *)
Inductive ancestor (h : list FileSystemNode) : ref → ref → Prop :=
  | ancestor_parent c a : parent_of h c = Some a → ancestor h a c
  | ancestor_step c p a : parent_of h c = Some p → ancestor h a p → ancestor h a c.

(** No node is its own ancestor. *)
Definition acyclic (h : list FileSystemNode) : Prop := ∀ c, ¬ ancestor h c c.

(** The [k]-th ancestor, for checking [ancestor] on a concrete store. *)
Fixpoint nth_parent (k : nat) (h : list FileSystemNode) (c : ref) : option ref :=
  match k with
  | 0 => Some c
  | S k' => p ← parent_of h c; nth_parent k' h p
  end.

(** A directory [a] with a subdirectory [b], entered. *)
Definition before_cyclic_mv : FileSystem :=
  Eval vm_compute in state_after ["mkdir a"; "mkdir a b"; "cd a"].

(** The same after [mv . b], which moves [a] into its own child. *)
Definition after_cyclic_mv : FileSystem :=
  Eval vm_compute in state_after ["mkdir a"; "mkdir a b"; "cd a"; "mv . b"].

(** A directory [a] with a subdirectory [b], entered and then removed by
    its absolute path. *)
Definition removed_above_cwd : FileSystem :=
  Eval vm_compute in state_after ["mkdir a"; "mkdir a b"; "cd a"; "rm /a"].

(** *** Path resolution as the specification words it

    [resolve(path, cursor)]: a path that begins with [/] starts at the
    root, any other at the cursor; the path is split on [/]; an empty
    segment and [.] are skipped; [..] moves to the parent of the current
    node and does nothing at the root; any other segment must be the name
    of a child of the current node, and resolution stops with not-found
    at the first segment that is not. *)
Definition resolve_segment (fs : FileSystem) (node : ref) (segment : string)
    : option (option ref) :=
  if decide (segment = "" ∨ segment = ".") then Some (Some node)
  else if decide (segment = "..") then
    n ← nodes fs !! node;
    if decide (node = root fs) then Some (Some node)
    else Some (Some (default node (parent n)))
  else find_child (nodes fs) node segment.

Fixpoint resolve_segments (fs : FileSystem) (node : ref) (segments : list string)
    : option (option ref) :=
  match segments with
  | [] => Some (Some node)
  | segment :: rest =>
      r ← resolve_segment fs node segment;
      match r with
      | None => Some None
      | Some node' => resolve_segments fs node' rest
      end
  end.

Definition resolve (fs : FileSystem) (path : string) (cursor : ref)
    : option (option ref) :=
  resolve_segments fs
    (if Py.startswith Py.slash path then root fs else cursor)
    (Py.split Py.slash path).

(** *** Well-formed stores *)

(** [kids h p l]: the node [p] exists and its chain is [l]. *)
Definition kids (h : list FileSystemNode) (p : ref) (l : list ref) : Prop :=
  ∃ n, h !! p = Some n ∧ chain h (child n) l.

(** No chain holds the cell [c]. *)
Definition unchained (h : list FileSystemNode) (c : ref) : Prop :=
  ∀ p l, kids h p l → c ∉ l.

Definition valid_ref (size : nat) (o : option ref) : Prop :=
  ∀ r, o = Some r → r < size.

(** The pointers of a node lead to allocated objects, in a store of
    [size] nodes and [nlists] line lists. *)
Definition node_valid (size nlists : nat) (n : FileSystemNode) : Prop :=
  valid_ref size (parent n) ∧ valid_ref size (child n)
  ∧ valid_ref size (next n) ∧ valid_ref nlists (content n).

(** Every pointer held by a node leads to an allocated object. *)
Definition refs_valid (h : list FileSystemNode) (nlists : nat) : Prop :=
  ∀ r n, h !! r = Some n → node_valid (length h) nlists n.

(** Every node has a finite chain of children, each child names that node
    as its parent, and no two children of a node bear the same name. *)
Definition chains_ok (h : list FileSystemNode) : Prop :=
  ∀ p n, h !! p = Some n →
    ∃ l, chain h (child n) l
         ∧ (∀ c, c ∈ l → parent_of h c = Some p)
         ∧ NoDup (name_of h <$> l).

(** The root is the first object, a directory called [root] without a
    parent. *)
Definition root_ok (h : list FileSystemNode) (r : ref) : Prop :=
  r = 0
  ∧ ∃ n, h !! 0 = Some n
         ∧ name n = "root" ∧ is_file n = false ∧ parent n = None.

(** The cursor is an allocated directory. *)
Definition current_ok (h : list FileSystemNode) (c : ref) : Prop :=
  ∃ n, h !! c = Some n ∧ is_file n = false.

(** A file has a line list and a directory has none. *)
Definition kinds_ok (h : list FileSystemNode) : Prop :=
  ∀ r n, h !! r = Some n →
    if is_file n then is_Some (content n) else content n = None.

Record wf (fs : FileSystem) : Prop := mk_wf {
  wf_root : root_ok (nodes fs) (root fs);
  wf_current : current_ok (nodes fs) (current fs);
  wf_refs : refs_valid (nodes fs) (length (lists fs));
  wf_kinds : kinds_ok (nodes fs);
  wf_chains : chains_ok (nodes fs)
}.

(** The cell of [l] that comes right before [t]. *)
Fixpoint pred_in (l : list ref) (t : ref) : option ref :=
  match l with
  | c :: l' =>
      match l' with
      | c' :: _ => if decide (c' = t) then Some c else pred_in l' t
      | [] => None
      end
  | [] => None
  end.

(** [l] without the cell [t]. *)
Definition without (t : ref) (l : list ref) : list ref :=
  filter (λ x, x ≠ t) l.

(** The renaming step of [relink]. *)
Definition rename_to (new_name : option string) (n : FileSystemNode)
    : FileSystemNode :=
  match new_name with
  | Some nm => set_name nm n
  | None => n
  end.

(** The part of [wf] that does not speak of chains. *)
Definition basics_ok (h : list FileSystemNode) (nlists : nat) (r c : ref) : Prop :=
  root_ok h r ∧ current_ok h c ∧ refs_valid h nlists ∧ kinds_ok h.

(** *** Subtrees as values *)

(** What a subtree looks like to the user: the name and kind of its top
    node, the lines of a file, and the subtrees of the children in the
    order of the chain. *)
#[local] Unset Elimination Schemes.

Inductive tree :=
  | Tree (nm : string) (file : bool) (lines : option (list string))
         (subtrees : list tree).

Definition tree_name (t : tree) : string :=
  match t with Tree nm _ _ _ => nm end.

(** The same subtree with the children of every node in reverse order. *)
Fixpoint mirror (t : tree) : tree :=
  match t with
  | Tree nm file lines ts => Tree nm file lines (reverse (mirror <$> ts))
  end.

(** The same subtree under another name. *)
Definition renamed (nm : string) (t : tree) : tree :=
  match t with
  | Tree _ file lines ts => Tree nm file lines ts
  end.

(** The lines behind a content pointer. *)
Definition lines_of (ls : list (list string)) (n : FileSystemNode)
    : option (list string) :=
  k ← content n; ls !! k.

(** [is_tree h ls x t]: in the store, the subtree under the cell [x] is
    [t]. *)
Inductive is_tree (h : list FileSystemNode) (ls : list (list string))
    : ref → tree → Prop :=
  | is_tree_node x n cs ts :
      h !! x = Some n →
      chain h (child n) cs →
      Forall2 (is_tree h ls) cs ts →
      is_tree h ls x (Tree (name n) (is_file n) (lines_of ls n) ts).

(** The subtree under the cell [x], read from the store. *)
Fixpoint read_tree (fuel : nat) (h : list FileSystemNode)
    (ls : list (list string)) (x : ref) : option tree :=
  match fuel with
  | 0 => None
  | S fuel' =>
      n ← h !! x;
      cs ← children h x;
      ts ← mapM (read_tree fuel' h ls) cs;
      Some (Tree (name n) (is_file n) (lines_of ls n) ts)
  end.

(** [fresh_tree h ls k b x t]: the subtree [t] under [x] lies in cells
    from [b] on, every cell after its parent, and its files hold line lists
    from [k] on. *)
Inductive fresh_tree (h : list FileSystemNode) (ls : list (list string))
    (k : nat) : nat → ref → tree → Prop :=
  | fresh_tree_node b x n cs ts :
      b ≤ x →
      h !! x = Some n →
      (∀ j, content n = Some j → k ≤ j < length ls) →
      chain h (child n) cs →
      Forall2 (fresh_tree h ls k (S x)) cs ts →
      fresh_tree h ls k b x (Tree (name n) (is_file n) (lines_of ls n) ts).

#[local] Set Elimination Schemes.

(** [grows fs fs' keep]: [fs'] has all the objects of [fs] and maybe more;
    the nodes of [fs] that satisfy [keep] and all its line lists are
    unchanged. *)
Definition grows (fs fs' : FileSystem) (keep : ref → Prop) : Prop :=
  length (nodes fs) ≤ length (nodes fs')
  ∧ (∀ x, x < length (nodes fs) → keep x → nodes fs' !! x = nodes fs !! x)
  ∧ lists fs `prefix_of` lists fs'
  ∧ root fs' = root fs ∧ current fs' = current fs.

(** The first statements of [deep_copy]: the copy of the top node. *)
Definition copy_top (fs : FileSystem) (n : FileSystemNode) (new_parent : ref)
    : option FileSystem :=
  let '(fs1, copy_node) := new_node fs (name n) (is_file n) (Some new_parent) in
  if is_file n then
    k ← content n;
    l ← lists fs1 !! k;
    Some (mkFS (alter (set_content (Some (length (lists fs1)))) copy_node (nodes fs1))
               (lists fs1 ++ [l]) (root fs1) (current fs1))
  else Some fs1.

Definition fs_basics (fs : FileSystem) : Prop :=
  basics_ok (nodes fs) (length (lists fs)) (root fs) (current fs).

(** What a call of [deep_copy] with the given fuel does, in a store [fs]
    that grew out of the well-formed store [fs0] in which the source
    lives: the result is well formed, the copy hangs in no chain yet, names
    [new_parent] as its parent, and is the mirror image of the source
    subtree, in fresh cells and with fresh line lists. *)
Definition deep_copy_ok (fs0 : FileSystem) (fuel : nat) : Prop :=
  ∀ fs node new_parent fs' c,
    grows fs0 fs (λ _, True) → wf fs →
    new_parent < length (nodes fs) → node < length (nodes fs0) →
    deep_copy fuel fs node new_parent = Some (fs', c) →
    wf fs' ∧ unchained (nodes fs') c
    ∧ parent_of (nodes fs') c = Some new_parent
    ∧ ∃ t, is_tree (nodes fs0) (lists fs0) node t
           ∧ fresh_tree (nodes fs') (lists fs') (length (lists fs0))
               (length (nodes fs)) c (mirror t).

(** What the loop of [deep_copy] does for the rest [rest] of the source
    chain, when the copy already has the children [lc] with subtrees [tc]:
    it puts the mirror images of the remaining source subtrees in front of
    them, last one first. *)
Definition copy_children_ok (fs0 : FileSystem) (fuel : nat) : Prop :=
  ∀ fs o copy_node fs' rest lc tc,
    grows fs0 fs (λ _, True) → wf fs →
    length (nodes fs0) ≤ copy_node → copy_node < length (nodes fs) →
    chain (nodes fs0) o rest →
    NoDup (name_of (nodes fs0) <$> rest) →
    kids (nodes fs) copy_node lc →
    Forall2 (fresh_tree (nodes fs) (lists fs) (length (lists fs0)) (S copy_node))
      lc tc →
    (∀ nm, Some nm ∈ name_of (nodes fs0) <$> rest → nm ∉ tree_name <$> tc) →
    copy_children fuel fs o copy_node = Some fs' →
    wf fs'
    ∧ ∃ ts l',
        Forall2 (is_tree (nodes fs0) (lists fs0)) rest ts
        ∧ kids (nodes fs') copy_node (l' ++ lc)
        ∧ Forall2 (fresh_tree (nodes fs') (lists fs') (length (lists fs0))
                     (S copy_node))
            (l' ++ lc) (reverse (mirror <$> ts) ++ tc).

(** How [cp] and [mv] read their destination: [d] is the directory that
    receives the node, and [nm] the new name, if one is given. *)
Definition destination (fs : FileSystem) (destination_path : string)
    (d : ref) (nm : option string) : Prop :=
  (get_node_by_path fs destination_path = Some (Some d) ∧ nm = None)
  ∨ (get_node_by_path fs destination_path = Some None
     ∧ get_node_by_path fs (split_dest destination_path).1 = Some (Some d)
     ∧ nm = Some (split_dest destination_path).2).

(** The name under which the node arrives. *)
Definition arrival_name (nm : option string) (n : FileSystemNode) : string :=
  match nm with
  | Some new_name => new_name
  | None => name n
  end.

(** How one command changes a children collection [l] of the node [p]:
    the node [gone], if any, is taken out, and the node [x] of the pair
    [ins], if any, is put in front of the collection of [d]. *)
Definition after_step (ins : option (ref * ref)) (gone : option ref)
    (p : ref) (l : list ref) : list ref :=
  let rest := match gone with Some t => without t l | None => l end in
  match ins with
  | Some (x, d) => if decide (p = d) then x :: rest else rest
  | None => rest
  end.

(** How [ls] shows the child [c]. *)
Definition label (h : list FileSystemNode) (c : ref) : string :=
  match h !! c with
  | Some n => if is_file n then name n else name n +:+ "/"
  | None => ""
  end.


(** The commands that edit the lines of a file. *)
Definition is_editor (c : command) : bool :=
  match c with
  | Nwfiletxt | Appendtxt | Editline | Deline => true
  | _ => false
  end.

(** A directory [d] with two files, before and after [cp d e]. *)
Definition two_files : FileSystem :=
  state_after ["mkdir d"; "touch d a.txt"; "touch d b.txt"].

Definition two_files_copied : FileSystem :=
  state_after ["mkdir d"; "touch d a.txt"; "touch d b.txt"; "cp d e"].

(** [inside h s x]: the node [x] lies in the subtree under [s]. *)
Definition inside (h : list FileSystemNode) (s x : ref) : Prop :=
  x = s ∨ ancestor h s x.

(** The cursor in a directory [a], next to a directory [c], before and
    after [mv . ../c]. *)
Definition before_mv_cwd : FileSystem :=
  state_after ["mkdir a"; "mkdir c"; "cd a"].

Definition after_mv_cwd : FileSystem :=
  state_after ["mkdir a"; "mkdir c"; "cd a"; "mv . ../c"].

(** A directory [a] with a file, next to a directory [c], before and after
    [mv a c]. *)
Definition before_mv_dir : FileSystem :=
  state_after ["mkdir a"; "touch a x.txt"; "mkdir c"].

Definition after_mv_dir : FileSystem :=
  state_after ["mkdir a"; "touch a x.txt"; "mkdir c"; "mv a c"].

(** A name that a path can use as a segment: not empty, not one of the two
    dot segments, and free of the separator. *)
Definition segment_name (nm : string) : Prop :=
  Py.contains Py.slash nm = false ∧ nm ≠ "" ∧ nm ≠ "." ∧ nm ≠ "..".

(** What a path leads to when it is read in two parts. *)
Definition and_then (r : option (option ref)) (k : ref → option (option ref))
    : option (option ref) :=
  match r with
  | Some (Some x) => k x
  | _ => r
  end.

(** How [mkdir] and [touch] read their arguments: the directory [d] to
    create in and the name [nm] to create. *)
Definition placed (fs : FileSystem) (args : list string) (d : ref) (nm : string)
    : Prop :=
  (∃ cmd, args = [cmd; nm] ∧ d = current fs)
  ∨ (∃ cmd path, args = [cmd; path; nm] ∧ get_node_by_path fs path = Some (Some d)).

(** The commands that put a new node into a directory. *)
Definition is_insertion (c : command) : bool :=
  match c with
  | Mkdir | Touch | Cp => true
  | _ => false
  end.

(** [same_links h h']: the two stores have the same nodes with the same
    names and pointers; kinds and contents may differ. *)
Definition same_links (h h' : list FileSystemNode) : Prop :=
  length h' = length h
  ∧ ∀ x n, h !! x = Some n →
      ∃ n', h' !! x = Some n'
            ∧ name n' = name n ∧ parent n' = parent n
            ∧ child n' = child n ∧ next n' = next n.

(** A console line that ends the input of [nwfiletxt] and [appendtxt]. *)
Definition is_end (line : string) : bool := String.eqb (Py.strip_ws line) "/end/".

(** A file has no children. *)
Definition files_leaf (h : list FileSystemNode) : Prop :=
  ∀ r n, h !! r = Some n → is_file n = true → child n = None.

(** No two nodes hold the same line list. *)
Definition lists_apart (h : list FileSystemNode) : Prop :=
  ∀ x y nx ny k,
    h !! x = Some nx → h !! y = Some ny →
    content nx = Some k → content ny = Some k → x = y.

Definition tidy (h : list FileSystemNode) : Prop := files_leaf h ∧ lists_apart h.

(** [route h r x names]: the node [x] hangs in the tree under [r]: going
    up from [x], every node is among the children of its parent and bears a
    name that is a segment, until [r] is reached; [names] are the names on
    the way down from [r] to [x], without the one of [r]. *)
Inductive route (h : list FileSystemNode) (r : ref) : ref → list string → Prop :=
  | route_root : route h r r []
  | route_child p x n names l :
      route h r p names →
      h !! x = Some n → parent n = Some p →
      kids h p l → x ∈ l → segment_name (name n) →
      route h r x (names ++ [name n]).

(** The text of the prompt for a node with these names above it. *)
Definition full_path_of (names : list string) : string :=
  match names with
  | [] => "/"
  | _ => "/" +:+ Py.join "/" names
  end.
(** * Properties *)

Example split_ex1 : Py.split Py.slash "a//b/" = ["a"; ""; "b"; ""].
Proof. reflexivity. Qed.
Example split_ex2 : Py.split Py.slash "" = [""].
Proof. reflexivity. Qed.
Example strip_ex1 : Py.strip Py.slash "//a/b//" = "a/b".
Proof. reflexivity. Qed.
Example strip_ex2 : Py.strip Py.slash "///" = "".
Proof. reflexivity. Qed.
Example rsplit1_ex1 : Py.rsplit1 Py.slash "a/b/c" = Some ("a/b", "c").
Proof. reflexivity. Qed.
Example rsplit1_ex2 : Py.rsplit1 Py.slash "/c" = Some ("", "c").
Proof. reflexivity. Qed.
Example rsplit1_ex3 : Py.rsplit1 Py.slash "abc" = None.
Proof. reflexivity. Qed.
Example endswith_ex1 : Py.endswith ".txt" "a.txt" = true.
Proof. reflexivity. Qed.
Example endswith_ex2 : Py.endswith ".txt" "txt" = false.
Proof. reflexivity. Qed.
Example split_ws_ex1 : Py.split_ws "  mkdir   a b " = ["mkdir"; "a"; "b"].
Proof. reflexivity. Qed.
Example int_ex1 : Py.int "12" = Some 12%Z.
Proof. reflexivity. Qed.
Example int_ex2 : Py.int "-3" = Some (-3)%Z.
Proof. reflexivity. Qed.
Example int_ex3 : Py.int "1_0" = Some 10%Z.
Proof. reflexivity. Qed.
Example int_ex4 : Py.int "1__0" = None.
Proof. reflexivity. Qed.
Example int_ex5 : Py.int "x" = None.
Proof. reflexivity. Qed.
Example int_ex6 : Py.int "" = None.
Proof. reflexivity. Qed.

(** ** Errors leave the store alone *)

(** Peels one layer of a run [H : ... = Some _]: a bind, a case
    distinction or a returned value. *)
Ltac crunch :=
  repeat match goal with
  | H : (_ ≫= _) = Some _ |- _ => apply bind_Some in H as (? & ? & H)
  | H : None = Some _ |- _ => discriminate H
  | H : Some _ = Some _ |- _ => injection H as H
  | H : (_, _) = (_, _) |- _ => injection H as ? H
  | H : Err _ = Err _ |- _ => clear H
  | H : Ok _ = Err _ |- _ => discriminate H
  | H : Err _ = Ok _ |- _ => discriminate H
  | H : match ?x with _ => _ end = Some _ |- _ => destruct x eqn:?
  end.

Lemma create_in_error fs target nm file out msg fs' :
  create_in fs target nm file out = Some (Err msg, fs') → fs' = fs.
Proof. unfold create_in. intros H. crunch; congruence. Qed.

Lemma edit_at_error fs n number edit msg fs' :
  edit_at fs n number edit = Some (Err msg, fs') → fs' = fs.
Proof. unfold edit_at. intros H. crunch; congruence. Qed.

Lemma cp_command_error fs args msg fs' :
  cp_command fs args = Some (Err msg, fs') → fs' = fs.
Proof. unfold cp_command. intros H. crunch; congruence. Qed.

(** C1.  Whenever one of the writing commands returns after printing an
    error message, the whole store (every node with all its fields, every
    line list, the root and the current directory) is the one it was
    called with. *)
Theorem error_leaves_store_unchanged c fs args stdin msg fs' stdin' :
  run_command c fs args stdin = Some (Err msg, fs', stdin') → fs' = fs.
Proof.
  destruct c; cbn [run_command];
    unfold no_input, mkdir_command, touch_command, touch_tail, cd_command,
      rm_command, rename_command, cp_command, mv_command, nwfiletxt_command,
      appendtxt_command, editline_command, deline_command;
    intros H; crunch;
    try congruence; subst; eauto using create_in_error, edit_at_error.
Qed.

Lemma error_leaves_store_unchanged_witness :
  run_command Mv init ["mv"; "/"; "x"] [] = Some (Err "Cannot move root directory.", init, [])
  ∧ init = init.
Proof.
  split; [reflexivity |].
  exact (error_leaves_store_unchanged Mv init ["mv"; "/"; "x"] []
           "Cannot move root directory." init [] eq_refl).
Defined.

(** ** Line edits *)

Lemma alter_as_insert {A} (f : A → A) (l : list A) k x :
  l !! k = Some x → alter f k l = <[k := f x]> l.
Proof.
  intros Hk. apply list_eq. intros i.
  destruct (decide (i = k)) as [->|Hne].
  - rewrite list_lookup_alter_eq, Hk.
    rewrite list_lookup_insert_eq by eauto using lookup_lt_Some. done.
  - rewrite list_lookup_alter_ne, list_lookup_insert_ne by done. done.
Qed.

#[local] Arguments edit_at : simpl never.

Lemma edit_at_outcome fs n k l number edit :
  content n = Some k → lists fs !! k = Some l →
  line_edit_outcome fs k l number (λ i, edit i l) (edit_at fs n number edit).
Proof.
  intros Hk Hl. unfold line_edit_outcome, edit_at.
  destruct (Py.int number) as [z|]; [|done].
  rewrite Hk. cbn [mbind option_bind]. rewrite Hl. cbn [mbind option_bind].
  destruct (decide (1 ≤ z ≤ Z.of_nat (length l))%Z) as [Hin|Hout].
  - replace ((z <? 1)%Z || (Z.of_nat (length l) <? z)%Z) with false
      by (symmetry; apply orb_false_iff; split; apply Z.ltb_ge; lia).
    by rewrite (alter_as_insert _ _ _ _ Hl).
  - replace ((z <? 1)%Z || (Z.of_nat (length l) <? z)%Z) with true; [done|].
    symmetry. apply orb_true_iff.
    destruct (decide (z < 1)%Z); [left|right]; apply Z.ltb_lt; lia.
Qed.

(** C8.  On a path that names a file with lines [l], [editline] and
    [deline] read their line number 1-based: a number that is not an
    integer, or is below 1 or above [length l], gives an error and the very
    same store; a number [z] in range makes [editline] put the new text in
    the place of line [z] and [deline] drop line [z], the later lines moving
    up by one.  Nothing but that one list changes. *)
Theorem editline_deline_one_indexed fs path r n k l number w ws :
  get_node_by_path fs path = Some (Some r) →
  nodes fs !! r = Some n →
  is_file n = true →
  content n = Some k →
  lists fs !! k = Some l →
  line_edit_outcome fs k l number
    (λ i, take i l ++ Py.join " " (w :: ws) :: drop (S i) l)
    (editline_command fs ("editline" :: path :: number :: w :: ws))
  ∧ line_edit_outcome fs k l number
      (λ i, take i l ++ drop (S i) l)
      (deline_command fs ["deline"; path; number]).
Proof.
  intros Hp Hr Hf Hk Hl.
  assert (Hfile : file_at fs path = Some (Some (r, n))).
  { unfold file_at. rewrite Hp. cbn. rewrite Hr. cbn. by rewrite Hf. }
  split.
  - unfold editline_command. rewrite Hfile. cbn [mbind option_bind].
    pose proof (edit_at_outcome fs n k l number
      (λ i (l : list string), <[i := Py.join " " (w :: ws)]> l) Hk Hl) as H.
    unfold line_edit_outcome in *.
    destruct (Py.int number) as [z|]; [|done].
    destruct (decide (1 ≤ z ≤ Z.of_nat (length l))%Z); [|done].
    rewrite H. rewrite (insert_take_drop l) by lia. done.
  - unfold deline_command. rewrite Hfile. cbn [mbind option_bind].
    pose proof (edit_at_outcome fs n k l number
      (λ i (l : list string), delete i l) Hk Hl) as H.
    unfold line_edit_outcome in *.
    destruct (Py.int number) as [z|]; [|done].
    destruct (decide (1 ≤ z ≤ Z.of_nat (length l))%Z); [|done].
    rewrite H. by rewrite delete_take_drop.
Qed.

Lemma editline_deline_one_indexed_witness :
  let fs := mkFS [mkNode "root" false None (Some 1) None None;
                  mkNode "f.txt" true (Some 0) None None (Some 0)]
                 [["hello"; "world"]] 0 0 in
  line_edit_outcome fs 0 ["hello"; "world"] "2"
    (λ i, take i ["hello"; "world"] ++ Py.join " " ["WORLD"] :: drop (S i) ["hello"; "world"])
    (editline_command fs ["editline"; "f.txt"; "2"; "WORLD"])
  ∧ line_edit_outcome fs 0 ["hello"; "world"] "2"
      (λ i, take i ["hello"; "world"] ++ drop (S i) ["hello"; "world"])
      (deline_command fs ["deline"; "f.txt"; "2"]).
Proof.
  intros fs.
  apply (editline_deline_one_indexed fs "f.txt" 1
           (mkNode "f.txt" true (Some 0) None None (Some 0)) 0
           ["hello"; "world"] "2" "WORLD" []); reflexivity.
Defined.

Example editline_in_range :
  let fs := mkFS [mkNode "root" false None (Some 1) None None;
                  mkNode "f.txt" true (Some 0) None None (Some 0)]
                 [["hello"; "world"]] 0 0 in
  (editline_command fs ["editline"; "f.txt"; "2"; "WORLD"] ≫= λ x, content_of x.2 1)
    = Some ["hello"; "WORLD"]
  ∧ (deline_command fs ["deline"; "f.txt"; "1"] ≫= λ x, content_of x.2 1)
    = Some ["world"]
  ∧ editline_command fs ["editline"; "f.txt"; "0"; "x"]
    = Some (Err "Invalid line number.", fs)
  ∧ deline_command fs ["deline"; "f.txt"; "3"]
    = Some (Err "Invalid line number.", fs)
  ∧ deline_command fs ["deline"; "f.txt"; "-1"]
    = Some (Err "Invalid line number.", fs)
  ∧ editline_command fs ["editline"; "f.txt"; "two"; "x"]
    = Some (Err "Line number must be an integer.", fs).
Proof. repeat split; reflexivity. Qed.

(** ** Sibling chains *)

Lemma chain_det h o l1 l2 : chain h o l1 → chain h o l2 → l1 = l2.
Proof.
  revert o l2. induction l1 as [|c l1 IH]; intros o [|c' l2]; cbn.
  - done.
  - intros -> [? _]. done.
  - intros [-> _] ?. done.
  - intros [-> (n & Hn & H1)] [[= <-] (n' & Hn' & H2)].
    rewrite Hn in Hn'. injection Hn' as <-. f_equal. eauto.
Qed.

Lemma chain_lookup h o l c : chain h o l → c ∈ l → is_Some (h !! c).
Proof.
  revert o. induction l as [|c' l IH]; intros o; cbn.
  - intros _ Hc. by apply elem_of_nil in Hc.
  - intros [-> (n & Hn & Hl)] [->|Hc]%elem_of_cons; eauto.
Qed.

Lemma chain_app h o l1 l2 :
  chain h o (l1 ++ l2) → ∃ o', chain h o' l2 ∧ (l1 = [] → o' = o).
Proof.
  revert o. induction l1 as [|c l1 IH]; intros o; cbn.
  - intros H. exists o. done.
  - intros [-> (n & Hn & Hl)].
    destruct (IH _ Hl) as (o' & Hc & Hnil).
    exists o'. split; [done|]. intros [=].
Qed.

Lemma chain_suffix h o l1 c l2 :
  chain h o (l1 ++ c :: l2) → chain h (Some c) (c :: l2).
Proof.
  intros H. destruct (chain_app _ _ _ _ H) as (o' & Hc & _).
  cbn in Hc. destruct Hc as [-> Hc]. cbn. eauto.
Qed.

Lemma chain_NoDup h o l : chain h o l → NoDup l.
Proof.
  revert o. induction l as [|c l IH]; intros o; cbn.
  - intros _. apply NoDup_nil_2.
  - intros [-> (n & Hn & Hl)]. apply NoDup_cons. split; [|eauto].
    intros Hc. apply list_elem_of_split in Hc as (l1 & l2 & ->).
    pose proof (chain_suffix _ _ _ _ _ Hl) as Hs.
    assert (Hw : chain h (Some c) (c :: l1 ++ c :: l2)) by (cbn; eauto).
    pose proof (chain_det _ _ _ _ Hs Hw) as Heq.
    apply (f_equal length) in Heq. cbn in Heq. rewrite length_app in Heq.
    cbn in Heq. lia.
Qed.

Lemma chain_length h o l : chain h o l → length l ≤ length h.
Proof.
  intros H. replace (length h) with (length (seq 0 (length h))) at 1
    by apply length_seq.
  apply submseteq_length, NoDup_submseteq; [by eapply chain_NoDup|].
  intros c Hc. apply elem_of_seq.
  destruct (chain_lookup _ _ _ _ H Hc) as [n Hn].
  apply lookup_lt_Some in Hn. lia.
Qed.

(** A chain only depends on the [next] fields of its own cells. *)
Lemma chain_frame h h' o l :
  chain h o l →
  (∀ c n, c ∈ l → h !! c = Some n → ∃ n', h' !! c = Some n' ∧ next n' = next n) →
  chain h' o l.
Proof.
  revert o. induction l as [|c l IH]; intros o; cbn; [done|].
  intros [-> (n & Hn & Hl)] Hsame.
  destruct (Hsame c n) as (n' & Hn' & Hnext); [by left|done|].
  split; [done|]. exists n'. split; [done|]. rewrite Hnext.
  apply IH; [done|]. intros c' m Hc'. apply Hsame. by right.
Qed.

Lemma chain_from_chain fuel h o l : chain_from fuel h o = Some l → chain h o l.
Proof.
  revert o l. induction fuel as [|fuel IH]; intros [c|] l; cbn; try done.
  - intros [= <-]. done.
  - intros H. apply bind_Some in H as (n & Hn & H).
    apply bind_Some in H as (rest & Hrest & [= <-]). cbn. eauto.
  - intros [= <-]. done.
Qed.

Lemma chain_chain_from fuel h o l :
  chain h o l → length l ≤ fuel → chain_from fuel h o = Some l.
Proof.
  revert o l. induction fuel as [|fuel IH]; intros o [|c l]; cbn.
  - by intros ->.
  - lia.
  - by intros ->.
  - intros [-> (n & Hn & Hl)] Hlen. cbn. rewrite Hn. cbn.
    rewrite (IH _ _ Hl) by lia. done.
Qed.

Lemma children_chain h p n l :
  h !! p = Some n → children h p = Some l ↔ chain h (child n) l.
Proof.
  intros Hp. unfold children. rewrite Hp. cbn. split.
  - apply chain_from_chain.
  - intros H. apply chain_chain_from; [done|]. by eapply chain_length.
Qed.

Lemma first_named_Some h nm l c :
  first_named h nm l = Some c → c ∈ l ∧ name_of h c = Some nm.
Proof.
  induction l as [|c' l IH]; cbn; [done|].
  destruct (decide (name_of h c' = Some nm)).
  - intros [= <-]. split; [by left|done].
  - intros H. destruct (IH H). split; [by right|done].
Qed.

Lemma first_named_None h nm l :
  first_named h nm l = None ↔ ∀ c, c ∈ l → name_of h c ≠ Some nm.
Proof.
  induction l as [|c' l IH]; cbn.
  - split; [|done]. intros _ c Hc. by apply elem_of_nil in Hc.
  - destruct (decide (name_of h c' = Some nm)) as [Heq|Hne].
    + split; [done|]. intros H. destruct (H c'); [by left|done].
    + rewrite IH. split.
      * intros H c [->|Hc]%elem_of_cons; eauto.
      * intros H c Hc. apply H. by right.
Qed.

Lemma find_child_from_chain fuel h o l nm :
  chain h o l → length l ≤ fuel →
  find_child_from fuel h o nm = Some (first_named h nm l).
Proof.
  revert o l. induction fuel as [|fuel IH]; intros o [|c l]; cbn.
  - by intros ->.
  - lia.
  - by intros ->.
  - intros [-> (n & Hn & Hl)] Hlen. rewrite Hn. cbn.
    unfold name_of. rewrite Hn. cbn.
    destruct (String.eqb_spec (name n) nm) as [->|Hne].
    + by rewrite decide_True.
    + rewrite decide_False by congruence. apply IH; [done|lia].
Qed.

Lemma find_child_children h p nm l :
  children h p = Some l → find_child h p nm = Some (first_named h nm l).
Proof.
  unfold children, find_child. intros H.
  apply bind_Some in H as (n & Hn & H). rewrite Hn. cbn.
  apply chain_from_chain in H.
  apply find_child_from_chain; [done|]. by eapply chain_length.
Qed.

(** ** Scripts and reachable states *)

Lemma run_script_reachable script fs res fs' :
  reachable fs → run_script fs script = Some (res, fs') → reachable fs'.
Proof.
  revert fs. induction script as [|line script IH]; intros fs Hfs; cbn.
  - by intros [= _ <-].
  - destruct script as [|line' script].
    + intros H. apply bind_Some in H as ([[r fs1] rest] & Hstep & [= _ <-]).
      by eapply reachable_step.
    + intros H. apply bind_Some in H as ([[r fs1] rest] & Hstep & H).
      eapply IH; [|exact H]. by eapply reachable_step.
Qed.

Lemma state_after_reachable script : reachable (state_after script).
Proof.
  unfold state_after. destruct (run_script init script) as [[res fs]|] eqn:H.
  - eapply run_script_reachable; [apply reachable_init|exact H].
  - apply reachable_init.
Qed.

(** ** Renaming a node to the name it has *)

Lemma first_named_elem h nm l c :
  c ∈ l → name_of h c = Some nm → is_Some (first_named h nm l).
Proof.
  intros Hc Hnm. destruct (first_named h nm l) eqn:H; [by eexists|].
  rewrite first_named_None in H. by destruct (H c Hc).
Qed.

(** C10, as amended.  A node that is in the children collection of its
    parent cannot be renamed to its own name: the duplicate check finds a
    child of that name (the node itself, or one before it), an error is
    printed and the store is unchanged. *)
Theorem rename_to_own_name_fails fs path t n p l :
  get_node_by_path fs path = Some (Some t) →
  nodes fs !! t = Some n →
  parent n = Some p →
  children (nodes fs) p = Some l →
  t ∈ l →
  rename_command fs ["rename"; path; name n]
  = Some (Err "A node with that name already exists.", fs).
Proof.
  intros Hpath Ht Hp Hl Htl. unfold rename_command.
  rewrite Hpath. cbn. rewrite Ht. cbn. rewrite Hp.
  rewrite (find_child_children _ _ _ _ Hl). cbn.
  destruct (first_named_elem (nodes fs) (name n) l t Htl) as [c ->]; [|done].
  unfold name_of. by rewrite Ht.
Qed.

Lemma rename_to_own_name_fails_witness :
  rename_command (state_after ["mkdir a"]) ["rename"; "a"; "a"]
  = Some (Err "A node with that name already exists.", state_after ["mkdir a"]).
Proof.
  apply (rename_to_own_name_fails (state_after ["mkdir a"]) "a" 1
           (mkNode "a" false (Some 0) None None None) 0 [1]);
    [reflexivity..|]. by left.
Defined.

(** C10 as stated fails on a node that [rm] took out of its parent's chain
    while the cursor stayed on it: the node is not the root (its parent
    pointer is still set), yet renaming it to its own name succeeds and
    changes nothing. *)
Lemma rename_to_own_name_counterexample :
  reachable removed_cwd
  ∧ get_node_by_path removed_cwd "." = Some (Some 1)
  ∧ nodes removed_cwd !! 1 = Some (mkNode "a" false (Some 0) None None None)
  ∧ rename_command removed_cwd ["rename"; "."; "a"] = Some (Ok [], removed_cwd).
Proof.
  split; [|by repeat split].
  change removed_cwd with (state_after ["mkdir a"; "cd a"; "rm ."]).
  apply state_after_reachable.
Qed.

(** ** Ancestors *)

Lemma nth_parent_ancestor h k c a :
  nth_parent (S k) h c = Some a → ancestor h a c.
Proof.
  revert c. induction k as [|k IH]; intros c H.
  - cbn in H. apply bind_Some in H as (p & Hp & [= ->]). by apply ancestor_parent.
  - change (nth_parent (S (S k)) h c) with (parent_of h c ≫= nth_parent (S k) h) in H.
    apply bind_Some in H as (p & Hp & H).
    eapply ancestor_step; eauto.
Qed.

Lemma ancestor_nth_parent h a c :
  ancestor h a c → ∃ k, nth_parent (S k) h c = Some a.
Proof.
  induction 1 as [c a Hp|c p a Hp _ (k & IH)].
  - exists 0. cbn. by rewrite Hp.
  - exists (S k).
    change (nth_parent (S (S k)) h c) with (parent_of h c ≫= nth_parent (S k) h).
    by rewrite Hp.
Qed.

(** ** Moving a directory into its own subtree *)

Lemma ancestor_lt h a c :
  (∀ x p, parent_of h x = Some p → p < x) → ancestor h a c → a < c.
Proof.
  intros Hlt. induction 1 as [c a Hp|c p a Hp _ IH].
  - by apply Hlt.
  - apply Hlt in Hp. lia.
Qed.

Lemma before_cyclic_mv_acyclic : acyclic (nodes before_cyclic_mv).
Proof.
  intros c H. apply ancestor_lt in H; [lia|].
  intros [|[|[|x]]] p; cbn; intros [=]; lia.
Qed.

(** C3 does not hold of the code.  From the acyclic store
    [before_cyclic_mv], where the cursor is in [/a] and [/a/b] exists,
    [mv . b] succeeds and leaves [a] and [b] as each other's parent and
    only child, cut off from the root: the cursor's directory is its own
    ancestor, and the prompt's [get_full_path] no longer terminates. *)
Theorem mv_into_own_subtree_makes_cycle :
  reachable before_cyclic_mv
  ∧ acyclic (nodes before_cyclic_mv)
  ∧ mv_command before_cyclic_mv ["mv"; "."; "b"] = Some (Ok [], after_cyclic_mv)
  ∧ current after_cyclic_mv = 1
  ∧ parent_of (nodes after_cyclic_mv) 1 = Some 2
  ∧ parent_of (nodes after_cyclic_mv) 2 = Some 1
  ∧ ancestor (nodes after_cyclic_mv) 1 1
  ∧ ¬ acyclic (nodes after_cyclic_mv)
  ∧ children (nodes after_cyclic_mv) (root after_cyclic_mv) = Some []
  ∧ get_full_path after_cyclic_mv (current after_cyclic_mv) = None.
Proof.
  assert (Hanc : ancestor (nodes after_cyclic_mv) 1 1)
    by (apply (nth_parent_ancestor _ 1); reflexivity).
  split_and!; try reflexivity; try done.
  - change before_cyclic_mv with (state_after ["mkdir a"; "mkdir a b"; "cd a"]).
    apply state_after_reachable.
  - apply before_cyclic_mv_acyclic.
  - intros H. by apply (H 1).
Qed.

(** ** Removing the directory the cursor is in *)

(** C7 does not hold of the code.  [rm .] in [/a] unlinks [a] from the
    root, but the cursor keeps pointing to its cell: the path [.] that was
    removed still resolves, to the removed node.  Likewise after [rm /a]
    from inside [/a]: the absolute path is gone, but the relative path [b],
    which reached a descendant of the removed node, still resolves. *)
Theorem rm_leaves_cursor_in_removed_subtree :
  rm_command (state_after ["mkdir a"; "cd a"]) ["rm"; "."] = Some (Ok [], removed_cwd)
  ∧ get_node_by_path (state_after ["mkdir a"; "cd a"]) "." = Some (Some 1)
  ∧ get_node_by_path removed_cwd "." = Some (Some 1)
  ∧ children (nodes removed_cwd) (root removed_cwd) = Some []
  ∧ rm_command (state_after ["mkdir a"; "mkdir a b"; "cd a"]) ["rm"; "/a"]
    = Some (Ok [], removed_above_cwd)
  ∧ get_node_by_path (state_after ["mkdir a"; "mkdir a b"; "cd a"]) "b" = Some (Some 2)
  ∧ get_node_by_path removed_above_cwd "/a" = Some None
  ∧ get_node_by_path removed_above_cwd "b" = Some (Some 2).
Proof. split_and!; reflexivity. Qed.

(** ** Path resolution *)

Section split_strip.
Variable c : ascii.

Lemma split_cons_sep s : Py.split c (String c s) = EmptyString :: Py.split c s.
Proof. cbn. by rewrite Ascii.eqb_refl. Qed.

Lemma split_not_nil s : Py.split c s ≠ [].
Proof.
  destruct s as [|a s]; cbn; [done|].
  destruct (Ascii.eqb a c); [done|]. by destruct (Py.split c s).
Qed.

Lemma split_cons_other a s w ws :
  Ascii.eqb a c = false → Py.split c s = w :: ws →
  Py.split c (String a s) = String a w :: ws.
Proof. intros Ha Hs. cbn. by rewrite Ha, Hs. Qed.

(** Stripping the separator on the right only drops empty pieces at the
    end of the split. *)
Lemma split_rstrip s :
  ∃ k, Py.split c s = Py.split c (Py.rstrip c s) ++ replicate k EmptyString.
Proof.
  induction s as [|a s [k IH]].
  - exists 0. done.
  - cbn [Py.rstrip]. destruct (Py.rstrip c s) as [|b r] eqn:Hr.
    + cbn in IH. destruct (Ascii.eqb a c) eqn:Ha.
      * apply Ascii.eqb_eq in Ha as ->. exists (S k).
        rewrite split_cons_sep, IH. done.
      * exists k. rewrite (split_cons_other _ _ _ _ Ha IH). cbn. by rewrite Ha.
    + destruct (Ascii.eqb a c) eqn:Ha.
      * apply Ascii.eqb_eq in Ha as ->. exists k.
        rewrite !split_cons_sep, IH. done.
      * exists k.
        destruct (Py.split c (String b r)) as [|w ws] eqn:Hs;
          [by destruct (split_not_nil (String b r))|].
        rewrite (split_cons_other a s w (ws ++ replicate k EmptyString) Ha IH).
        by rewrite (split_cons_other a (String b r) w ws Ha Hs).
  Qed.

Lemma split_lstrip s :
  ∃ k, Py.split c s = replicate k EmptyString ++ Py.split c (Py.lstrip c s).
Proof.
  induction s as [|a s [k IH]].
  - exists 0. done.
  - cbn [Py.lstrip]. destruct (Ascii.eqb a c) eqn:Ha.
    + apply Ascii.eqb_eq in Ha as ->. exists (S k).
      rewrite split_cons_sep, IH. done.
    + exists 0. done.
Qed.

Lemma split_strip s :
  ∃ j k, Py.split c s
         = replicate j EmptyString ++ Py.split c (Py.strip c s)
           ++ replicate k EmptyString.
Proof.
  destruct (split_lstrip s) as [j Hj].
  destruct (split_rstrip (Py.lstrip c s)) as [k Hk].
  exists j, k. rewrite Hj, Hk. done.
Qed.
End split_strip.

Lemma resolve_segments_app fs node l1 l2 :
  resolve_segments fs node (l1 ++ l2)
  = r ← resolve_segments fs node l1;
    match r with
    | None => Some None
    | Some node' => resolve_segments fs node' l2
    end.
Proof.
  revert node. induction l1 as [|s l1 IH]; intros node; cbn; [done|].
  destruct (resolve_segment fs node s) as [[x|]|]; cbn; [apply IH|done..].
Qed.

Lemma resolve_segments_empties fs node k :
  resolve_segments fs node (replicate k EmptyString) = Some (Some node).
Proof. induction k as [|k IH]; cbn; [done|]. apply IH. Qed.

Lemma resolve_segments_strip fs node s :
  resolve_segments fs node (Py.split Py.slash (Py.strip Py.slash s))
  = resolve_segments fs node (Py.split Py.slash s).
Proof.
  destruct (split_strip Py.slash s) as (j & k & ->).
  rewrite resolve_segments_app, resolve_segments_empties. cbn.
  rewrite resolve_segments_app.
  destruct (resolve_segments fs node _) as [[x|]|]; cbn; try done.
  by rewrite resolve_segments_empties.
Qed.

(** The loop of [get_node_by_path] takes the steps of the specification,
    provided the root has no parent. *)
Lemma walk_resolve_segments fs node parts :
  parent_of (nodes fs) (root fs) = None →
  walk (nodes fs) node parts = resolve_segments fs node parts.
Proof.
  intros Hroot. revert node.
  induction parts as [|part parts IH]; intros node; cbn; [done|].
  unfold resolve_segment.
  destruct (String.eqb_spec part "") as [->|Hne1]; [cbn; apply IH|].
  destruct (String.eqb_spec part ".") as [->|Hne2]; [cbn; apply IH|].
  cbn. rewrite decide_False by (intros [?|?]; done).
  destruct (String.eqb_spec part "..") as [->|Hne3].
  - rewrite decide_True by done.
    destruct (nodes fs !! node) as [n|] eqn:Hn; cbn; [|done].
    destruct (decide (node = root fs)) as [->|Hnr].
    + unfold parent_of in Hroot. rewrite Hn in Hroot. cbn in Hroot.
      rewrite Hroot. apply IH.
    + destruct (parent n); cbn; apply IH.
  - rewrite decide_False by done.
    destruct (find_child (nodes fs) node part) as [[x|]|]; cbn; [apply IH|done..].
Qed.

(** C5.  With any cursor, [get_node_by_path] computes the resolution that
    the specification describes: start at the root for a leading [/] and at
    the cursor otherwise, split on [/], skip empty and [.] segments, go to
    the parent on [..] (staying put at the root), descend by exact name
    otherwise and answer not-found at the first name that is no child.
    It returns a reference only: no store is produced, so none is changed. *)
Theorem get_node_by_path_resolves fs cursor path :
  parent_of (nodes fs) (root fs) = None →
  get_node_by_path (with_current cursor fs) path = resolve fs path cursor.
Proof.
  intros Hroot. unfold get_node_by_path, resolve. cbn [nodes root current with_current].
  destruct (Py.startswith Py.slash path) eqn:Hs.
  - destruct (String.eqb_spec path "/") as [->|Hne]; [done|].
    rewrite <- (resolve_segments_strip fs (root fs) path).
    by apply (walk_resolve_segments fs).
  - by apply (walk_resolve_segments fs).
Qed.

Lemma get_node_by_path_resolves_witness :
  get_node_by_path (with_current 1 (state_after ["mkdir a"; "mkdir a b"])) "b/.././/b"
  = resolve (state_after ["mkdir a"; "mkdir a b"]) "b/.././/b" 1.
Proof.
  apply (get_node_by_path_resolves (state_after ["mkdir a"; "mkdir a b"]) 1).
  reflexivity.
Defined.

Example resolve_examples :
  let fs := state_after ["mkdir a"; "mkdir a b"; "touch a x.txt"; "cd a"] in
  get_node_by_path fs "/" = Some (Some 0)
  ∧ get_node_by_path fs "/.." = Some (Some 0)
  ∧ get_node_by_path fs "../../a//b/." = Some (Some 2)
  ∧ get_node_by_path fs "" = Some (Some 1)
  ∧ get_node_by_path fs "//a/b/" = Some (Some 2)
  ∧ get_node_by_path fs "x.txt/c" = Some None
  ∧ get_node_by_path fs "nope/../b" = Some None
  ∧ get_node_by_path fs "b/../x.txt" = Some (Some 3).
Proof. repeat split; reflexivity. Qed.

(** ** Store updates and chains *)

Lemma chain_alter_other h o l f r :
  chain h o l → r ∉ l → chain (alter f r h) o l.
Proof.
  intros H Hr. eapply chain_frame; [done|]. intros c n Hc Hn.
  exists n. split; [|done]. rewrite list_lookup_alter_ne; [done|].
  by intros ->.
Qed.

Lemma chain_alter_next h o l f r :
  (∀ n, next (f n) = next n) → chain h o l → chain (alter f r h) o l.
Proof.
  intros Hf H. eapply chain_frame; [done|]. intros c n Hc Hn.
  destruct (decide (r = c)) as [->|Hne].
  - exists (f n). by rewrite list_lookup_alter_eq, Hn.
  - exists n. by rewrite list_lookup_alter_ne.
Qed.

Lemma chain_alloc h o l k : chain h o l → chain (h ++ k) o l.
Proof.
  intros H. eapply chain_frame; [done|]. intros c n Hc Hn.
  exists n. split; [|done]. by apply lookup_app_l_Some.
Qed.

Lemma kids_det h p l1 l2 : kids h p l1 → kids h p l2 → l1 = l2.
Proof.
  intros (n1 & Hn1 & H1) (n2 & Hn2 & H2). rewrite Hn1 in Hn2.
  injection Hn2 as <-. by eapply chain_det.
Qed.

Lemma kids_children h p l : kids h p l ↔ children h p = Some l.
Proof.
  split.
  - intros (n & Hn & H). by apply (children_chain h p n l).
  - intros H. unfold children in H. destruct (h !! p) as [n|] eqn:Hn; [|done].
    exists n. split; [done|]. cbn in H. by eapply chain_from_chain.
Qed.

Lemma kids_valid h p l c : kids h p l → c ∈ l → c < length h.
Proof.
  intros (n & Hn & H) Hc. destruct (chain_lookup _ _ _ _ H Hc) as [m Hm].
  by eapply lookup_lt_Some.
Qed.

Lemma unchained_fresh h c : length h ≤ c → unchained h c.
Proof.
  intros Hc p l Hk Hin. apply (kids_valid _ _ _ _ Hk) in Hin. lia.
Qed.

(** Two chains of a well-formed store that share a cell are the same
    chain. *)
Lemma chains_ok_disjoint h p q lp lq c :
  chains_ok h → kids h p lp → kids h q lq → c ∈ lp → c ∈ lq → p = q.
Proof.
  intros Hok (np & Hnp & Hp) (nq & Hnq & Hq) Hcp Hcq.
  destruct (Hok p np Hnp) as (l1 & H1 & Hpar1 & _).
  destruct (Hok q nq Hnq) as (l2 & H2 & Hpar2 & _).
  rewrite (chain_det _ _ _ _ Hp H1) in Hcp.
  rewrite (chain_det _ _ _ _ Hq H2) in Hcq.
  apply Hpar1 in Hcp. apply Hpar2 in Hcq. congruence.
Qed.

Lemma name_of_alter h f r x :
  (r = x → ∀ n, name (f n) = name n) → name_of (alter f r h) x = name_of h x.
Proof.
  intros Hf. unfold name_of. destruct (decide (r = x)) as [->|Hne].
  - rewrite list_lookup_alter_eq. destruct (h !! x); cbn; [|done].
    f_equal. by apply Hf.
  - by rewrite list_lookup_alter_ne.
Qed.

Lemma parent_of_alter h f r x :
  (r = x → ∀ n, parent (f n) = parent n) →
  parent_of (alter f r h) x = parent_of h x.
Proof.
  intros Hf. unfold parent_of. destruct (decide (r = x)) as [->|Hne].
  - rewrite list_lookup_alter_eq. destruct (h !! x); cbn; [|done]. by apply Hf.
  - by rewrite list_lookup_alter_ne.
Qed.

Lemma names_alter h f r (l : list ref) :
  (r ∈ l → ∀ n, name (f n) = name n) →
  name_of (alter f r h) <$> l = name_of h <$> l.
Proof.
  intros Hf. apply list_fmap_ext. intros i x Hx.
  apply name_of_alter. intros ->. apply Hf. by eapply list_elem_of_lookup_2.
Qed.

Lemma name_of_alloc h k x : x < length h → name_of (h ++ k) x = name_of h x.
Proof. intros Hx. unfold name_of. by rewrite lookup_app_l. Qed.

Lemma parent_of_alloc h k x : x < length h → parent_of (h ++ k) x = parent_of h x.
Proof. intros Hx. unfold parent_of. by rewrite lookup_app_l. Qed.

(** *** [add_child] *)

Lemma add_child_Some h self c s :
  h !! self = Some s →
  add_child h self c
  = Some (alter (set_child (Some c)) self (alter (set_next (child s)) c h)).
Proof. intros Hs. unfold add_child. by rewrite Hs. Qed.

Lemma add_child_length h self c h' :
  add_child h self c = Some h' → length h' = length h.
Proof.
  unfold add_child. intros H. apply bind_Some in H as (s & Hs & [= <-]).
  by rewrite !length_alter.
Qed.

Lemma add_child_kids_self h self c h' l :
  add_child h self c = Some h' → c < length h → c ≠ self → unchained h c →
  kids h self l → kids h' self (c :: l).
Proof.
  intros Hadd Hc Hne Hun (s & Hs & Hl).
  rewrite (add_child_Some _ _ _ _ Hs) in Hadd. injection Hadd as <-.
  destruct (lookup_lt_is_Some_2 h c Hc) as [cn Hcn].
  exists (set_child (Some c) s). split.
  - rewrite list_lookup_alter_eq, list_lookup_alter_ne by done. by rewrite Hs.
  - cbn. split; [done|]. exists (set_next (child s) cn). split.
    + rewrite list_lookup_alter_ne, list_lookup_alter_eq by done. by rewrite Hcn.
    + cbn. apply chain_alter_next; [done|]. apply chain_alter_other; [done|].
      apply (Hun self). by exists s.
Qed.

Lemma add_child_kids_other h self c h' p l :
  add_child h self c = Some h' → unchained h c → p ≠ self →
  kids h p l → kids h' p l.
Proof.
  intros Hadd Hun Hne (n & Hn & Hl).
  unfold add_child in Hadd. apply bind_Some in Hadd as (s & Hs & [= <-]).
  assert (Hch : chain (alter (set_child (Some c)) self
                         (alter (set_next (child s)) c h)) (child n) l).
  { apply chain_alter_next; [done|]. apply chain_alter_other; [done|].
    apply (Hun p). by exists n. }
  destruct (decide (p = c)) as [->|Hpc].
  - exists (set_next (child s) n). split; [|done].
    rewrite list_lookup_alter_ne, list_lookup_alter_eq by done. by rewrite Hn.
  - exists n. split; [|done]. by rewrite !list_lookup_alter_ne.
Qed.

Lemma add_child_name_of h self c h' x :
  add_child h self c = Some h' → name_of h' x = name_of h x.
Proof.
  unfold add_child. intros H. apply bind_Some in H as (s & Hs & [= <-]).
  by rewrite !name_of_alter.
Qed.

Lemma add_child_parent_of h self c h' x :
  add_child h self c = Some h' → parent_of h' x = parent_of h x.
Proof.
  unfold add_child. intros H. apply bind_Some in H as (s & Hs & [= <-]).
  by rewrite !parent_of_alter.
Qed.

Lemma add_child_names h self c h' (l : list ref) :
  add_child h self c = Some h' → name_of h' <$> l = name_of h <$> l.
Proof.
  intros H. apply list_fmap_ext. intros i x _.
  by apply (add_child_name_of _ _ _ _ _ H).
Qed.

Lemma first_named_None_names h nm l :
  first_named h nm l = None ↔ Some nm ∉ name_of h <$> l.
Proof.
  rewrite first_named_None, list_elem_of_fmap. split.
  - intros H (c & Hc & Hin). by apply (H c).
  - intros H c Hc Heq. apply H. by exists c.
Qed.

Lemma add_child_chains_ok h self c h' cn :
  chains_ok h → add_child h self c = Some h' →
  h !! c = Some cn → c ≠ self → unchained h c →
  parent cn = Some self →
  (∀ l, kids h self l → first_named h (name cn) l = None) →
  chains_ok h'.
Proof.
  intros Hok Hadd Hcn Hne Hun Hpar Hfresh p n' Hn'.
  assert (Hp : p < length h).
  { rewrite <- (add_child_length _ _ _ _ Hadd). by eapply lookup_lt_Some. }
  destruct (lookup_lt_is_Some_2 h p Hp) as [n Hn].
  destruct (Hok p n Hn) as (l & Hl & Hparents & Hnames).
  assert (Hk : kids h p l) by (by exists n).
  destruct (decide (p = self)) as [->|Hps].
  - destruct (add_child_kids_self _ _ _ _ _ Hadd (lookup_lt_Some _ _ _ Hcn) Hne Hun Hk)
      as (n'' & Hn'' & Hl').
    rewrite Hn' in Hn''. injection Hn'' as <-.
    exists (c :: l). split; [done|]. split.
    + intros x [->|Hx]%elem_of_cons;
        rewrite (add_child_parent_of _ _ _ _ _ Hadd); [|by apply Hparents].
      unfold parent_of. by rewrite Hcn.
    + rewrite (add_child_names _ _ _ _ _ Hadd).
      cbn. apply NoDup_cons. split; [|done].
      unfold name_of at 1. rewrite Hcn. cbn.
      apply first_named_None_names. by apply Hfresh.
  - destruct (add_child_kids_other _ _ _ _ _ _ Hadd Hun Hps Hk) as (n'' & Hn'' & Hl').
    rewrite Hn' in Hn''. injection Hn'' as <-.
    exists l. split; [done|]. split.
    + intros x Hx. rewrite (add_child_parent_of _ _ _ _ _ Hadd). by apply Hparents.
    + by rewrite (add_child_names _ _ _ _ _ Hadd).
Qed.

(** *** [unlink] *)

Lemma without_notin t l : t ∉ l → without t l = l.
Proof.
  unfold without. induction l as [|x l IH]; [done|].
  intros Hx. apply not_elem_of_cons in Hx as [Hne Hx].
  rewrite filter_cons_True by done. by rewrite IH.
Qed.

Lemma without_split t l1 l2 :
  NoDup (l1 ++ t :: l2) → without t (l1 ++ t :: l2) = l1 ++ l2.
Proof.
  intros Hnd. apply NoDup_app in Hnd as (_ & Hl1 & [Hl2 _]%NoDup_cons).
  unfold without. rewrite filter_app, filter_cons_False by (intros ?; done).
  fold (without t l1). fold (without t l2).
  rewrite !without_notin; [done..|].
  intros Hin. apply (Hl1 t Hin). by left.
Qed.

Lemma without_sublist t l : without t l `sublist_of` l.
Proof. apply sublist_filter. Qed.

Lemma elem_of_without t l x : x ∈ without t l ↔ x ≠ t ∧ x ∈ l.
Proof. unfold without. by rewrite list_elem_of_filter. Qed.

Lemma find_prev_chain fuel h o l t :
  chain h o l → length l ≤ fuel → find_prev fuel h o t = Some (pred_in l t).
Proof.
  revert o l. induction fuel as [|fuel IH]; intros o [|c l]; cbn.
  - by intros ->.
  - lia.
  - by intros ->.
  - intros [-> (n & Hn & Hl)] Hlen. rewrite Hn. cbn.
    destruct l as [|c' l].
    + cbn in Hl. rewrite Hl. rewrite decide_False by done. by destruct fuel.
    + pose proof Hl as [Hnext _]. rewrite Hnext.
      destruct (decide (c' = t)) as [->|Hne].
      * by rewrite decide_True.
      * rewrite decide_False by congruence. rewrite <- Hnext.
        apply IH; [done|lia].
Qed.

Lemma pred_in_Some l t c :
  pred_in l t = Some c → ∃ l1 l2, l = l1 ++ c :: t :: l2.
Proof.
  induction l as [|x l IH]; [done|]. cbn. destruct l as [|c' l]; [done|].
  destruct (decide (c' = t)) as [->|Hne].
  - intros [= ->]. by exists [], l.
  - intros H. destruct (IH H) as (l1 & l2 & Heq). exists (x :: l1), l2.
    by rewrite Heq.
Qed.

Lemma pred_in_None l t x :
  pred_in (x :: l) t = None → t ∉ l.
Proof.
  revert x. induction l as [|c' l IH]; intros x.
  - intros _. apply not_elem_of_nil.
  - cbn. destruct (decide (c' = t)) as [->|Hne]; [done|].
    intros H. apply not_elem_of_cons. split; [done|]. by apply (IH c').
Qed.

(** Bending the [next] pointer of the cell before [t] around [t]. *)
Lemma chain_splice h o l1 c t l2 tn :
  chain h o (l1 ++ c :: t :: l2) → h !! t = Some tn →
  chain (alter (set_next (next tn)) c h) o (l1 ++ c :: l2).
Proof.
  intros Hch Ht. pose proof (chain_NoDup _ _ _ Hch) as Hnd.
  revert o Hch Hnd. induction l1 as [|x l1 IH]; intros o; cbn.
  - intros [-> (cn & Hcn & [Hnext (tn' & Ht' & Hl2)])] Hnd.
    rewrite Ht in Ht'. injection Ht' as <-.
    apply NoDup_cons in Hnd as [Hc _].
    split; [done|]. exists (set_next (next tn) cn). split.
    + by rewrite list_lookup_alter_eq, Hcn.
    + cbn. apply chain_alter_other; [done|].
      intros Hin. apply Hc. by right.
  - intros [-> (xn & Hxn & Hl)] Hnd.
    apply NoDup_cons in Hnd as [Hx Hnd].
    split; [done|]. exists xn. split.
    + rewrite list_lookup_alter_ne; [done|]. intros ->. apply Hx.
      apply elem_of_app. right. by left.
    + by apply IH.
Qed.

(** What [unlink] does to the store: nothing, or one pointer is bent. *)
Lemma unlink_cases h par t h' :
  unlink h par t = Some h' →
  ∃ p tn, h !! par = Some p ∧ h !! t = Some tn
    ∧ ((child p = Some t ∧ h' = alter (set_child (next tn)) par h)
       ∨ (child p ≠ Some t ∧
          ∃ r, find_prev (length h) h (child p) t = Some r
               ∧ match r with
                 | Some c => h' = alter (set_next (next tn)) c h
                 | None => h' = h
                 end)).
Proof.
  unfold unlink. intros H.
  apply bind_Some in H as (p & Hp & H). apply bind_Some in H as (tn & Ht & H).
  exists p, tn. split; [done|]. split; [done|].
  destruct (decide (child p = Some t)) as [Hc|Hc].
  - left. by injection H as <-.
  - right. split; [done|]. apply bind_Some in H as (r & Hr & H).
    exists r. split; [done|]. destruct r; by injection H as <-.
Qed.

Lemma unlink_length h par t h' : unlink h par t = Some h' → length h' = length h.
Proof.
  intros H. destruct (unlink_cases _ _ _ _ H) as (p & tn & _ & _ & [[_ ->]|[_ (r & _ & Hr)]]).
  - by rewrite length_alter.
  - destruct r; subst; [by rewrite length_alter|done].
Qed.

Lemma unlink_name_of h par t h' x :
  unlink h par t = Some h' → name_of h' x = name_of h x.
Proof.
  intros H. destruct (unlink_cases _ _ _ _ H) as (p & tn & _ & _ & [[_ ->]|[_ (r & _ & Hr)]]).
  - by rewrite name_of_alter.
  - destruct r; subst; [by rewrite name_of_alter|done].
Qed.

Lemma unlink_parent_of h par t h' x :
  unlink h par t = Some h' → parent_of h' x = parent_of h x.
Proof.
  intros H. destruct (unlink_cases _ _ _ _ H) as (p & tn & _ & _ & [[_ ->]|[_ (r & _ & Hr)]]).
  - by rewrite parent_of_alter.
  - destruct r; subst; [by rewrite parent_of_alter|done].
Qed.

Lemma unlink_names h par t h' (l : list ref) :
  unlink h par t = Some h' → name_of h' <$> l = name_of h <$> l.
Proof.
  intros H. apply list_fmap_ext. intros i x _.
  by apply (unlink_name_of _ _ _ _ _ H).
Qed.

Lemma unlink_kids_par h par t h' l :
  unlink h par t = Some h' → kids h par l → kids h' par (without t l).
Proof.
  intros H (p & Hp & Hl).
  destruct (unlink_cases _ _ _ _ H) as (p' & tn & Hp' & Ht & Hcases).
  rewrite Hp in Hp'. injection Hp' as <-.
  pose proof (chain_NoDup _ _ _ Hl) as Hnd.
  destruct Hcases as [[Hc ->]|[Hc (r & Hr & Hh')]].
  - exists (set_child (next tn) p). split.
    + by rewrite list_lookup_alter_eq, Hp.
    + destruct l as [|c l]; cbn in Hl; [congruence|].
      destruct Hl as [Hc' (cn & Hcn & Hl)].
      rewrite Hc in Hc'. injection Hc' as <-.
      rewrite Ht in Hcn. injection Hcn as <-.
      pose proof (without_split t [] l Hnd) as Hw. cbn [app] in Hw.
      rewrite Hw. by apply chain_alter_next.
  - rewrite (find_prev_chain _ _ _ _ _ Hl (chain_length _ _ _ Hl)) in Hr.
    injection Hr as <-. destruct (pred_in l t) as [c|] eqn:Hpred.
    + subst h'. apply pred_in_Some in Hpred as (l1 & l2 & ->).
      assert (Hw : without t (l1 ++ c :: t :: l2) = l1 ++ c :: l2).
      { replace (l1 ++ c :: t :: l2) with ((l1 ++ [c]) ++ t :: l2) in *
          by (by rewrite <- app_assoc).
        rewrite (without_split t (l1 ++ [c]) l2 Hnd). by rewrite <- app_assoc. }
      rewrite Hw.
      destruct (decide (par = c)) as [->|Hne].
      * exists (set_next (next tn) p). split.
        -- by rewrite list_lookup_alter_eq, Hp.
        -- cbn. by eapply chain_splice.
      * exists p. split.
        -- by rewrite list_lookup_alter_ne.
        -- by eapply chain_splice.
    + subst h'. exists p. split; [done|].
      rewrite without_notin; [done|].
      destruct l as [|x l]; [apply not_elem_of_nil|].
      apply not_elem_of_cons. split.
      * intros <-. cbn in Hl. destruct Hl as [Hx _]. congruence.
      * by eapply pred_in_None.
Qed.

Lemma unlink_kids_other h par t h' lpar q lq :
  chains_ok h → unlink h par t = Some h' → kids h par lpar →
  q ≠ par → kids h q lq → kids h' q lq.
Proof.
  intros Hok H Hpar Hne Hq.
  destruct (unlink_cases _ _ _ _ H) as (p & tn & Hp & Ht & Hcases).
  destruct Hq as (n & Hn & Hl).
  destruct Hcases as [[Hc ->]|[Hc (r & Hr & Hh')]].
  - exists n. split; [by rewrite list_lookup_alter_ne|].
    by apply chain_alter_next.
  - destruct Hpar as (p' & Hp' & Hlp). rewrite Hp in Hp'. injection Hp' as <-.
    rewrite (find_prev_chain _ _ _ _ _ Hlp (chain_length _ _ _ Hlp)) in Hr.
    injection Hr as <-. destruct (pred_in lpar t) as [c|] eqn:Hpred.
    + subst h'. apply pred_in_Some in Hpred as (l1 & l2 & ->).
      assert (Hcq : c ∉ lq).
      { intros Hin. apply Hne.
        apply (chains_ok_disjoint h q par lq (l1 ++ c :: t :: l2) c Hok);
          [by exists n|by exists p|done|].
        apply elem_of_app. right. by left. }
      destruct (decide (q = c)) as [->|Hqc].
      * exists (set_next (next tn) n). split.
        -- by rewrite list_lookup_alter_eq, Hn.
        -- cbn. by apply chain_alter_other.
      * exists n. split; [by rewrite list_lookup_alter_ne|].
        by apply chain_alter_other.
    + subst h'. by exists n.
Qed.

Lemma unlink_unchained h par t h' tn :
  chains_ok h → unlink h par t = Some h' →
  h !! t = Some tn → parent tn = Some par → unchained h' t.
Proof.
  intros Hok H Ht Hpar q l' Hq Hin.
  destruct (unlink_cases _ _ _ _ H) as (p & _ & Hp & _ & _).
  destruct (Hok par p Hp) as (lpar & Hlpar & _).
  assert (Hkpar : kids h par lpar) by (by exists p).
  assert (Hqlt : q < length h).
  { rewrite <- (unlink_length _ _ _ _ H). destruct Hq as (n & Hn & _).
    by eapply lookup_lt_Some. }
  destruct (lookup_lt_is_Some_2 h q Hqlt) as [n Hn].
  destruct (Hok q n Hn) as (lq & Hlq & Hparents & _).
  destruct (decide (q = par)) as [->|Hne].
  - pose proof (unlink_kids_par _ _ _ _ _ H Hkpar) as Hk.
    rewrite (kids_det _ _ _ _ Hq Hk) in Hin.
    apply elem_of_without in Hin as [? _]. done.
  - assert (Hk : kids h' q lq).
    { eapply unlink_kids_other; eauto. by exists n. }
    rewrite (kids_det _ _ _ _ Hq Hk) in Hin.
    apply Hparents in Hin. unfold parent_of in Hin. rewrite Ht in Hin.
    cbn in Hin. congruence.
Qed.

Lemma unlink_chains_ok h par t h' :
  chains_ok h → unlink h par t = Some h' → chains_ok h'.
Proof.
  intros Hok H q n' Hn'.
  destruct (unlink_cases _ _ _ _ H) as (p & _ & Hp & _ & _).
  destruct (Hok par p Hp) as (lpar & Hlpar & _).
  assert (Hkpar : kids h par lpar) by (by exists p).
  assert (Hqlt : q < length h).
  { rewrite <- (unlink_length _ _ _ _ H). by eapply lookup_lt_Some. }
  destruct (lookup_lt_is_Some_2 h q Hqlt) as [n Hn].
  destruct (Hok q n Hn) as (lq & Hlq & Hparents & Hnames).
  assert (Hkq : kids h q lq) by (by exists n).
  destruct (decide (q = par)) as [->|Hne].
  - destruct (unlink_kids_par _ _ _ _ _ H Hkq) as (n'' & Hn'' & Hl').
    rewrite Hn' in Hn''. injection Hn'' as <-.
    exists (without t lq). split; [done|]. split.
    + intros c [_ Hc]%elem_of_without.
      rewrite (unlink_parent_of _ _ _ _ _ H). by apply Hparents.
    + rewrite (unlink_names _ _ _ _ _ H).
      eapply sublist_NoDup; [exact Hnames|].
      apply fmap_sublist, without_sublist.
  - destruct (unlink_kids_other _ _ _ _ _ _ _ Hok H Hkpar Hne Hkq) as (n'' & Hn'' & Hl').
    rewrite Hn' in Hn''. injection Hn'' as <-.
    exists lq. split; [done|]. split.
    + intros c Hc. rewrite (unlink_parent_of _ _ _ _ _ H). by apply Hparents.
    + by rewrite (unlink_names _ _ _ _ _ H).
Qed.

(** *** [relink] *)

Lemma relink_lookup h src dst nm h' sn dn x :
  relink h src dst nm = Some h' → h !! src = Some sn → h !! dst = Some dn →
  h' !! x =
    if decide (x = dst) then
      if decide (x = src) then
        Some (set_child (Some src)
                (set_next (child dn) (rename_to nm (set_parent (Some dst) sn))))
      else Some (set_child (Some src) dn)
    else if decide (x = src) then
      Some (set_next (child dn) (rename_to nm (set_parent (Some dst) sn)))
    else h !! x.
Proof.
  unfold relink. intros H Hs Hd.
  set (h1 := alter (set_parent (Some dst)) src h) in H.
  assert (H2 : match nm with
               | Some n => alter (set_name n) src h1
               | None => h1
               end = alter (rename_to nm) src h1).
  { destruct nm; [done|]. symmetry. by apply list_alter_id. }
  rewrite H2 in H. clear H2.
  apply bind_Some in H as (d & Hd2 & [= <-]).
  assert (Hcd : child d = child dn).
  { subst h1. destruct (decide (src = dst)) as [->|Hne].
    - rewrite !list_lookup_alter_eq, Hs in Hd2. rewrite Hd in Hs.
      injection Hs as <-. cbn in Hd2. injection Hd2 as <-. by destruct nm.
    - rewrite !list_lookup_alter_ne, Hd in Hd2 by done. by injection Hd2 as <-. }
  rewrite Hcd. subst h1.
  destruct (decide (x = dst)) as [->|Hxd].
  - rewrite list_lookup_alter_eq.
    destruct (decide (dst = src)) as [->|Hds].
    + by rewrite !list_lookup_alter_eq, Hs.
    + by rewrite !list_lookup_alter_ne, Hd by done.
  - rewrite list_lookup_alter_ne by done.
    destruct (decide (x = src)) as [->|Hxs].
    + by rewrite !list_lookup_alter_eq, Hs.
    + by rewrite !list_lookup_alter_ne by done.
Qed.

Lemma relink_length h src dst nm h' :
  relink h src dst nm = Some h' → length h' = length h.
Proof.
  unfold relink. intros H. apply bind_Some in H as (d & _ & [= <-]).
  destruct nm; by rewrite !length_alter.
Qed.

Lemma relink_dst h src dst nm h' :
  relink h src dst nm = Some h' → is_Some (h !! dst).
Proof.
  unfold relink. intros H. apply bind_Some in H as (d & Hd & _).
  apply lookup_lt_Some in Hd. apply lookup_lt_is_Some_2.
  destruct nm; by rewrite ?length_alter in Hd.
Qed.

(** The chain of another cell survives, read in the new store. *)
Lemma relink_chain h src dst nm h' sn dn o l :
  relink h src dst nm = Some h' → h !! src = Some sn → h !! dst = Some dn →
  src ∉ l → chain h o l → chain h' o l.
Proof.
  intros H Hs Hd Hsl Hl. eapply chain_frame; [done|].
  intros c n Hc Hn. rewrite (relink_lookup _ _ _ _ _ _ _ c H Hs Hd).
  destruct (decide (c = dst)) as [->|Hcd].
  - rewrite decide_False by (by intros ->).
    rewrite Hd in Hn. injection Hn as <-. by eexists.
  - rewrite decide_False by (by intros ->). by eexists.
Qed.

Lemma relink_kids_dst h src dst nm h' l :
  relink h src dst nm = Some h' → src < length h → unchained h src →
  kids h dst l → kids h' dst (src :: l).
Proof.
  intros H Hsrc Hun (dn & Hd & Hl).
  destruct (lookup_lt_is_Some_2 h src Hsrc) as [sn Hs].
  assert (Hsl : src ∉ l) by (apply (Hun dst); by exists dn).
  pose proof (relink_chain _ _ _ _ _ _ _ _ _ H Hs Hd Hsl Hl) as Hl'.
  pose proof (relink_lookup _ _ _ _ _ _ _ dst H Hs Hd) as Hdst.
  pose proof (relink_lookup _ _ _ _ _ _ _ src H Hs Hd) as Hsrc'.
  destruct (decide (dst = src)) as [->|Hds].
  - rewrite !decide_True in Hdst by done.
    eexists. split; [exact Hdst|]. cbn. split; [done|].
    eexists. split; [exact Hdst|]. done.
  - rewrite decide_True in Hdst by done.
    rewrite decide_False, decide_True in Hsrc' by done.
    eexists. split; [exact Hdst|]. cbn. split; [done|].
    eexists. split; [exact Hsrc'|]. done.
Qed.

Lemma relink_kids_other h src dst nm h' q lq :
  relink h src dst nm = Some h' → src < length h → unchained h src →
  q ≠ dst → kids h q lq → kids h' q lq.
Proof.
  intros H Hsrc Hun Hne (n & Hn & Hl).
  destruct (lookup_lt_is_Some_2 h src Hsrc) as [sn Hs].
  destruct (relink_dst _ _ _ _ _ H) as [dn Hd].
  assert (Hsl : src ∉ lq) by (apply (Hun q); by exists n).
  pose proof (relink_chain _ _ _ _ _ _ _ _ _ H Hs Hd Hsl Hl) as Hl'.
  pose proof (relink_lookup _ _ _ _ _ _ _ q H Hs Hd) as Hq.
  rewrite decide_False in Hq by done.
  destruct (decide (q = src)) as [->|Hqs].
  - eexists. split; [exact Hq|]. cbn. rewrite Hs in Hn. injection Hn as <-.
    by destruct nm.
  - exists n. split; [by rewrite Hq|done].
Qed.

Lemma relink_parent_of h src dst nm h' x :
  relink h src dst nm = Some h' → src < length h →
  parent_of h' x = if decide (x = src) then Some dst else parent_of h x.
Proof.
  intros H Hsrc. destruct (lookup_lt_is_Some_2 h src Hsrc) as [sn Hs].
  destruct (relink_dst _ _ _ _ _ H) as [dn Hd].
  unfold parent_of. rewrite (relink_lookup _ _ _ _ _ _ _ x H Hs Hd).
  destruct (decide (x = dst)) as [Hxd|Hxd]; destruct (decide (x = src)) as [Hxs|Hxs];
    subst; cbn; try done.
  - by destruct nm.
  - by rewrite Hd.
  - by destruct nm.
Qed.

Lemma relink_name_of h src dst nm h' x :
  relink h src dst nm = Some h' → src < length h →
  name_of h' x =
    if decide (x = src) then
      match nm with Some n => Some n | None => name_of h src end
    else name_of h x.
Proof.
  intros H Hsrc. destruct (lookup_lt_is_Some_2 h src Hsrc) as [sn Hs].
  destruct (relink_dst _ _ _ _ _ H) as [dn Hd].
  unfold name_of. rewrite (relink_lookup _ _ _ _ _ _ _ x H Hs Hd).
  destruct (decide (x = dst)) as [Hxd|Hxd]; destruct (decide (x = src)) as [Hxs|Hxs];
    subst; cbn; try done.
  - rewrite Hs. by destruct nm.
  - by rewrite Hd.
  - rewrite Hs. by destruct nm.
Qed.

Lemma relink_names h src dst nm h' (l : list ref) :
  relink h src dst nm = Some h' → src < length h → src ∉ l →
  name_of h' <$> l = name_of h <$> l.
Proof.
  intros H Hsrc Hl. apply list_fmap_ext. intros i x Hx.
  rewrite (relink_name_of _ _ _ _ _ x H Hsrc).
  rewrite decide_False; [done|]. intros ->. apply Hl.
  by eapply list_elem_of_lookup_2.
Qed.

Lemma relink_chains_ok h src dst nm h' new_name :
  chains_ok h → relink h src dst nm = Some h' →
  src < length h → unchained h src →
  match nm with Some n => Some n | None => name_of h src end = Some new_name →
  (∀ l, kids h dst l → first_named h new_name l = None) →
  chains_ok h'.
Proof.
  intros Hok H Hsrc Hun Hnew Hfresh q n' Hn'.
  assert (Hqlt : q < length h).
  { rewrite <- (relink_length _ _ _ _ _ H). by eapply lookup_lt_Some. }
  destruct (lookup_lt_is_Some_2 h q Hqlt) as [n Hn].
  destruct (Hok q n Hn) as (lq & Hlq & Hparents & Hnames).
  assert (Hkq : kids h q lq) by (by exists n).
  assert (Hsl : src ∉ lq) by (by apply (Hun q)).
  destruct (decide (q = dst)) as [->|Hne].
  - destruct (relink_kids_dst _ _ _ _ _ _ H Hsrc Hun Hkq) as (n'' & Hn'' & Hl').
    rewrite Hn' in Hn''. injection Hn'' as <-.
    exists (src :: lq). split; [done|]. split.
    + intros c Hc. rewrite (relink_parent_of _ _ _ _ _ c H Hsrc).
      destruct (decide (c = src)) as [->|Hcs]; [done|].
      apply elem_of_cons in Hc as [->|Hc]; [done|]. by apply Hparents.
    + cbn. rewrite (relink_names _ _ _ _ _ _ H Hsrc Hsl).
      apply NoDup_cons. split; [|done].
      rewrite (relink_name_of _ _ _ _ _ src H Hsrc), decide_True by done.
      rewrite Hnew. apply first_named_None_names. by apply Hfresh.
  - destruct (relink_kids_other _ _ _ _ _ _ _ H Hsrc Hun Hne Hkq) as (n'' & Hn'' & Hl').
    rewrite Hn' in Hn''. injection Hn'' as <-.
    exists lq. split; [done|]. split.
    + intros c Hc. rewrite (relink_parent_of _ _ _ _ _ c H Hsrc).
      rewrite decide_False by (by intros ->). by apply Hparents.
    + by rewrite (relink_names _ _ _ _ _ _ H Hsrc Hsl).
Qed.

(** ** Well-formedness under single updates *)

Lemma NoDup_fmap_inj_on {A B} (f : A → B) (l : list A) x y :
  NoDup (f <$> l) → x ∈ l → y ∈ l → f x = f y → x = y.
Proof.
  induction l as [|a l IH]; cbn; [by intros _ ?%elem_of_nil|].
  intros [Ha Hnd]%NoDup_cons [->|Hx]%elem_of_cons [->|Hy]%elem_of_cons Heq.
  - done.
  - destruct Ha. rewrite Heq. apply list_elem_of_fmap. by exists y.
  - destruct Ha. rewrite <- Heq. apply list_elem_of_fmap. by exists x.
  - by apply IH.
Qed.

Lemma valid_ref_mono size size' o :
  valid_ref size o → size ≤ size' → valid_ref size' o.
Proof. intros H Hle r Hr. apply H in Hr. lia. Qed.

Lemma node_valid_mono size size' k k' n :
  node_valid size k n → size ≤ size' → k ≤ k' → node_valid size' k' n.
Proof.
  intros (? & ? & ? & ?) ??. split_and!; by eapply valid_ref_mono.
Qed.

Lemma valid_ref_None size : valid_ref size None.
Proof. by intros r. Qed.

Lemma valid_ref_Some size r : r < size → valid_ref size (Some r).
Proof. by intros H r' [= <-]. Qed.

Lemma root_ok_alter h r f x :
  root_ok h r →
  x ≠ 0 ∨ (∀ n, name (f n) = name n ∧ is_file (f n) = is_file n
                ∧ parent (f n) = parent n) →
  root_ok (alter f x h) r.
Proof.
  intros [-> (n & Hn & Hnm & Hf & Hp)] Hx. split; [done|].
  destruct (decide (x = 0)) as [->|Hne].
  - destruct Hx as [?|Hx]; [done|]. destruct (Hx n) as (? & ? & ?).
    exists (f n). rewrite list_lookup_alter_eq, Hn. split_and!; [done|congruence..].
  - exists n. by rewrite list_lookup_alter_ne.
Qed.

Lemma root_ok_alloc h r k : root_ok h r → root_ok (h ++ k) r.
Proof.
  intros [-> (n & Hn & ?)]. split; [done|]. exists n.
  split; [by apply lookup_app_l_Some|done].
Qed.

(** A node that has a parent is not the root. *)
Lemma root_ok_ne h r t tn p :
  root_ok h r → h !! t = Some tn → parent tn = Some p → t ≠ 0.
Proof. intros [_ (n & Hn & _ & _ & Hp)] Ht Hpar ->. congruence. Qed.

Lemma current_ok_alter h c f x :
  current_ok h c → (∀ n, is_file (f n) = is_file n) →
  current_ok (alter f x h) c.
Proof.
  intros (n & Hn & Hf) Hkeep. destruct (decide (x = c)) as [->|Hne].
  - exists (f n). rewrite list_lookup_alter_eq, Hn. split; [done|]. by rewrite Hkeep.
  - exists n. by rewrite list_lookup_alter_ne.
Qed.

Lemma current_ok_alloc h c k : current_ok h c → current_ok (h ++ k) c.
Proof.
  intros (n & Hn & ?). exists n. split; [by apply lookup_app_l_Some|done].
Qed.

Lemma kinds_ok_alter h f x :
  kinds_ok h →
  (∀ n, h !! x = Some n →
        if is_file (f n) then is_Some (content (f n)) else content (f n) = None) →
  kinds_ok (alter f x h).
Proof.
  intros Hok Hkeep r n' Hn'. destruct (decide (x = r)) as [->|Hne].
  - rewrite list_lookup_alter_eq in Hn'. destruct (h !! r) as [n|] eqn:Hn; [|done].
    injection Hn' as <-. by apply Hkeep.
  - rewrite list_lookup_alter_ne in Hn' by done. by eapply Hok.
Qed.

Lemma kinds_ok_alloc h m :
  kinds_ok h →
  (if is_file m then is_Some (content m) else content m = None) →
  kinds_ok (h ++ [m]).
Proof.
  intros Hok Hm r n Hn. apply lookup_app_Some in Hn as [Hn|[_ Hn]].
  - by eapply Hok.
  - apply list_lookup_singleton_Some in Hn as [_ <-]. done.
Qed.

Lemma refs_valid_alter h k f x :
  refs_valid h k →
  (∀ n, h !! x = Some n → node_valid (length h) k (f n)) →
  refs_valid (alter f x h) k.
Proof.
  intros Hok Hf r n' Hn'. rewrite length_alter.
  destruct (decide (x = r)) as [->|Hne].
  - rewrite list_lookup_alter_eq in Hn'. destruct (h !! r) as [n|] eqn:Hn; [|done].
    injection Hn' as <-. by apply Hf.
  - rewrite list_lookup_alter_ne in Hn' by done. by eapply Hok.
Qed.

Lemma refs_valid_alloc h k m :
  refs_valid h k → node_valid (S (length h)) k m → refs_valid (h ++ [m]) k.
Proof.
  intros Hok Hm r n Hn. rewrite length_app. cbn.
  replace (length h + 1) with (S (length h)) by lia.
  apply lookup_app_Some in Hn as [Hn|[_ Hn]].
  - eapply node_valid_mono; [by eapply Hok|lia|done].
  - apply list_lookup_singleton_Some in Hn as [_ <-]. done.
Qed.

Lemma refs_valid_more_lists h k k' :
  refs_valid h k → k ≤ k' → refs_valid h k'.
Proof.
  intros Hok Hle r n Hn. eapply node_valid_mono; [by eapply Hok|done..].
Qed.

Lemma refs_valid_node h k r n :
  refs_valid h k → h !! r = Some n → node_valid (length h) k n.
Proof. intros Hok. apply Hok. Qed.

(** The setters keep a node valid when the new pointer is. *)
Lemma node_valid_set_child size k n v :
  node_valid size k n → valid_ref size v → node_valid size k (set_child v n).
Proof. intros (? & ? & ? & ?) ?. by split_and!. Qed.

Lemma node_valid_set_next size k n v :
  node_valid size k n → valid_ref size v → node_valid size k (set_next v n).
Proof. intros (? & ? & ? & ?) ?. by split_and!. Qed.

Lemma node_valid_set_parent size k n v :
  node_valid size k n → valid_ref size v → node_valid size k (set_parent v n).
Proof. intros (? & ? & ? & ?) ?. by split_and!. Qed.

Lemma node_valid_set_name size k n v :
  node_valid size k n → node_valid size k (set_name v n).
Proof. intros (? & ? & ? & ?). by split_and!. Qed.

Lemma node_valid_set_content size k n v :
  node_valid size k n → valid_ref k v → node_valid size k (set_content v n).
Proof. intros (? & ? & ? & ?) ?. by split_and!. Qed.

(** *** Allocation and chains *)

Lemma kids_alloc h k p l : kids h p l → kids (h ++ k) p l.
Proof.
  intros (n & Hn & Hl). exists n.
  split; [by apply lookup_app_l_Some|by apply chain_alloc].
Qed.

Lemma chains_ok_alloc h m :
  chains_ok h → child m = None → chains_ok (h ++ [m]).
Proof.
  intros Hok Hm p n Hn. apply lookup_app_Some in Hn as [Hn|[_ Hn]].
  - destruct (Hok p n Hn) as (l & Hl & Hparents & Hnames).
    exists l. split; [by apply chain_alloc|]. split.
    + intros c Hc. rewrite parent_of_alloc; [by apply Hparents|].
      eapply kids_valid; [|done]. by exists n.
    + erewrite list_fmap_ext; [exact Hnames|]. intros i c Hc. cbn.
      apply name_of_alloc. eapply kids_valid; [by exists n|].
      by eapply list_elem_of_lookup_2.
  - apply list_lookup_singleton_Some in Hn as [_ <-].
    exists []. rewrite Hm. split; [done|]. split.
    + by intros c ?%elem_of_nil.
    + apply NoDup_nil_2.
Qed.

Lemma unchained_alloc h m :
  chains_ok h → child m = None → unchained (h ++ [m]) (length h).
Proof.
  intros Hok Hm p l (n & Hn & Hl) Hin.
  apply lookup_app_Some in Hn as [Hn|[_ Hn]].
  - destruct (Hok p n Hn) as (l0 & Hl0 & _).
    pose proof (chain_alloc _ _ _ [m] Hl0) as Hl0'.
    rewrite (chain_det _ _ _ _ Hl Hl0') in Hin.
    destruct (chain_lookup _ _ _ _ Hl0 Hin) as [x Hx].
    apply lookup_lt_Some in Hx. lia.
  - apply list_lookup_singleton_Some in Hn as [_ <-].
    rewrite Hm in Hl. destruct l; [by apply elem_of_nil in Hin|].
    cbn in Hl. by destruct Hl.
Qed.

(** A chain of the store after an update comes from the chain that the
    same node had before, whenever that one carries over. *)
Lemma first_named_ext h h' nm l :
  (∀ c, c ∈ l → name_of h' c = name_of h c) →
  first_named h' nm l = first_named h nm l.
Proof.
  induction l as [|c l IH]; intros Hl; cbn; [done|].
  rewrite Hl by (by left). rewrite IH; [done|].
  intros x Hx. apply Hl. by right.
Qed.

Lemma find_child_None_kids h p nm l :
  find_child h p nm = Some None → kids h p l → first_named h nm l = None.
Proof.
  intros Hf Hk. apply kids_children in Hk.
  rewrite (find_child_children _ _ _ _ Hk) in Hf. by injection Hf.
Qed.

(** *** Renaming *)

Lemma rename_chains_ok h t new :
  chains_ok h →
  (∀ p l, kids h p l → t ∈ l → first_named h new l = None) →
  chains_ok (alter (set_name new) t h).
Proof.
  intros Hok Hfresh p n' Hn'.
  assert (Hp : ∃ n, h !! p = Some n ∧ child n' = child n).
  { destruct (decide (t = p)) as [->|Hne].
    - rewrite list_lookup_alter_eq in Hn'. destruct (h !! p) as [n|]; [|done].
      injection Hn' as <-. by exists n.
    - rewrite list_lookup_alter_ne in Hn' by done. by exists n'. }
  destruct Hp as (n & Hn & Hc). rewrite Hc.
  destruct (Hok p n Hn) as (l & Hl & Hparents & Hnames).
  exists l. split; [by apply chain_alter_next|]. split.
  - intros c Hc'. rewrite parent_of_alter by done. by apply Hparents.
  - destruct (decide (t ∈ l)) as [Hin|Hnin].
    + apply NoDup_fmap_2_strong; [|by eapply NoDup_fmap_1].
      assert (Hnone := Hfresh p l (ex_intro _ n (conj Hn Hl)) Hin).
      rewrite first_named_None in Hnone.
      assert (Ht : ∀ x, x ∈ l → x ≠ t →
                name_of (alter (set_name new) t h) t ≠ name_of h x).
      { intros x Hx Hxt Heq. apply (Hnone x Hx). rewrite <- Heq.
        unfold name_of. rewrite list_lookup_alter_eq.
        destruct (chain_lookup _ _ _ _ Hl Hin) as [tn ->]. done. }
      intros x y Hx Hy Heq.
      destruct (decide (x = t)) as [->|Hxt]; destruct (decide (y = t)) as [->|Hyt];
        try done.
      * rewrite (name_of_alter _ _ t y) in Heq by done. by destruct (Ht y).
      * rewrite (name_of_alter _ _ t x) in Heq by done. by destruct (Ht x).
      * rewrite !name_of_alter in Heq by done.
        by eapply (NoDup_fmap_inj_on (name_of h)).
    + by rewrite names_alter.
Qed.

(** *** The store invariants that do not mention chains *)

Lemma wf_basics fs :
  wf fs ↔ basics_ok (nodes fs) (length (lists fs)) (root fs) (current fs)
          ∧ chains_ok (nodes fs).
Proof.
  split.
  - intros [? ? ? ? ?]. unfold basics_ok. by split_and!.
  - intros [(? & ? & ? & ?) ?]. by constructor.
Qed.

Lemma kinds_keep h x (f : FileSystemNode → FileSystemNode) :
  kinds_ok h →
  (∀ n, is_file (f n) = is_file n ∧ content (f n) = content n) →
  ∀ n, h !! x = Some n →
       if is_file (f n) then is_Some (content (f n)) else content (f n) = None.
Proof.
  intros Hok Hf n Hn. destruct (Hf n) as [-> ->]. by eapply Hok.
Qed.

Lemma basics_set_child h k r c x v :
  basics_ok h k r c → valid_ref (length h) v →
  basics_ok (alter (set_child v) x h) k r c.
Proof.
  intros (Hr & Hc & Hv & Hk) Hval. split_and!.
  - apply root_ok_alter; [done|]. by right.
  - by apply current_ok_alter.
  - apply refs_valid_alter; [done|]. intros n Hn.
    apply node_valid_set_child; [by eapply Hv|done].
  - apply kinds_ok_alter; [done|]. by apply kinds_keep.
Qed.

Lemma basics_set_next h k r c x v :
  basics_ok h k r c → valid_ref (length h) v →
  basics_ok (alter (set_next v) x h) k r c.
Proof.
  intros (Hr & Hc & Hv & Hk) Hval. split_and!.
  - apply root_ok_alter; [done|]. by right.
  - by apply current_ok_alter.
  - apply refs_valid_alter; [done|]. intros n Hn.
    apply node_valid_set_next; [by eapply Hv|done].
  - apply kinds_ok_alter; [done|]. by apply kinds_keep.
Qed.

Lemma basics_set_parent h k r c x v :
  basics_ok h k r c → x ≠ 0 → valid_ref (length h) v →
  basics_ok (alter (set_parent v) x h) k r c.
Proof.
  intros (Hr & Hc & Hv & Hk) Hx Hval. split_and!.
  - apply root_ok_alter; [done|]. by left.
  - by apply current_ok_alter.
  - apply refs_valid_alter; [done|]. intros n Hn.
    apply node_valid_set_parent; [by eapply Hv|done].
  - apply kinds_ok_alter; [done|]. by apply kinds_keep.
Qed.

Lemma basics_set_name h k r c x v :
  basics_ok h k r c → x ≠ 0 →
  basics_ok (alter (set_name v) x h) k r c.
Proof.
  intros (Hr & Hc & Hv & Hk) Hx. split_and!.
  - apply root_ok_alter; [done|]. by left.
  - by apply current_ok_alter.
  - apply refs_valid_alter; [done|]. intros n Hn.
    apply node_valid_set_name. by eapply Hv.
  - apply kinds_ok_alter; [done|]. by apply kinds_keep.
Qed.

Lemma basics_rename_to h k r c x nm :
  basics_ok h k r c → x ≠ 0 →
  basics_ok (alter (rename_to nm) x h) k r c.
Proof.
  intros H Hx. destruct nm as [v|]; cbn.
  - by apply basics_set_name.
  - by rewrite list_alter_id.
Qed.

(** Giving a file a new line list. *)
Lemma basics_set_content h k r c x v :
  basics_ok h k r c → v < k →
  (∀ n, h !! x = Some n → is_file n = true) →
  basics_ok (alter (set_content (Some v)) x h) k r c.
Proof.
  intros (Hr & Hc & Hv & Hk) Hval Hfile. split_and!.
  - apply root_ok_alter; [done|]. by right.
  - by apply current_ok_alter.
  - apply refs_valid_alter; [done|]. intros n Hn.
    apply node_valid_set_content; [by eapply Hv|by apply valid_ref_Some].
  - apply kinds_ok_alter; [done|]. intros n Hn. cbn.
    rewrite (Hfile n Hn). by eexists.
Qed.

Lemma basics_more_lists h k k' r c :
  basics_ok h k r c → k ≤ k' → basics_ok h k' r c.
Proof.
  intros (Hr & Hc & Hv & Hk) Hle. split_and!; [done..| |done].
  by eapply refs_valid_more_lists.
Qed.

Lemma basics_alloc h k r c m :
  basics_ok h k r c → node_valid (S (length h)) k m →
  (if is_file m then is_Some (content m) else content m = None) →
  basics_ok (h ++ [m]) k r c.
Proof.
  intros (Hr & Hc & Hv & Hk) Hval Hkind. split_and!.
  - by apply root_ok_alloc.
  - by apply current_ok_alloc.
  - by apply refs_valid_alloc.
  - by apply kinds_ok_alloc.
Qed.

Lemma basics_current h k r c c' n :
  basics_ok h k r c → h !! c' = Some n → is_file n = false →
  basics_ok h k r c'.
Proof. intros (Hr & Hc & Hv & Hk) Hn Hf. split_and!; [done| |done..]. by exists n. Qed.

Lemma basics_add_child h k r c self x h' :
  basics_ok h k r c → add_child h self x = Some h' → x < length h →
  basics_ok h' k r c.
Proof.
  intros Hb Hadd Hx. unfold add_child in Hadd.
  apply bind_Some in Hadd as (s & Hs & [= <-]).
  apply basics_set_child; [|rewrite length_alter; by apply valid_ref_Some].
  apply basics_set_next; [done|].
  destruct Hb as (_ & _ & Hv & _). by destruct (Hv self s Hs) as (_ & ? & _).
Qed.

Lemma basics_unlink h k r c par t h' :
  basics_ok h k r c → unlink h par t = Some h' → basics_ok h' k r c.
Proof.
  intros Hb H.
  destruct (unlink_cases _ _ _ _ H) as (p & tn & Hp & Ht & Hcases).
  assert (Hnext : valid_ref (length h) (next tn)).
  { destruct Hb as (_ & _ & Hv & _). by destruct (Hv t tn Ht) as (_ & _ & ? & _). }
  destruct Hcases as [[_ ->]|[_ (o & _ & Ho)]].
  - by apply basics_set_child.
  - destruct o; subst; [|done]. by apply basics_set_next.
Qed.

Lemma basics_relink h k r c src dst nm h' :
  basics_ok h k r c → relink h src dst nm = Some h' → src ≠ 0 →
  src < length h → basics_ok h' k r c.
Proof.
  intros Hb H Hne Hsrc. destruct (relink_dst _ _ _ _ _ H) as [dn Hdn].
  unfold relink in H.
  set (h1 := alter (set_parent (Some dst)) src h) in H.
  assert (H2 : match nm with
               | Some n => alter (set_name n) src h1
               | None => h1
               end = alter (rename_to nm) src h1).
  { destruct nm; [done|]. symmetry. by apply list_alter_id. }
  rewrite H2 in H. clear H2.
  apply bind_Some in H as (d & Hd & [= <-]).
  assert (Hb1 : basics_ok h1 k r c).
  { apply basics_set_parent; [done..|]. apply valid_ref_Some.
    by eapply lookup_lt_Some. }
  assert (Hb2 : basics_ok (alter (rename_to nm) src h1) k r c)
    by (by apply basics_rename_to).
  apply basics_set_child;
    [|subst h1; rewrite !length_alter; by apply valid_ref_Some].
  apply basics_set_next; [done|].
  destruct Hb2 as (_ & _ & Hv & _). by destruct (Hv dst d Hd) as (_ & Hc & _).
Qed.

(** ** Commands keep the store well formed *)

Lemma new_node_spec fs nm file par fs1 new :
  new_node fs nm file par = (fs1, new) →
  new = length (nodes fs) ∧ root fs1 = root fs ∧ current fs1 = current fs
  ∧ ∃ m, nodes fs1 = nodes fs ++ [m]
         ∧ name m = nm ∧ is_file m = file ∧ parent m = par
         ∧ child m = None ∧ next m = None
         ∧ if file then lists fs1 = lists fs ++ [[]]
                        ∧ content m = Some (length (lists fs))
           else lists fs1 = lists fs ∧ content m = None.
Proof.
  unfold new_node. destruct file; intros [= <- <-]; cbn;
    (split; [done|]); (split; [done|]); (split; [done|]);
    eexists; (split; [done|]); cbn; by split_and!.
Qed.

Lemma new_node_wf fs nm file par fs1 new :
  wf fs → valid_ref (length (nodes fs)) par →
  new_node fs nm file par = (fs1, new) →
  wf fs1 ∧ unchained (nodes fs1) new.
Proof.
  intros [Hb Hc]%wf_basics Hpar H.
  destruct (new_node_spec _ _ _ _ _ _ H)
    as (-> & Hroot & Hcur & m & Hnodes & Hnm & Hfile & Hparent & Hchild & Hnext & Hl).
  rewrite Hnodes. split; [|by apply unchained_alloc].
  apply wf_basics. rewrite Hroot, Hcur, Hnodes.
  split; [|by apply chains_ok_alloc].
  assert (Hlen : length (lists fs) ≤ length (lists fs1)).
  { destruct file; destruct Hl as [-> _]; [rewrite length_app; cbn; lia|done]. }
  apply basics_alloc.
  - by eapply basics_more_lists.
  - unfold node_valid. rewrite Hparent, Hchild, Hnext. split_and!.
    + eapply valid_ref_mono; [exact Hpar|lia].
    + apply valid_ref_None.
    + apply valid_ref_None.
    + destruct file; destruct Hl as [Hl ->]; [|apply valid_ref_None].
      apply valid_ref_Some. rewrite Hl, length_app. cbn. lia.
  - rewrite Hfile. destruct file; destruct Hl as [_ ->]; [by eexists|done].
Qed.

Lemma create_in_wf fs target nm file out res fs' :
  wf fs → target < length (nodes fs) →
  create_in fs target nm file out = Some (res, fs') → wf fs'.
Proof.
  intros Hwf Htarget H. unfold create_in in H.
  apply bind_Some in H as (dup & Hdup & H).
  destruct dup as [d|]; [by injection H as _ <-|].
  destruct (new_node fs nm file (Some target)) as [fs1 new] eqn:Hnew.
  apply bind_Some in H as (h & Hadd & [= _ <-]).
  destruct (new_node_wf _ _ _ _ _ _ Hwf (valid_ref_Some _ _ Htarget) Hnew)
    as [[Hb1 Hc1]%wf_basics Hun].
  destruct (new_node_spec _ _ _ _ _ _ Hnew)
    as (-> & Hroot & Hcur & m & Hnodes & Hnm & Hfile & Hparent & Hchild & Hnext & Hl).
  assert (Hm : nodes fs1 !! length (nodes fs) = Some m).
  { rewrite Hnodes. by apply list_lookup_middle. }
  apply wf_basics. cbn. split.
  - eapply basics_add_child; [done..|]. by eapply lookup_lt_Some.
  - eapply add_child_chains_ok; [done..|lia|done|done|].
    intros l Hk. rewrite Hnm.
    destruct Hwf as [_ _ _ _ Hc].
    destruct (lookup_lt_is_Some_2 _ _ Htarget) as [tn Htn].
    destruct (Hc target tn Htn) as (l0 & Hl0 & _).
    assert (Hk0 : kids (nodes fs) target l0) by (by exists tn).
    rewrite Hnodes in Hk.
    rewrite (kids_det _ _ _ _ Hk (kids_alloc _ [m] _ _ Hk0)).
    rewrite Hnodes, (first_named_ext (nodes fs) (nodes fs ++ [m])).
    + by eapply find_child_None_kids.
    + intros c Hin. apply name_of_alloc. by eapply kids_valid.
Qed.

(** A path that resolves, resolves to a node whose cell the command then
    reads: all that the commands need to know. *)
Lemma mkdir_command_wf fs args res fs' :
  wf fs → mkdir_command fs args = Some (res, fs') → wf fs'.
Proof.
  intros Hwf H. unfold mkdir_command in H.
  pose proof (wf_current _ Hwf) as (cn & Hcn & _).
  crunch; subst; try done.
  - eapply create_in_wf; [done| |done]. by eapply lookup_lt_Some.
  - eapply create_in_wf; [done| |done]. by eapply lookup_lt_Some.
Qed.

Lemma touch_command_wf fs args res fs' :
  wf fs → touch_command fs args = Some (res, fs') → wf fs'.
Proof.
  intros Hwf H. unfold touch_command, touch_tail in H.
  pose proof (wf_current _ Hwf) as (cn & Hcn & _).
  crunch; subst; try done.
  - eapply create_in_wf; [done| |done]. by eapply lookup_lt_Some.
  - eapply create_in_wf; [done| |done]. by eapply lookup_lt_Some.
Qed.

Lemma cd_command_wf fs args res fs' :
  wf fs → cd_command fs args = Some (res, fs') → wf fs'.
Proof.
  intros Hwf H. unfold cd_command in H.
  crunch; subst; try done.
  apply wf_basics in Hwf as [Hb Hc]. apply wf_basics. cbn. split; [|done].
  by eapply basics_current.
Qed.

Lemma rm_command_wf fs args res fs' :
  wf fs → rm_command fs args = Some (res, fs') → wf fs'.
Proof.
  intros Hwf H. unfold rm_command in H.
  crunch; subst; try done.
  apply wf_basics in Hwf as [Hb Hc]. apply wf_basics. cbn. split.
  - by eapply basics_unlink.
  - by eapply unlink_chains_ok.
Qed.

Lemma rename_command_wf fs args res fs' :
  wf fs → rename_command fs args = Some (res, fs') → wf fs'.
Proof.
  intros Hwf H. unfold rename_command in H.
  crunch; subst; try done.
  pose proof Hwf as [Hb Hc]%wf_basics. apply wf_basics. cbn. split.
  - apply basics_set_name; [done|]. destruct Hb as [Hr _].
    by eapply root_ok_ne.
  - apply rename_chains_ok; [done|]. intros p l Hk Hin.
    match goal with
    | Ht : nodes fs !! ?t = Some ?tn, Hp : parent ?tn = Some ?par |- _ =>
        assert (p = par) as ->
    end.
    { destruct Hk as (pn & Hpn & Hl).
      destruct (Hc p pn Hpn) as (l0 & Hl0 & Hparents & _).
      rewrite (chain_det _ _ _ _ Hl Hl0) in Hin. apply Hparents in Hin.
      unfold parent_of in Hin. by simplify_option_eq. }
    by eapply find_child_None_kids.
Qed.

Lemma unlink_first_named_None h par t h' d l0 l nm :
  chains_ok h → unlink h par t = Some h' →
  kids h d l0 → first_named h nm l0 = None →
  kids h' d l → first_named h' nm l = None.
Proof.
  intros Hok H Hk0 Hnone Hk.
  destruct (unlink_cases _ _ _ _ H) as (p & _ & Hp & _ & _).
  destruct (Hok par p Hp) as (lpar & Hlpar & _).
  assert (Hkpar : kids h par lpar) by (by exists p).
  assert (Hsub : ∀ c, c ∈ l → c ∈ l0).
  { destruct (decide (d = par)) as [->|Hne].
    - rewrite (kids_det _ _ _ _ Hk (unlink_kids_par _ _ _ _ _ H Hk0)).
      by intros c [_ ?]%elem_of_without.
    - by rewrite (kids_det _ _ _ _ Hk
                    (unlink_kids_other _ _ _ _ _ _ _ Hok H Hkpar Hne Hk0)). }
  rewrite first_named_None in Hnone. apply first_named_None.
  intros c Hc. rewrite (unlink_name_of _ _ _ _ _ H). by apply Hnone, Hsub.
Qed.

(** The two assignments of [mv] after its checks. *)
Lemma move_wf fs s sn par d dn nm new_name h1 h :
  wf fs → nodes fs !! s = Some sn → parent sn = Some par →
  nodes fs !! d = Some dn →
  match nm with Some n => n | None => name sn end = new_name →
  find_child (nodes fs) d new_name = Some None →
  unlink (nodes fs) par s = Some h1 → relink h1 s d nm = Some h →
  wf (with_nodes h fs).
Proof.
  intros [Hb Hc]%wf_basics Hs Hpar Hd Hnew Hfind Hun Hre.
  assert (Hlen : s < length h1).
  { rewrite (unlink_length _ _ _ _ Hun). by eapply lookup_lt_Some. }
  apply wf_basics. cbn. split.
  - eapply basics_relink; [by eapply basics_unlink|done| |done].
    destruct Hb as [Hr _]. by eapply root_ok_ne.
  - eapply (relink_chains_ok h1 s d nm h new_name);
      [by eapply unlink_chains_ok|done|done|by eapply unlink_unchained| |].
    + destruct nm as [n|]; [by subst|].
      rewrite (unlink_name_of _ _ _ _ _ Hun). unfold name_of. rewrite Hs.
      cbn. by subst.
    + intros l Hk. destruct (Hc d dn Hd) as (l0 & Hl0 & _).
      assert (Hk0 : kids (nodes fs) d l0) by (by exists dn).
      eapply unlink_first_named_None; [done..| |done].
      by eapply find_child_None_kids.
Qed.

Lemma mv_command_wf fs args res fs' :
  wf fs → mv_command fs args = Some (res, fs') → wf fs'.
Proof.
  intros Hwf H. unfold mv_command in H.
  crunch; subst; try done;
    match goal with
    | Hun : unlink _ ?par ?s = Some ?h1, Hre : relink ?h1 ?s ?d ?nm = Some ?h,
      Hs : nodes fs !! ?s = Some ?sn, Hd : nodes fs !! ?d = Some ?dn,
      Hp : parent ?sn = Some ?par, Hf : find_child _ ?d ?new = Some None |- _ =>
        exact (move_wf fs s sn par d dn nm new h1 h Hwf Hs Hp Hd eq_refl Hf Hun Hre)
    end.
Qed.

(** *** Editors *)

Lemma chains_ok_alter_keep h f x :
  (∀ n, next (f n) = next n ∧ child (f n) = child n
        ∧ parent (f n) = parent n ∧ name (f n) = name n) →
  chains_ok h → chains_ok (alter f x h).
Proof.
  intros Hf Hok p n' Hn'.
  assert (Hp : ∃ n, h !! p = Some n ∧ child n' = child n).
  { destruct (decide (x = p)) as [->|Hne].
    - rewrite list_lookup_alter_eq in Hn'. destruct (h !! p) as [n|]; [|done].
      injection Hn' as <-. exists n. split; [done|]. by destruct (Hf n) as (_ & ? & _).
    - rewrite list_lookup_alter_ne in Hn' by done. by exists n'. }
  destruct Hp as (n & Hn & ->).
  destruct (Hok p n Hn) as (l & Hl & Hparents & Hnames).
  exists l. split; [|split].
  - apply chain_alter_next; [|done]. intros m. by destruct (Hf m).
  - intros c Hc. rewrite parent_of_alter; [by apply Hparents|].
    intros _ m. by destruct (Hf m) as (_ & _ & ? & _).
  - rewrite names_alter; [done|]. intros _ m. by destruct (Hf m) as (_ & _ & _ & ?).
Qed.

Lemma file_at_Some fs path r n :
  file_at fs path = Some (Some (r, n)) →
  nodes fs !! r = Some n ∧ is_file n = true.
Proof. unfold file_at. intros H. crunch. by simplify_eq. Qed.

Lemma nwfiletxt_command_wf fs args stdin res fs' stdin' :
  wf fs → nwfiletxt_command fs args stdin = Some (res, fs', stdin') → wf fs'.
Proof.
  intros Hwf H. unfold nwfiletxt_command in H.
  crunch; subst; try done.
  match goal with Hf : file_at _ _ = _ |- _ => apply file_at_Some in Hf as [Hr Hfile] end.
  apply wf_basics in Hwf as [Hb Hc]. apply wf_basics. cbn. split.
  - rewrite length_app. cbn. apply basics_set_content.
    + eapply basics_more_lists; [done|lia].
    + lia.
    + intros m Hm. congruence.
  - by apply chains_ok_alter_keep.
Qed.

Lemma with_lists_alter_wf fs (f : list string → list string) k :
  wf fs → wf (with_lists (alter f k (lists fs)) fs).
Proof.
  intros [Hb Hc]%wf_basics. apply wf_basics. cbn. by rewrite length_alter.
Qed.

Lemma edit_at_wf fs n number edit res fs' :
  wf fs → edit_at fs n number edit = Some (res, fs') → wf fs'.
Proof.
  intros Hwf H. unfold edit_at in H.
  crunch; subst; try done. by apply with_lists_alter_wf.
Qed.

Lemma appendtxt_command_wf fs args stdin res fs' stdin' :
  wf fs → appendtxt_command fs args stdin = Some (res, fs', stdin') → wf fs'.
Proof.
  intros Hwf H. unfold appendtxt_command in H.
  crunch; subst; try done. by apply with_lists_alter_wf.
Qed.

Lemma editline_command_wf fs args res fs' :
  wf fs → editline_command fs args = Some (res, fs') → wf fs'.
Proof.
  intros Hwf H. unfold editline_command in H.
  crunch; subst; try done; by eapply edit_at_wf.
Qed.

Lemma deline_command_wf fs args res fs' :
  wf fs → deline_command fs args = Some (res, fs') → wf fs'.
Proof.
  intros Hwf H. unfold deline_command in H.
  crunch; subst; try done; by eapply edit_at_wf.
Qed.

(** ** [deep_copy] *)

Lemma grows_refl fs keep : grows fs fs keep.
Proof. by split_and!. Qed.

Lemma grows_trans fs1 fs2 fs3 (keep1 keep2 : ref → Prop) :
  grows fs1 fs2 keep1 → grows fs2 fs3 keep2 →
  grows fs1 fs3 (λ x, keep1 x ∧ keep2 x).
Proof.
  intros (Hl1 & Hk1 & Hp1 & Hr1 & Hc1) (Hl2 & Hk2 & Hp2 & Hr2 & Hc2).
  split_and!; [lia| |by etrans|congruence..].
  intros x Hx [H1 H2]. rewrite Hk2, Hk1; [done..|lia|done].
Qed.

Lemma grows_weaken fs fs' (keep keep' : ref → Prop) :
  grows fs fs' keep → (∀ x, x < length (nodes fs) → keep' x → keep x) →
  grows fs fs' keep'.
Proof.
  intros (Hl & Hk & Hp & Hr & Hc) Hw. split_and!; [done| |done..].
  intros x Hx Hkx. apply Hk; [done|]. by apply Hw.
Qed.

Lemma grows_basics fs :
  wf fs → basics_ok (nodes fs) (length (lists fs)) (root fs) (current fs).
Proof. by intros [? _]%wf_basics. Qed.

Lemma grows_with_nodes_alter fs f x :
  grows fs (with_nodes (alter f x (nodes fs)) fs) (λ y, y ≠ x).
Proof.
  split_and!; cbn; [by rewrite length_alter| |done..].
  intros y _ Hy. by rewrite list_lookup_alter_ne.
Qed.

Lemma deep_copy_unfold fuel fs node new_parent :
  deep_copy (S fuel) fs node new_parent
  = n ← nodes fs !! node;
    fs2 ← copy_top fs n new_parent;
    fs3 ← copy_children fuel fs2 (child n) (length (nodes fs));
    Some (fs3, length (nodes fs)).
Proof.
  cbn [deep_copy]. destruct (nodes fs !! node) as [n|]; [|done]. cbn.
  unfold copy_top, new_node. by destruct (is_file n).
Qed.

Lemma copy_children_unfold fuel fs ch copy_node :
  copy_children (S fuel) fs (Some ch) copy_node
  = '(fs1, child_copy) ← deep_copy fuel fs ch copy_node;
    h ← add_child (nodes fs1) copy_node child_copy;
    n ← h !! ch;
    copy_children fuel (with_nodes h fs1) (next n) copy_node.
Proof. done. Qed.

(** The store after [copy_top]: one more node, which copies the name and
    kind of [n], has [new_parent] as parent and no links yet; for a file,
    two more line lists, the second of which holds the lines of [n] and is
    the content of the new node. *)
Lemma copy_top_spec fs n new_parent fs2 :
  (∀ k, content n = Some k → k < length (lists fs)) →
  copy_top fs n new_parent = Some fs2 →
  root fs2 = root fs ∧ current fs2 = current fs
  ∧ ∃ m, nodes fs2 = nodes fs ++ [m]
      ∧ name m = name n ∧ is_file m = is_file n
      ∧ parent m = Some new_parent ∧ child m = None ∧ next m = None
      ∧ if is_file n then
          ∃ k l, content n = Some k ∧ lists fs !! k = Some l
                 ∧ lists fs2 = lists fs ++ [[]; l]
                 ∧ content m = Some (S (length (lists fs)))
        else lists fs2 = lists fs ∧ content m = None.
Proof.
  intros Hvalid. unfold copy_top, new_node. destruct (is_file n) eqn:Hf.
  - intros H. apply bind_Some in H as (k & Hk & H).
    apply bind_Some in H as (l & Hl & [= <-]). cbn in *.
    split; [done|]. split; [done|].
    rewrite alter_app_r_alt by done. rewrite Nat.sub_diag. cbn.
    eexists. split; [done|]. cbn. split_and!; try done.
    exists k, l. split; [done|].
    rewrite lookup_app_l in Hl by (by apply Hvalid).
    split; [done|]. rewrite <- app_assoc. cbn. split; [done|].
    rewrite length_app. cbn. f_equal. lia.
  - intros [= <-]. cbn. split; [done|]. split; [done|].
    eexists. split; [done|]. cbn. by split_and!.
Qed.

Lemma copy_top_grows fs n new_parent fs2 :
  (∀ k, content n = Some k → k < length (lists fs)) →
  copy_top fs n new_parent = Some fs2 →
  grows fs fs2 (λ _, True) ∧ length (nodes fs2) = S (length (nodes fs)).
Proof.
  intros Hvalid H.
  destruct (copy_top_spec _ _ _ _ Hvalid H) as (Hr & Hc & m & Hn & _ & Hfile & _ & _ & _ & Hl).
  split.
  - split_and!; [rewrite Hn, length_app; lia| | |done..].
    + intros x Hx _. rewrite Hn. by apply lookup_app_l.
    + destruct (is_file n).
      * destruct Hl as (k & l & _ & _ & -> & _). by eexists.
      * by destruct Hl as [-> _].
  - rewrite Hn, length_app. cbn. lia.
Qed.

Lemma copy_top_basics fs n new_parent fs2 x :
  basics_ok (nodes fs) (length (lists fs)) (root fs) (current fs) →
  nodes fs !! x = Some n → new_parent < length (nodes fs) →
  copy_top fs n new_parent = Some fs2 →
  basics_ok (nodes fs2) (length (lists fs2)) (root fs2) (current fs2).
Proof.
  intros Hb Hx Hnp H.
  assert (Hvalid : ∀ k, content n = Some k → k < length (lists fs)).
  { intros k Hk. destruct Hb as (_ & _ & Hv & _).
    destruct (Hv x n Hx) as (_ & _ & _ & Hc). by apply Hc. }
  assert (Hkind : if is_file n then is_Some (content n) else content n = None).
  { destruct Hb as (_ & _ & _ & Hk). by eapply Hk. }
  destruct (copy_top_spec _ _ _ _ Hvalid H)
    as (-> & -> & m & -> & _ & Hfile & Hpar & Hchild & Hnext & Hl).
  assert (Hlen : length (lists fs) ≤ length (lists fs2)).
  { destruct (is_file n).
    - destruct Hl as (k & l & _ & _ & -> & _). rewrite length_app. lia.
    - by destruct Hl as [-> _]. }
  apply basics_alloc.
  - by eapply basics_more_lists.
  - unfold node_valid. rewrite Hpar, Hchild, Hnext. split_and!.
    + apply valid_ref_Some. lia.
    + apply valid_ref_None.
    + apply valid_ref_None.
    + destruct (is_file n).
      * destruct Hl as (k & l & _ & _ & -> & ->). apply valid_ref_Some.
        rewrite length_app. cbn. lia.
      * destruct Hl as [_ ->]. apply valid_ref_None.
  - rewrite Hfile. destruct (is_file n).
    + destruct Hl as (k & l & _ & _ & _ & ->). by eexists.
    + by destruct Hl as [_ ->].
Qed.

Lemma add_child_grows fs self c h :
  add_child (nodes fs) self c = Some h →
  grows fs (with_nodes h fs) (λ x, x ≠ self ∧ x ≠ c).
Proof.
  intros H. unfold add_child in H. apply bind_Some in H as (s & Hs & [= <-]).
  split_and!; cbn; [by rewrite !length_alter| |done..].
  intros x _ [? ?]. by rewrite !list_lookup_alter_ne.
Qed.

Lemma add_child_lookup_self h self c h' :
  add_child h self c = Some h' → c ≠ self →
  h' !! self = set_child (Some c) <$> h !! self.
Proof.
  intros H Hne. unfold add_child in H. apply bind_Some in H as (s & Hs & [= <-]).
  by rewrite list_lookup_alter_eq, list_lookup_alter_ne.
Qed.

Lemma add_child_lookup_child h self c h' s :
  add_child h self c = Some h' → c ≠ self → h !! self = Some s →
  h' !! c = set_next (child s) <$> h !! c.
Proof.
  intros H Hne Hs. rewrite (add_child_Some _ _ _ _ Hs) in H. injection H as <-.
  by rewrite list_lookup_alter_ne, list_lookup_alter_eq.
Qed.

(** The nodes that were there when [deep_copy] was called are not touched,
    and the copy is the first cell after them; [copy_children] only hangs
    children under the copy. *)
Lemma deep_copy_grows fuel :
  (∀ fs node new_parent fs' c,
     fs_basics fs → new_parent < length (nodes fs) →
     deep_copy fuel fs node new_parent = Some (fs', c) →
     c = length (nodes fs) ∧ c < length (nodes fs')
     ∧ grows fs fs' (λ _, True) ∧ fs_basics fs')
  ∧ (∀ fs o copy_node fs',
       fs_basics fs → copy_node < length (nodes fs) →
       copy_children fuel fs o copy_node = Some fs' →
       grows fs fs' (λ x, x ≠ copy_node) ∧ fs_basics fs'
       ∧ ∃ v, nodes fs' !! copy_node = set_child v <$> nodes fs !! copy_node).
Proof.
  induction fuel as [|fuel [IHD IHC]].
  - split; [done|]. intros fs [ch|] copy_node fs' Hb Hcn; [done|].
    intros [= <-]. split; [apply grows_refl|]. split; [done|].
    destruct (lookup_lt_is_Some_2 _ _ Hcn) as [s Hs]. exists (child s).
    rewrite Hs. by destruct s.
  - split.
    + intros fs node np fs' c Hb Hnp H. rewrite deep_copy_unfold in H.
      apply bind_Some in H as (n & Hn & H).
      apply bind_Some in H as (fs2 & Htop & H).
      apply bind_Some in H as (fs3 & Hkids & [= <- <-]).
      assert (Hvalid : ∀ k, content n = Some k → k < length (lists fs)).
      { intros k Hk. destruct Hb as (_ & _ & Hv & _).
        destruct (Hv node n Hn) as (_ & _ & _ & Hc). by apply Hc. }
      destruct (copy_top_grows _ _ _ _ Hvalid Htop) as [Hg2 Hlen2].
      pose proof (copy_top_basics _ _ _ _ _ Hb Hn Hnp Htop) as Hb2.
      destruct (IHC fs2 (child n) (length (nodes fs)) fs3 Hb2) as (Hg3 & Hb3 & _);
        [lia|done|].
      split; [done|]. split; [destruct Hg3 as [? _]; lia|]. split; [|done].
      eapply grows_weaken; [by eapply grows_trans|]. cbn. intros x Hx _.
      split; [done|lia].
    + intros fs [ch|] copy_node fs' Hb Hcn H.
      * rewrite copy_children_unfold in H.
        apply bind_Some in H as ([fs1 child_copy] & Hdc & H).
        apply bind_Some in H as (h & Hadd & H).
        apply bind_Some in H as (n & Hn & H).
        destruct (IHD fs ch copy_node fs1 child_copy Hb Hcn Hdc)
          as (-> & Hlt & Hg1 & Hb1).
        assert (Hb1' : fs_basics (with_nodes h fs1))
          by (by eapply basics_add_child).
        assert (Hcn1 : copy_node < length (nodes (with_nodes h fs1))).
        { cbn. rewrite (add_child_length _ _ _ _ Hadd). lia. }
        destruct (IHC (with_nodes h fs1) (next n) copy_node fs' Hb1' Hcn1 H)
          as (Hg' & Hb' & v & Hv).
        split; [|split; [done|]].
        -- eapply grows_weaken.
           ++ eapply grows_trans; [|exact Hg'].
              eapply grows_trans; [exact Hg1|]. by apply add_child_grows.
           ++ cbn. intros x Hx Hne. split_and!; [done|done|lia|done].
        -- exists v. rewrite Hv. cbn.
           rewrite (add_child_lookup_self _ _ _ _ Hadd) by lia.
           destruct Hg1 as (_ & Hk & _). rewrite Hk by done.
           destruct (nodes fs !! copy_node) as [s|]; [|done]. by destruct s.
      * injection H as <-. split; [apply grows_refl|]. split; [done|].
        destruct (lookup_lt_is_Some_2 _ _ Hcn) as [s Hs]. exists (child s).
        rewrite Hs. by destruct s.
Qed.

(** ** Subtrees *)

Lemma tree_ind' (P : tree → Prop) :
  (∀ nm file lines ts, Forall P ts → P (Tree nm file lines ts)) →
  ∀ t, P t.
Proof.
  intros Hstep. fix IH 1. intros [nm file lines ts]. apply Hstep.
  induction ts as [|t ts IHts]; constructor; [apply IH|apply IHts].
Qed.

Lemma tree_name_mirror t : tree_name (mirror t) = tree_name t.
Proof. by destruct t. Qed.

Lemma fresh_tree_bounds h ls k b x t :
  fresh_tree h ls k b x t → b ≤ x ∧ x < length h.
Proof. inversion 1; subst. split; [done|]. by eapply lookup_lt_Some. Qed.

Lemma fresh_tree_name h ls k b x t :
  fresh_tree h ls k b x t → name_of h x = Some (tree_name t).
Proof.
  inversion 1 as [? ? n ? ? ? Hn]; subst. unfold name_of. by rewrite Hn.
Qed.

Lemma fresh_tree_weaken h ls k b b' x t :
  b' ≤ b → fresh_tree h ls k b x t → fresh_tree h ls k b' x t.
Proof. intros Hle. inversion 1; subst. econstructor; [lia|done..]. Qed.

Lemma fresh_trees_names h ls k b cs ts :
  Forall2 (fresh_tree h ls k b) cs ts →
  name_of h <$> cs = Some <$> (tree_name <$> ts).
Proof.
  induction 1 as [|c t cs ts Hc _ IH]; cbn; [done|].
  by rewrite (fresh_tree_name _ _ _ _ _ _ Hc), IH.
Qed.

Lemma fresh_trees_bounds h ls k b cs ts c :
  Forall2 (fresh_tree h ls k b) cs ts → c ∈ cs → b ≤ c ∧ c < length h.
Proof.
  intros H Hc. apply list_elem_of_lookup in Hc as [i Hi].
  destruct (Forall2_lookup_l _ _ _ _ _ H Hi) as (t & _ & Ht).
  by eapply fresh_tree_bounds.
Qed.

Lemma lines_of_prefix ls ls' n :
  ls `prefix_of` ls' → (∀ j, content n = Some j → j < length ls) →
  lines_of ls' n = lines_of ls n.
Proof.
  intros [k ->] Hvalid. unfold lines_of. destruct (content n) as [j|]; [|done].
  cbn. apply lookup_app_l. by apply Hvalid.
Qed.

(** A fresh subtree does not depend on the cells before it, nor on the
    parent and sibling pointers of its top cell. *)
Lemma fresh_tree_frame h ls h' ls' k t :
  ls `prefix_of` ls' →
  ∀ b x,
  fresh_tree h ls k b x t →
  (∀ y, x < y → y < length h → h' !! y = h !! y) →
  (∀ n, h !! x = Some n →
        ∃ n', h' !! x = Some n' ∧ name n' = name n ∧ is_file n' = is_file n
              ∧ content n' = content n ∧ child n' = child n) →
  fresh_tree h' ls' k b x t.
Proof.
  intros Hpre. induction t as [nm file lines ts IH] using tree_ind'.
  intros b x Ht Hcells Htop.
  inversion Ht as [? ? n cs ? Hb Hn Hcontent Hchain Hkids]; subst.
  destruct (Htop n Hn) as (n' & Hn' & Hnm & Hfile & Hcont & Hchild).
  rewrite <- Hnm, <- Hfile.
  rewrite <- (lines_of_prefix ls ls' n Hpre) by (intros j Hj; by apply Hcontent).
  replace (lines_of ls' n) with (lines_of ls' n')
    by (unfold lines_of; by rewrite Hcont).
  apply (fresh_tree_node h' ls' k b x n' cs ts); [done|done| | |].
  - intros j Hj. rewrite Hcont in Hj. apply Hcontent in Hj.
    apply prefix_length in Hpre. lia.
  - rewrite Hchild. eapply chain_frame; [done|]. intros c m Hc Hm.
    exists m. split; [|done]. rewrite Hcells; [done| |by eapply lookup_lt_Some].
    destruct (fresh_trees_bounds _ _ _ _ _ _ c Hkids Hc). lia.
  - clear Hchain Ht. induction Hkids as [|c t cs ts Hc Hrest IHk]; [constructor|].
    apply Forall_cons in IH as [IHt IHts].
    constructor; [|by apply IHk].
    destruct (fresh_tree_bounds _ _ _ _ _ _ Hc) as [Hxc Hclt].
    apply IHt; [done| |].
    + intros y Hy Hylt. apply Hcells; [lia|done].
    + intros m Hm. exists m. rewrite Hcells by (done || lia). done.
Qed.

Lemma fresh_tree_is_tree h ls k t :
  ∀ b x, fresh_tree h ls k b x t → is_tree h ls x t.
Proof.
  induction t as [nm file lines ts IH] using tree_ind'. intros b x Ht.
  inversion Ht as [? ? n cs ? Hb Hn Hcontent Hchain Hkids]; subst.
  apply (is_tree_node h ls x n cs ts); [done..|].
  clear Hchain Ht. induction Hkids as [|c t cs ts Hc Hrest IHk]; [constructor|].
  apply Forall_cons in IH as [IHt IHts].
  constructor; [by eapply IHt|by apply IHk].
Qed.

(** ** What [deep_copy] builds *)

Lemma grows_lookup fs fs' (keep : ref → Prop) x :
  grows fs fs' keep → x < length (nodes fs) → keep x →
  nodes fs' !! x = nodes fs !! x.
Proof. intros (_ & Hk & _). apply Hk. Qed.

Lemma grows_lists fs fs' (keep : ref → Prop) k :
  grows fs fs' keep → k < length (lists fs) → lists fs' !! k = lists fs !! k.
Proof. intros (_ & _ & [l ->] & _) Hk. by apply lookup_app_l. Qed.

Lemma grows_chain fs fs' (keep : ref → Prop) o l :
  grows fs fs' keep → chain (nodes fs) o l → (∀ c, c ∈ l → keep c) →
  chain (nodes fs') o l.
Proof.
  intros Hg Hl Hkeep. eapply chain_frame; [done|]. intros c n Hc Hn.
  exists n. split; [|done].
  rewrite (grows_lookup _ _ _ _ Hg); [done|by eapply lookup_lt_Some|by apply Hkeep].
Qed.

Lemma grows_kids fs fs' (keep : ref → Prop) p l :
  grows fs fs' keep → kids (nodes fs) p l → keep p → (∀ c, c ∈ l → keep c) →
  kids (nodes fs') p l.
Proof.
  intros Hg (n & Hn & Hl) Hp Hkeep. exists n. split.
  - rewrite (grows_lookup _ _ _ _ Hg); [done|by eapply lookup_lt_Some|done].
  - by eapply grows_chain.
Qed.

Lemma grows_name_of fs fs' (keep : ref → Prop) x :
  grows fs fs' keep → x < length (nodes fs) → keep x →
  name_of (nodes fs') x = name_of (nodes fs) x.
Proof. intros Hg Hx Hk. unfold name_of. by rewrite (grows_lookup _ _ _ _ Hg). Qed.

Lemma grows_fresh_tree fs fs' (keep : ref → Prop) k b x t :
  grows fs fs' keep →
  fresh_tree (nodes fs) (lists fs) k b x t →
  (∀ y, x ≤ y → y < length (nodes fs) → keep y) →
  fresh_tree (nodes fs') (lists fs') k b x t.
Proof.
  intros Hg Ht Hkeep.
  destruct (fresh_tree_bounds _ _ _ _ _ _ Ht) as [_ Hx].
  eapply fresh_tree_frame; [by destruct Hg as (_ & _ & ? & _)|done| |].
  - intros y Hy Hylt. apply (grows_lookup _ _ _ _ Hg); [done|]. apply Hkeep; [lia|done].
  - intros n Hn. exists n. split; [|done].
    rewrite (grows_lookup _ _ _ _ Hg); [done..|]. by apply Hkeep.
Qed.

Lemma grows_fresh_trees fs fs' (keep : ref → Prop) k b cs ts :
  grows fs fs' keep →
  Forall2 (fresh_tree (nodes fs) (lists fs) k b) cs ts →
  (∀ y, b ≤ y → y < length (nodes fs) → keep y) →
  Forall2 (fresh_tree (nodes fs') (lists fs') k b) cs ts.
Proof.
  intros Hg Hts Hkeep. induction Hts as [|c t cs ts Hc _ IH]; constructor; [|done].
  eapply grows_fresh_tree; [done..|]. intros y Hy Hylt. apply Hkeep; [|done].
  destruct (fresh_tree_bounds _ _ _ _ _ _ Hc). lia.
Qed.

Lemma unchained_by_parent h c p l :
  chains_ok h → parent_of h c = Some p → kids h p l → c ∉ l → unchained h c.
Proof.
  intros Hok Hpar Hk Hnin q lq Hq Hin.
  destruct Hq as (nq & Hnq & Hlq).
  destruct (Hok q nq Hnq) as (l0 & Hl0 & Hparents & _).
  rewrite (chain_det _ _ _ _ Hlq Hl0) in Hin.
  pose proof (Hparents c Hin) as Hp. rewrite Hpar in Hp. injection Hp as ->.
  apply Hnin. rewrite (kids_det _ _ _ _ Hk (ex_intro _ nq (conj Hnq Hl0))). done.
Qed.

Lemma copy_top_wf fs n np fs2 x :
  wf fs → nodes fs !! x = Some n → np < length (nodes fs) →
  copy_top fs n np = Some fs2 →
  wf fs2 ∧ unchained (nodes fs2) (length (nodes fs)).
Proof.
  intros Hwf Hx Hnp H. pose proof Hwf as [Hb Hc]%wf_basics.
  assert (Hvalid : ∀ k, content n = Some k → k < length (lists fs)).
  { intros k Hk. destruct Hb as (_ & _ & Hv & _).
    destruct (Hv x n Hx) as (_ & _ & _ & Hcv). by apply Hcv. }
  pose proof (copy_top_basics _ _ _ _ _ Hb Hx Hnp H) as Hb2.
  destruct (copy_top_spec _ _ _ _ Hvalid H)
    as (_ & _ & m & Hnodes & _ & _ & _ & Hchild & _).
  rewrite Hnodes. split; [|by apply unchained_alloc].
  apply wf_basics. split; [done|]. rewrite Hnodes. by apply chains_ok_alloc.
Qed.

Section copy.
Variable fs0 : FileSystem.
Hypothesis Hwf0 : wf fs0.

Lemma copy_children_nil fuel : 
  ∀ fs copy_node fs' lc tc,
    wf fs →
    kids (nodes fs) copy_node lc →
    Forall2 (fresh_tree (nodes fs) (lists fs) (length (lists fs0)) (S copy_node))
      lc tc →
    copy_children fuel fs None copy_node = Some fs' →
    wf fs'
    ∧ ∃ ts l',
        Forall2 (is_tree (nodes fs0) (lists fs0)) [] ts
        ∧ kids (nodes fs') copy_node (l' ++ lc)
        ∧ Forall2 (fresh_tree (nodes fs') (lists fs') (length (lists fs0))
                     (S copy_node))
            (l' ++ lc) (reverse (mirror <$> ts) ++ tc).
Proof.
  intros fs copy_node fs' lc tc Hwf Hk Htc H.
  assert (fs' = fs) as -> by (destruct fuel; cbn in H; congruence).
  split; [done|]. exists [], []. split; [constructor|]. by split.
Qed.

Lemma deep_copy_step fuel : copy_children_ok fs0 fuel → deep_copy_ok fs0 (S fuel).
Proof.
  intros IHC fs node np fs' c Hg Hwf Hnp Hnode H.
  rewrite deep_copy_unfold in H.
  apply bind_Some in H as (n & Hn & H).
  apply bind_Some in H as (fs2 & Htop & H).
  apply bind_Some in H as (fs3 & Hkids & [= <- <-]).
  set (c := length (nodes fs)) in *.
  (* the source node, in the original store *)
  assert (Hn0 : nodes fs0 !! node = Some n)
    by (by rewrite <- (grows_lookup _ _ _ _ Hg Hnode I)).
  pose proof Hwf0 as [Hb0 Hc0]%wf_basics.
  destruct (Hc0 node n Hn0) as (rest & Hrest & _ & Hnames).
  assert (Hvalid0 : ∀ k, content n = Some k → k < length (lists fs0)).
  { intros k Hk. destruct Hb0 as (_ & _ & Hv & _).
    destruct (Hv node n Hn0) as (_ & _ & _ & Hcv). by apply Hcv. }
  assert (Hlists : length (lists fs0) ≤ length (lists fs)).
  { destruct Hg as (_ & _ & Hp & _). by apply prefix_length. }
  assert (Hvalid : ∀ k, content n = Some k → k < length (lists fs)).
  { intros k Hk. apply Hvalid0 in Hk. lia. }
  (* the store after the copy of the top node *)
  pose proof Hwf as [Hb _]%wf_basics.
  destruct (copy_top_wf _ _ _ _ _ Hwf Hn Hnp Htop) as [Hwf2 Hun2].
  destruct (copy_top_grows _ _ _ _ Hvalid Htop) as [Hg2 Hlen2].
  destruct (copy_top_spec _ _ _ _ Hvalid Htop)
    as (_ & _ & m & Hnodes2 & Hnm & Hfile & Hpar & Hchild & Hnext & Hl2).
  assert (Hm : nodes fs2 !! c = Some m)
    by (rewrite Hnodes2; by apply list_lookup_middle).
  assert (Hg02 : grows fs0 fs2 (λ _, True)).
  { eapply grows_weaken; [by eapply grows_trans|]. done. }
  assert (Hc0le : length (nodes fs0) ≤ c) by (by destruct Hg as [? _]).
  destruct (IHC fs2 (child n) c fs3 rest [] [] Hg02 Hwf2 Hc0le) as
    (Hwf3 & ts & l' & Hts & Hk3 & Hfresh3).
  { lia. }
  { done. }
  { done. }
  { exists m. by rewrite Hchild. }
  { constructor. }
  { intros nm _ Hin. by apply elem_of_nil in Hin. }
  { done. }
  rewrite !app_nil_r in *.
  (* the top of the copy at the end *)
  pose proof Hwf2 as [Hb2 _]%wf_basics.
  destruct (deep_copy_grows fuel) as [_ HG].
  destruct (HG fs2 (child n) c fs3 Hb2) as (Hg3 & Hb3 & v & Hv); [lia|done|].
  rewrite Hm in Hv. cbn in Hv.
  assert (Hg13 : grows fs fs3 (λ _, True)).
  { eapply grows_weaken; [by eapply grows_trans|].
    cbn. intros y Hy _. split; [done|]. unfold c. lia. }
  split; [done|]. split; [|split].
  - destruct (lookup_lt_is_Some_2 _ _ Hnp) as [pn Hpn].
    destruct (wf_chains _ Hwf np pn Hpn) as (lp & Hlp & _).
    assert (Hkp : kids (nodes fs) np lp) by (by exists pn).
    eapply (unchained_by_parent _ _ np lp).
    + by apply wf_chains.
    + unfold parent_of. rewrite Hv. cbn. done.
    + by eapply (grows_kids fs fs3 (λ _, True)).
    + intros Hin. apply (kids_valid _ _ _ _ Hkp) in Hin. unfold c in Hin. lia.
  - unfold parent_of. rewrite Hv. done.
  - exists (Tree (name n) (is_file n) (lines_of (lists fs0) n) ts). split.
    + by apply (is_tree_node _ _ node n rest ts).
    + cbn [mirror].
      assert (Hlines : lines_of (lists fs3) (set_child v m) = lines_of (lists fs0) n).
      { unfold lines_of. cbn. destruct (is_file n) eqn:Hf.
        - destruct Hl2 as (k & l & Hk & Hl & Hlists2 & ->). rewrite Hk. cbn.
          rewrite (grows_lists _ _ _ _ Hg3)
            by (rewrite Hlists2, length_app; cbn; lia).
          rewrite Hlists2, lookup_app_r by lia.
          replace (S (length (lists fs)) - length (lists fs)) with 1 by lia.
          cbn. rewrite <- Hl. apply (grows_lists _ _ _ _ Hg).
          by apply Hvalid0.
        - destruct Hl2 as [_ ->]. cbn.
          destruct Hb0 as (_ & _ & _ & Hkinds).
          specialize (Hkinds node n Hn0). rewrite Hf in Hkinds.
          by rewrite Hkinds. }
      rewrite <- Hlines, <- Hnm, <- Hfile.
      destruct Hk3 as (n3 & Hn3 & Hl3). rewrite Hv in Hn3. injection Hn3 as <-.
      apply (fresh_tree_node _ _ _ _ c (set_child v m) l'); [done|done| |done|done].
      intros j Hj. cbn in Hj. destruct (is_file n).
      * destruct Hl2 as (k & l & Hk & Hl & Hlists2 & Hcm). rewrite Hcm in Hj.
        injection Hj as <-. destruct Hg3 as (_ & _ & Hp3 & _).
        apply prefix_length in Hp3. rewrite Hlists2, length_app in Hp3.
        cbn in Hp3. lia.
      * destruct Hl2 as [_ Hcm]. congruence.
Qed.

Lemma copy_children_step fuel :
  deep_copy_ok fs0 fuel → copy_children_ok fs0 fuel →
  copy_children_ok fs0 (S fuel).
Proof.
  intros IHD IHC fs o copy_node fs' rest lc tc
    Hg Hwf Hc0 Hcn Hrest Hnd Hk Htc Hdisj H.
  destruct o as [ch|].
  2:{ destruct rest as [|x rest]; [|by destruct Hrest].
      by eapply copy_children_nil. }
  destruct rest as [|x rest]; [done|].
  destruct Hrest as [[= <-] (n0 & Hn0 & Hrest)].
  rewrite copy_children_unfold in H.
  apply bind_Some in H as ([fs1 child_copy] & Hdc & H).
  apply bind_Some in H as (h & Hadd & H).
  apply bind_Some in H as (n & Hn & H).
  assert (Hch : ch < length (nodes fs0)) by (by eapply lookup_lt_Some).
  (* the copy of the child *)
  destruct (IHD fs ch copy_node fs1 child_copy Hg Hwf Hcn Hch Hdc)
    as (Hwf1 & Hun1 & Hpar1 & t_ch & Htch & Hfresh1).
  pose proof Hwf as [Hb _]%wf_basics.
  destruct (deep_copy_grows fuel) as [HG _].
  destruct (HG fs ch copy_node fs1 child_copy Hb Hcn Hdc) as (-> & Hlt1 & Hg1 & Hb1).
  set (child_copy := length (nodes fs)) in *.
  assert (Hname_ch : tree_name t_ch = name n0).
  { inversion Htch as [? m ? ? Hm]; subst. rewrite Hn0 in Hm. by injection Hm as <-. }
  destruct (lookup_lt_is_Some_2 _ _ Hlt1) as [cn Hcn1].
  assert (Hcn_name : name cn = name n0).
  { pose proof (fresh_tree_name _ _ _ _ _ _ Hfresh1) as Hnm.
    unfold name_of in Hnm. rewrite Hcn1, tree_name_mirror, Hname_ch in Hnm.
    by injection Hnm. }
  assert (Hcn_par : parent cn = Some copy_node).
  { unfold parent_of in Hpar1. by rewrite Hcn1 in Hpar1. }
  (* the chain of the copy before the insertion *)
  assert (Hk1 : kids (nodes fs1) copy_node lc)
    by (by eapply (grows_kids fs fs1 (λ _, True))).
  assert (Htc1 : Forall2 (fresh_tree (nodes fs1) (lists fs1) (length (lists fs0))
                            (S copy_node)) lc tc)
    by (by eapply (grows_fresh_trees fs fs1 (λ _, True))).
  assert (Hfresh_name : first_named (nodes fs1) (name cn) lc = None).
  { apply first_named_None_names.
    rewrite (fresh_trees_names _ _ _ _ _ _ Htc1), Hcn_name.
    intros (nm & [= <-] & Hin)%list_elem_of_fmap.
    apply (Hdisj (name n0)); [|done].
    cbn. unfold name_of at 1. rewrite Hn0. by left. }
  (* the store after the insertion *)
  set (fsh := with_nodes h fs1).
  assert (Hne : child_copy ≠ copy_node) by (unfold child_copy; lia).
  assert (Hwfh : wf fsh).
  { apply wf_basics. split.
    - by eapply basics_add_child.
    - eapply add_child_chains_ok; [by apply wf_chains|done..|].
      intros l Hl. by rewrite (kids_det _ _ _ _ Hl Hk1). }
  assert (Hgh : grows fs1 fsh (λ y, y ≠ copy_node ∧ y ≠ child_copy))
    by (by apply add_child_grows).
  assert (Hg0h : grows fs0 fsh (λ _, True)).
  { eapply grows_weaken.
    - eapply grows_trans; [exact Hg|]. eapply grows_trans; [exact Hg1|exact Hgh].
    - cbn. intros y Hy _. unfold child_copy. split_and!; [done|done|lia|].
      destruct Hg as [? _]. lia. }
  assert (Hnh : n = n0).
  { assert (Hhch : nodes fsh !! ch = Some n0).
    { rewrite <- Hn0. apply (grows_lookup _ _ _ _ Hg0h); [done|done]. }
    cbn in Hhch. congruence. }
  subst n.
  assert (Hkh : kids (nodes fsh) copy_node (child_copy :: lc)).
  { eapply add_child_kids_self; [done|lia|done|done|done]. }
  assert (Htch' : Forall2 (fresh_tree (nodes fsh) (lists fsh) (length (lists fs0))
                             (S copy_node))
                    (child_copy :: lc) (mirror t_ch :: tc)).
  { constructor.
    - apply (fresh_tree_weaken _ _ _ child_copy); [lia|].
      eapply (fresh_tree_frame (nodes fs1) (lists fs1)); [done|exact Hfresh1| |].
      + intros y Hy Hylt. apply (grows_lookup _ _ _ _ Hgh); [done|]. lia.
      + intros m Hm. rewrite Hcn1 in Hm. injection Hm as <-.
        destruct Hk1 as (s & Hs & _).
        exists (set_next (child s) cn). split; [|done].
        cbn. by rewrite (add_child_lookup_child _ _ _ _ _ Hadd Hne Hs), Hcn1.
    - eapply (grows_fresh_trees fs fsh);
        [eapply grows_trans; [exact Hg1|exact Hgh]|done|].
      cbn. intros y Hy Hylt. unfold child_copy. split_and!; [done|lia|lia]. }
  assert (Hnd' : NoDup (name_of (nodes fs0) <$> rest)).
  { cbn in Hnd. by apply NoDup_cons in Hnd as [_ ?]. }
  assert (Hdisj' : ∀ nm, Some nm ∈ name_of (nodes fs0) <$> rest →
                         nm ∉ tree_name <$> (mirror t_ch :: tc)).
  { intros nm Hin. cbn. apply not_elem_of_cons. split.
    - rewrite tree_name_mirror, Hname_ch. intros ->.
      cbn in Hnd. apply NoDup_cons in Hnd as [Hhead _]. apply Hhead.
      unfold name_of at 1. by rewrite Hn0.
    - apply Hdisj. cbn. by right. }
  assert (Hcnh : copy_node < length (nodes fsh)).
  { cbn. rewrite (add_child_length _ _ _ _ Hadd). lia. }
  destruct (IHC fsh (next n0) copy_node fs' rest (child_copy :: lc)
              (mirror t_ch :: tc) Hg0h Hwfh Hc0 Hcnh Hrest Hnd' Hkh Htch' Hdisj' H)
    as (Hwf' & ts' & l'' & Hts' & Hk' & Hfresh').
  split; [done|]. exists (t_ch :: ts'), (l'' ++ [child_copy]).
  split; [by constructor|].
  rewrite fmap_cons, reverse_cons, <- !app_assoc. cbn. done.
Qed.

Lemma deep_copy_correct fuel :
  deep_copy_ok fs0 fuel ∧ copy_children_ok fs0 fuel.
Proof.
  induction fuel as [|fuel [IHD IHC]].
  - split; [by intros fs node np fs' c _ _ _ _ H|].
    intros fs [ch|] copy_node fs' rest lc tc Hg Hwf Hc0 Hcn Hrest Hnd Hk Htc Hdisj H;
      [done|].
    destruct rest as [|x rest]; [|by destruct Hrest].
    by eapply copy_children_nil.
  - split; [by apply deep_copy_step|by apply copy_children_step].
Qed.
End copy.

(** ** [cp] *)

Lemma kids_alter_keep_inv h f x p l :
  (∀ n, next (f n) = next n ∧ child (f n) = child n) →
  kids (alter f x h) p l → kids h p l.
Proof.
  intros Hf (n' & Hn' & Hl).
  assert (Hback : ∀ c m', alter f x h !! c = Some m' →
                          ∃ m, h !! c = Some m ∧ next m = next m' ∧ child m = child m').
  { intros c m' Hm'. destruct (decide (x = c)) as [->|Hne].
    - rewrite list_lookup_alter_eq in Hm'. destruct (h !! c) as [m|]; [|done].
      injection Hm' as <-. exists m. by destruct (Hf m) as [-> ->].
    - rewrite list_lookup_alter_ne in Hm' by done. by exists m'. }
  destruct (Hback p n' Hn') as (n & Hn & _ & Hc).
  exists n. split; [done|]. rewrite Hc.
  eapply chain_frame; [done|]. intros c m' _ Hm'.
  destruct (Hback c m' Hm') as (m & Hm & Hnext & _). by exists m.
Qed.

Lemma unchained_alter_keep h f x c :
  (∀ n, next (f n) = next n ∧ child (f n) = child n) →
  unchained h c → unchained (alter f x h) c.
Proof.
  intros Hf Hun p l Hk. apply (Hun p). by eapply kids_alter_keep_inv.
Qed.

Lemma rename_to_keeps nm n :
  next (rename_to nm n) = next n ∧ child (rename_to nm n) = child n.
Proof. by destruct nm. Qed.

Lemma fresh_tree_rename h ls k b x t nm new_name :
  fresh_tree h ls k b x t →
  match nm with Some n => n | None => tree_name t end = new_name →
  fresh_tree (alter (rename_to nm) x h) ls k b x (renamed new_name t).
Proof.
  intros Ht Hnew.
  inversion Ht as [? ? n cs ts Hb Hn Hcontent Hchain Hkids]; subst. cbn.
  assert (Hn' : alter (rename_to nm) x h !! x = Some (rename_to nm n))
    by (by rewrite list_lookup_alter_eq, Hn).
  assert (Hcells : ∀ y, x < y → alter (rename_to nm) x h !! y = h !! y).
  { intros y Hy. apply list_lookup_alter_ne. lia. }
  replace (Tree (match nm with Some n0 => n0 | None => name n end)
             (is_file n) (lines_of ls n) ts)
    with (Tree (name (rename_to nm n)) (is_file (rename_to nm n))
            (lines_of ls (rename_to nm n)) ts) by (by destruct nm).
  apply (fresh_tree_node _ _ _ _ x (rename_to nm n) cs ts); [done|done| | |].
  - intros j Hj. apply Hcontent. by destruct nm.
  - replace (child (rename_to nm n)) with (child n) by (by destruct nm).
    apply chain_alter_next; [|done]. intros m. by destruct nm.
  - eapply Forall2_impl; [exact Hkids|]. intros c t Hc. cbn in Hc.
    eapply fresh_tree_frame; [done|exact Hc| |].
    + intros y Hy _. apply Hcells. destruct (fresh_tree_bounds _ _ _ _ _ _ Hc). lia.
    + intros m Hm. exists m. split; [|done]. rewrite Hcells; [done|].
      destruct (fresh_tree_bounds _ _ _ _ _ _ Hc). lia.
Qed.

Lemma is_tree_name h ls x t n :
  is_tree h ls x t → h !! x = Some n → tree_name t = name n.
Proof. inversion 1 as [? m ? ? Hm]; subst. intros Hn. cbn. congruence. Qed.

(** The end of both branches of [cp]: the deep copy, the renaming of the
    copy if a new name was given, and its insertion under [d]. *)
Lemma copy_into fuel fs s sn d nm new_name fs1 copy h :
  wf fs → nodes fs !! s = Some sn → d < length (nodes fs) →
  match nm with Some n => n | None => name sn end = new_name →
  find_child (nodes fs) d new_name = Some None →
  deep_copy fuel fs s d = Some (fs1, copy) →
  add_child (alter (rename_to nm) copy (nodes fs1)) d copy = Some h →
  wf (with_nodes h fs1)
  ∧ copy = length (nodes fs)
  ∧ grows fs (with_nodes h fs1) (λ y, y ≠ d)
  ∧ h !! d = set_child (Some copy) <$> nodes fs !! d
  ∧ (∀ l, kids (nodes fs) d l → kids h d (copy :: l))
  ∧ ∃ t, is_tree (nodes fs) (lists fs) s t
         ∧ fresh_tree h (lists fs1) (length (lists fs)) (length (nodes fs)) copy
             (renamed new_name (mirror t)).
Proof.
  intros Hwf Hs Hd Hnew Hfind Hdc Hadd.
  assert (Hslt : s < length (nodes fs)) by (by eapply lookup_lt_Some).
  destruct (deep_copy_correct fs Hwf fuel) as [HD _].
  destruct (HD fs s d fs1 copy (grows_refl _ _) Hwf Hd Hslt Hdc)
    as (Hwf1 & Hun1 & Hpar1 & t & Ht & Hfresh1).
  pose proof Hwf as [Hb Hc]%wf_basics.
  destruct (deep_copy_grows fuel) as [HG _].
  destruct (HG fs s d fs1 copy Hb Hd Hdc) as (Hcopy & Hlt1 & Hg1 & Hb1).
  set (h1 := alter (rename_to nm) copy (nodes fs1)) in *.
  assert (Hne : copy ≠ d) by lia.
  assert (Hcopy0 : copy ≠ 0) by lia.
  destruct (lookup_lt_is_Some_2 _ _ Hlt1) as [cn Hcn].
  assert (Hcn1 : h1 !! copy = Some (rename_to nm cn))
    by (unfold h1; by rewrite list_lookup_alter_eq, Hcn).
  assert (Htname : tree_name (mirror t) = name sn).
  { rewrite tree_name_mirror. by eapply is_tree_name. }
  assert (Hcn_name : name (rename_to nm cn) = new_name).
  { pose proof (fresh_tree_name _ _ _ _ _ _ Hfresh1) as Hnm.
    unfold name_of in Hnm. rewrite Hcn, Htname in Hnm. injection Hnm as Hnm.
    destruct nm; cbn; congruence. }
  destruct (lookup_lt_is_Some_2 _ _ Hd) as [dn Hdn].
  destruct (Hc d dn Hdn) as (ld & Hld & _).
  assert (Hkd : kids (nodes fs) d ld) by (by exists dn).
  assert (Hkd1 : kids h1 d ld).
  { pose proof (grows_kids fs fs1 (λ _, True) d ld Hg1 Hkd I (λ _ _, I)) as (n1 & Hn1 & Hl1).
    exists n1. unfold h1. split; [by rewrite list_lookup_alter_ne|].
    apply chain_alter_next; [|done]. intros m. by destruct nm. }
  assert (Hwfh1 : basics_ok h1 (length (lists fs1)) (root fs1) (current fs1)
                  ∧ chains_ok h1).
  { apply wf_basics in Hwf1 as [Hb1' Hc1]. split.
    - by apply basics_rename_to.
    - destruct nm as [n|]; cbn in h1.
      + apply rename_chains_ok; [done|]. intros p l Hk Hin. by destruct (Hun1 p l).
      + unfold h1. by rewrite list_alter_id. }
  destruct Hwfh1 as [Hbh1 Hch1].
  assert (Hunh1 : unchained h1 copy).
  { apply unchained_alter_keep; [|done]. intros m. apply rename_to_keeps. }
  assert (Hlen1 : length h1 = length (nodes fs1)) by (unfold h1; by rewrite length_alter).
  assert (Hwfh : wf (with_nodes h fs1)).
  { apply wf_basics. cbn. split.
    - eapply basics_add_child; [done..|]. lia.
    - eapply add_child_chains_ok; [done..| |].
      + cbn. unfold parent_of in Hpar1. rewrite Hcn in Hpar1. cbn in Hpar1.
        by destruct nm.
      + intros l Hl. rewrite (kids_det _ _ _ _ Hl Hkd1), Hcn_name.
        rewrite (first_named_ext (nodes fs) h1).
        * by eapply find_child_None_kids.
        * intros c Hin. pose proof (kids_valid _ _ _ _ Hkd Hin) as Hclt.
          unfold h1. rewrite name_of_alter by (intros ->; lia).
          by apply (grows_name_of fs fs1 (λ _, True)). }
  split; [done|]. split; [done|].
  assert (Hgh : grows fs (with_nodes h fs1) (λ y, y ≠ d)).
  { destruct Hg1 as (Hl1 & Hk1 & Hp1 & Hr1 & Hc1).
    split_and!; cbn; [rewrite (add_child_length _ _ _ _ Hadd); lia| |done..].
    intros y Hy Hyd.
    unfold add_child in Hadd. apply bind_Some in Hadd as (sd & Hsd & [= <-]).
    rewrite !list_lookup_alter_ne by (done || lia).
    unfold h1. rewrite list_lookup_alter_ne by lia.
    by apply Hk1. }
  split; [done|]. split; [|split].
  - rewrite (add_child_lookup_self _ _ _ _ Hadd Hne). unfold h1.
    rewrite list_lookup_alter_ne by done.
    by rewrite (grows_lookup _ _ _ _ Hg1 Hd I).
  - intros l Hl. rewrite (kids_det _ _ _ _ Hl Hkd).
    eapply add_child_kids_self; [done|lia|done|done|done].
  - exists t. split; [done|].
    assert (Hk0 : length (lists fs) = length (lists fs)) by done.
    pose proof (fresh_tree_rename _ _ _ _ _ _ nm new_name Hfresh1) as Hfr.
    fold h1 in Hfr.
    eapply (fresh_tree_frame h1 (lists fs1)); [done|apply Hfr| |].
    + destruct nm; cbn; congruence.
    + intros y Hy _.
      unfold add_child in Hadd. apply bind_Some in Hadd as (sd & Hsd & [= <-]).
      rewrite !list_lookup_alter_ne by (done || lia). done.
    + intros m Hm. rewrite Hcn1 in Hm. injection Hm as <-.
      destruct Hkd1 as (sd & Hsd & _).
      exists (set_next (child sd) (rename_to nm cn)). split; [|done].
      by rewrite (add_child_lookup_child _ _ _ _ _ Hadd Hne Hsd), Hcn1.
Qed.

Lemma deep_copy_source fuel fs s d r :
  deep_copy fuel fs s d = Some r → is_Some (nodes fs !! s).
Proof.
  destruct fuel; [done|]. rewrite deep_copy_unfold. intros H.
  apply bind_Some in H as (n & Hn & _). by exists n.
Qed.

(** What a successful [cp] did: the source [s], the directory [d] that
    received the copy, and the name of the copy. *)
Lemma cp_command_Ok fs args out fs' :
  cp_command fs args = Some (Ok out, fs') →
  ∃ cmd source_path destination_path s sn d dn nm fs1 copy h,
    args = [cmd; source_path; destination_path]
    ∧ get_node_by_path fs source_path = Some (Some s)
    ∧ nodes fs !! s = Some sn
    ∧ destination fs destination_path d nm
    ∧ nodes fs !! d = Some dn ∧ is_file dn = false
    ∧ find_child (nodes fs) d (arrival_name nm sn) = Some None
    ∧ deep_copy (subtree_fuel (nodes fs)) fs s d = Some (fs1, copy)
    ∧ add_child (alter (rename_to nm) copy (nodes fs1)) d copy = Some h
    ∧ fs' = with_nodes h fs1.
Proof.
  intros H. unfold cp_command in H. crunch; subst; try done.
  - match goal with
    | Hdc : deep_copy _ fs ?src ?d = Some (?fs1, ?copy),
      Hsn : nodes fs !! ?src = Some ?sn, Hdn : nodes fs !! ?d = Some ?dn,
      Hadd : add_child _ ?d ?copy = Some ?h |- _ =>
        eexists _, _, _, src, sn, d, dn, None, fs1, copy, h
    end.
    split; [reflexivity|].
    split_and!; try done; [by left|]. cbn. by rewrite list_alter_id.
  - match goal with
    | Hdc : deep_copy _ fs ?src ?d = Some (?fs1, ?copy),
      Hdn : nodes fs !! ?d = Some ?dn,
      Hadd : add_child (alter (set_name ?new) _ _) ?d ?copy = Some ?h |- _ =>
        destruct (deep_copy_source _ _ _ _ _ Hdc) as [sn Hsn];
        eexists _, _, _, src, sn, d, dn, (Some new), fs1, copy, h
    end.
    split; [reflexivity|].
    split_and!; try done. right. split; [done|].
    match goal with Hs : split_dest _ = _ |- _ => rewrite Hs end. done.
Qed.

Lemma cp_command_wf fs args res fs' :
  wf fs → cp_command fs args = Some (res, fs') → wf fs'.
Proof.
  intros Hwf H. destruct res as [out|msg].
  - destruct (cp_command_Ok _ _ _ _ H)
      as (cmd & sp & dp & s & sn & d & dn & nm & fs1 & copy & h
          & -> & Hs & Hsn & Hdest & Hdn & Hdir & Hfind & Hdc & Hadd & ->).
    eapply (copy_into _ fs s sn d nm); eauto. by eapply lookup_lt_Some.
  - by rewrite (cp_command_error _ _ _ _ H).
Qed.

(** ** Every reachable store is well formed *)

Lemma init_wf : wf init.
Proof.
  constructor; cbn.
  - split; [done|]. by eexists.
  - by eexists.
  - intros [|r] n; [|done]. intros [= <-]. by repeat split.
  - intros [|r] n; [|done]. by intros [= <-].
  - intros [|p] n; [|done]. intros [= <-]. exists []. cbn. split; [done|].
    split; [by intros c ?%elem_of_nil|apply NoDup_nil_2].
Qed.

Lemma run_command_wf c fs args stdin res fs' stdin' :
  wf fs → run_command c fs args stdin = Some (res, fs', stdin') → wf fs'.
Proof.
  intros Hwf. destruct c; cbn [run_command]; unfold no_input; intros H;
    try (apply bind_Some in H as ([r f] & H & [= <- <- <-])).
  - by eapply mkdir_command_wf.
  - by eapply touch_command_wf.
  - by eapply cd_command_wf.
  - by eapply rm_command_wf.
  - by eapply rename_command_wf.
  - by eapply cp_command_wf.
  - by eapply mv_command_wf.
  - by eapply nwfiletxt_command_wf.
  - by eapply appendtxt_command_wf.
  - by eapply editline_command_wf.
  - by eapply deline_command_wf.
Qed.

Lemma ls_command_same fs args res fs' :
  ls_command fs args = Some (res, fs') → fs' = fs.
Proof. unfold ls_command. intros H. crunch; congruence. Qed.

Lemma cat_command_same fs args res fs' :
  cat_command fs args = Some (res, fs') → fs' = fs.
Proof. unfold cat_command. intros H. crunch; congruence. Qed.

(** [process_command] runs one of the writing commands or leaves the
    store as it is. *)
Lemma process_command_cases fs command_line stdin res fs' stdin' :
  process_command fs command_line stdin = Some (res, fs', stdin') →
  fs' = fs
  ∨ ∃ c, run_command c fs (Py.split_ws command_line) stdin = Some (res, fs', stdin').
Proof.
  unfold process_command. intros H.
  destruct (Py.split_ws command_line) as [|cmd args] eqn:Hargs.
  { left. by injection H as _ <- _. }
  repeat match type of H with
  | (if ?b then _ else _) = _ => destruct b
  end;
    lazymatch type of H with
    | no_input _ (ls_command _ _) = _ =>
        left; unfold no_input in H;
        apply bind_Some in H as ([r f] & H & [= <- <- <-]);
        by eapply ls_command_same
    | no_input _ (cat_command _ _) = _ =>
        left; unfold no_input in H;
        apply bind_Some in H as ([r f] & H & [= <- <- <-]);
        by eapply cat_command_same
    | Some _ = Some _ => left; by injection H as _ <- _
    | no_input _ (mkdir_command _ _) = _ => right; by exists Mkdir
    | no_input _ (touch_command _ _) = _ => right; by exists Touch
    | no_input _ (cd_command _ _) = _ => right; by exists Cd
    | no_input _ (rm_command _ _) = _ => right; by exists Rm
    | no_input _ (rename_command _ _) = _ => right; by exists Rename
    | no_input _ (cp_command _ _) = _ => right; by exists Cp
    | no_input _ (mv_command _ _) = _ => right; by exists Mv
    | nwfiletxt_command _ _ _ = _ => right; by exists Nwfiletxt
    | appendtxt_command _ _ _ = _ => right; by exists Appendtxt
    | no_input _ (editline_command _ _) = _ => right; by exists Editline
    | no_input _ (deline_command _ _) = _ => right; by exists Deline
    end.
Qed.

Lemma process_command_wf fs command_line stdin res fs' stdin' :
  wf fs → process_command fs command_line stdin = Some (res, fs', stdin') → wf fs'.
Proof.
  intros Hwf H. destruct (process_command_cases _ _ _ _ _ _ H) as [->|[c Hc]]; [done|].
  by eapply run_command_wf.
Qed.

Lemma reachable_wf fs : reachable fs → wf fs.
Proof.
  induction 1 as [|fs line stdin res fs' stdin' _ IH Hstep]; [apply init_wf|].
  by eapply process_command_wf.
Qed.

(** ** The root *)

Lemma reachable_root_parent fs :
  reachable fs → parent_of (nodes fs) (root fs) = None.
Proof.
  intros [[-> (n & Hn & _ & _ & Hp)] _ _ _ _]%reachable_wf.
  unfold parent_of. by rewrite Hn.
Qed.

(** C6.  In every reachable state the root is the object it was at the
    start, still called [root], still a directory and still without a
    parent; and [rm], [rename] and [mv] applied to any path that resolves to
    it print their refusal and leave the store unchanged. *)
Theorem root_is_protected fs path new_name destination_path :
  reachable fs →
  get_node_by_path fs path = Some (Some (root fs)) →
  root fs = root init
  ∧ (∃ n, nodes fs !! root fs = Some n
          ∧ name n = "root" ∧ is_file n = false ∧ parent n = None)
  ∧ rm_command fs ["rm"; path] = Some (Err "Cannot remove root directory.", fs)
  ∧ rename_command fs ["rename"; path; new_name]
    = Some (Err "Cannot rename root directory.", fs)
  ∧ mv_command fs ["mv"; path; destination_path]
    = Some (Err "Cannot move root directory.", fs).
Proof.
  intros Hreach Hpath.
  pose proof (reachable_wf _ Hreach) as [[Hroot (n & Hn & Hnm & Hf & Hp)] _ _ _ _].
  rewrite <- Hroot in Hn.
  split; [done|]. split; [by exists n|].
  unfold rm_command, rename_command, mv_command.
  rewrite Hpath. cbn. rewrite Hn. cbn. by rewrite Hp.
Qed.

Lemma root_is_protected_witness :
  root (state_after ["mkdir a"; "cd a"]) = root init
  ∧ (∃ n, nodes (state_after ["mkdir a"; "cd a"]) !! root (state_after ["mkdir a"; "cd a"])
          = Some n
          ∧ name n = "root" ∧ is_file n = false ∧ parent n = None)
  ∧ rm_command (state_after ["mkdir a"; "cd a"]) ["rm"; "../.."]
    = Some (Err "Cannot remove root directory.", state_after ["mkdir a"; "cd a"])
  ∧ rename_command (state_after ["mkdir a"; "cd a"]) ["rename"; "../.."; "top"]
    = Some (Err "Cannot rename root directory.", state_after ["mkdir a"; "cd a"])
  ∧ mv_command (state_after ["mkdir a"; "cd a"]) ["mv"; "../.."; "a"]
    = Some (Err "Cannot move root directory.", state_after ["mkdir a"; "cd a"]).
Proof.
  apply (root_is_protected (state_after ["mkdir a"; "cd a"]) "../.." "top" "a").
  - apply state_after_reachable.
  - reflexivity.
Defined.

(** In a reachable state [get_node_by_path] is the resolution of the
    specification. *)
Corollary reachable_get_node_by_path fs path :
  reachable fs → get_node_by_path fs path = resolve fs path (current fs).
Proof.
  intros Hreach. pose proof (reachable_root_parent _ Hreach) as Hroot.
  unfold get_node_by_path, resolve.
  destruct (Py.startswith Py.slash path) eqn:Hs.
  - destruct (String.eqb_spec path "/") as [->|Hne]; [done|].
    rewrite <- (resolve_segments_strip fs (root fs) path).
    by apply (walk_resolve_segments fs).
  - by apply (walk_resolve_segments fs).
Qed.

(** ** Insertion is at the head of the chain *)

Lemma command_error_same c fs args stdin msg fs' stdin' :
  run_command c fs args stdin = Some (Err msg, fs', stdin') → fs' = fs.
Proof.
  destruct c; cbn [run_command];
    unfold no_input, mkdir_command, touch_command, touch_tail, cd_command,
      rm_command, rename_command, cp_command, mv_command, nwfiletxt_command,
      appendtxt_command, editline_command, deline_command;
    intros H; crunch;
    try congruence; subst; eauto using create_in_error, edit_at_error.
Qed.

Lemma ls_names_chain fuel h o l :
  chain h o l → length l ≤ fuel → ls_names fuel h o = Some (label h <$> l).
Proof.
  revert o l. induction fuel as [|fuel IH]; intros o [|c l]; cbn.
  - by intros ->.
  - lia.
  - by intros ->.
  - intros [-> (n & Hn & Hl)] Hlen. rewrite Hn. cbn.
    rewrite (IH _ _ Hl) by lia. cbn.
    assert (label h c = if is_file n then name n else name n +:+ "/") as ->
      by (unfold label; by rewrite Hn).
    done.
Qed.

Lemma kids_alter_keep h f x p l :
  (∀ n, next (f n) = next n ∧ child (f n) = child n) →
  kids h p l → kids (alter f x h) p l.
Proof.
  intros Hf (n & Hn & Hl).
  assert (Hl' : chain (alter f x h) (child n) l).
  { apply chain_alter_next; [|done]. intros m. by destruct (Hf m). }
  destruct (decide (x = p)) as [->|Hne].
  - exists (f n). rewrite list_lookup_alter_eq, Hn. split; [done|].
    by destruct (Hf n) as [_ ->].
  - exists n. by rewrite list_lookup_alter_ne.
Qed.

Lemma create_in_kids fs target nm file out o fs' :
  wf fs → target < length (nodes fs) →
  create_in fs target nm file out = Some (Ok o, fs') →
  ∀ p l, kids (nodes fs) p l →
         kids (nodes fs') p
           (after_step (Some (length (nodes fs), target)) None p l).
Proof.
  intros Hwf Htarget H p l Hk. unfold create_in in H.
  apply bind_Some in H as (dup & Hdup & H).
  destruct dup as [d|]; [done|].
  destruct (new_node fs nm file (Some target)) as [fs1 new] eqn:Hnew.
  apply bind_Some in H as (h & Hadd & [= _ <-]).
  destruct (new_node_wf _ _ _ _ _ _ Hwf (valid_ref_Some _ _ Htarget) Hnew)
    as [Hwf1 Hun].
  destruct (new_node_spec _ _ _ _ _ _ Hnew) as (-> & _ & _ & m & Hnodes & _).
  assert (Hk1 : kids (nodes fs1) p l) by (rewrite Hnodes; by apply kids_alloc).
  cbn. destruct (decide (p = target)) as [->|Hne].
  - eapply add_child_kids_self; [done| |lia|done|done].
    rewrite Hnodes, length_app. cbn. lia.
  - by eapply add_child_kids_other.
Qed.

(** What a successful [create_in] leaves behind. *)
Lemma create_in_Ok fs target nm file out o fs' :
  target < length (nodes fs) →
  create_in fs target nm file out = Some (Ok o, fs') →
  o = out ∧ find_child (nodes fs) target nm = Some None
  ∧ root fs' = root fs ∧ current fs' = current fs
  ∧ length (nodes fs') = S (length (nodes fs))
  ∧ lists fs' = (if file then lists fs ++ [[]] else lists fs)
  ∧ (∃ n, nodes fs' !! length (nodes fs) = Some n
          ∧ name n = nm ∧ is_file n = file ∧ parent n = Some target
          ∧ child n = None
          ∧ content n = (if file then Some (length (lists fs)) else None))
  ∧ (∀ x n, nodes fs !! x = Some n →
       ∃ n', nodes fs' !! x = Some n'
             ∧ name n' = name n ∧ is_file n' = is_file n
             ∧ parent n' = parent n ∧ content n' = content n).
Proof.
  intros Htarget H. unfold create_in in H.
  apply bind_Some in H as (dup & Hdup & H).
  destruct dup as [x|]; [done|].
  destruct (new_node fs nm file (Some target)) as [fs1 new] eqn:Hnew.
  apply bind_Some in H as (h & Hadd & [= <- <-]).
  destruct (new_node_spec _ _ _ _ _ _ Hnew)
    as (-> & Hroot & Hcur & m & Hnodes & Hnm & Hfile & Hparent & Hchild & Hnext & Hl).
  destruct (lookup_lt_is_Some_2 _ _ Htarget) as [tn Htn].
  assert (Htn1 : nodes fs1 !! target = Some tn).
  { rewrite Hnodes. by apply lookup_app_l_Some. }
  rewrite (add_child_Some _ _ _ _ Htn1) in Hadd. injection Hadd as <-.
  assert (Hm : nodes fs1 !! length (nodes fs) = Some m).
  { rewrite Hnodes. by apply list_lookup_middle. }
  cbn [nodes lists root current with_nodes].
  split; [done|]. split; [done|]. split; [done|]. split; [done|]. split.
  { rewrite !length_alter, Hnodes, length_app. cbn. lia. }
  split; [by destruct file; destruct Hl|]. split.
  - exists (set_next (child tn) m).
    rewrite list_lookup_alter_ne by lia.
    rewrite list_lookup_alter_eq, Hm. cbn. split; [done|].
    split_and!; try done. by destruct file; destruct Hl.
  - intros x n Hn. pose proof (lookup_lt_Some _ _ _ Hn) as Hx.
    assert (Hn1 : nodes fs1 !! x = Some n).
    { rewrite Hnodes. by apply lookup_app_l_Some. }
    destruct (decide (target = x)) as [->|Hne].
    + rewrite list_lookup_alter_eq, list_lookup_alter_ne by lia.
      rewrite Hn1. cbn. by eexists.
    + rewrite list_lookup_alter_ne by done.
      rewrite list_lookup_alter_ne by lia. by exists n.
Qed.

(** Taking [t] out of its parent's chain, seen from any node. *)
Lemma unlink_kids h par t h' tn p l :
  chains_ok h → unlink h par t = Some h' →
  h !! t = Some tn → parent tn = Some par →
  kids h p l → kids h' p (without t l).
Proof.
  intros Hok H Ht Hpar Hk.
  destruct (unlink_cases _ _ _ _ H) as (pn & _ & Hpn & _ & _).
  destruct (Hok par pn Hpn) as (lpar & Hlpar & _).
  destruct (decide (p = par)) as [->|Hne].
  - by eapply unlink_kids_par.
  - rewrite without_notin.
    + eapply unlink_kids_other; [done|done|by exists pn|done|done].
    + intros Hin. apply Hne. destruct Hk as (n & Hn & Hl).
      destruct (Hok p n Hn) as (l0 & Hl0 & Hparents & _).
      rewrite (chain_det _ _ _ _ Hl Hl0) in Hin. apply Hparents in Hin.
      unfold parent_of in Hin. rewrite Ht in Hin. cbn in Hin. congruence.
Qed.

Lemma rm_command_Ok fs args out fs' :
  rm_command fs args = Some (Ok out, fs') →
  ∃ cmd path t tn par h,
    args = [cmd; path]
    ∧ get_node_by_path fs path = Some (Some t)
    ∧ nodes fs !! t = Some tn ∧ parent tn = Some par
    ∧ unlink (nodes fs) par t = Some h
    ∧ fs' = with_nodes h fs.
Proof.
  intros H. unfold rm_command in H. crunch; subst; try done.
  match goal with
  | Hun : unlink _ ?par ?t = Some ?h, Ht : nodes fs !! ?t = Some ?tn |- _ =>
      eexists _, _, t, tn, par, h
  end.
  split; [reflexivity|]. by split_and!.
Qed.

Lemma mv_command_Ok fs args out fs' :
  mv_command fs args = Some (Ok out, fs') →
  ∃ cmd source_path destination_path s sn par d dn nm h1 h,
    args = [cmd; source_path; destination_path]
    ∧ get_node_by_path fs source_path = Some (Some s)
    ∧ nodes fs !! s = Some sn ∧ parent sn = Some par
    ∧ destination fs destination_path d nm
    ∧ nodes fs !! d = Some dn ∧ is_file dn = false
    ∧ find_child (nodes fs) d (arrival_name nm sn) = Some None
    ∧ unlink (nodes fs) par s = Some h1
    ∧ relink h1 s d nm = Some h
    ∧ fs' = with_nodes h fs.
Proof.
  intros H. unfold mv_command in H. crunch; subst; try done.
  - match goal with
    | Hun : unlink _ ?par ?src = Some ?h1, Hre : relink ?h1 ?src ?d None = Some ?h,
      Hsn : nodes fs !! ?src = Some ?sn, Hdn : nodes fs !! ?d = Some ?dn |- _ =>
        eexists _, _, _, src, sn, par, d, dn, None, h1, h
    end.
    split; [reflexivity|]. split_and!; try done. by left.
  - match goal with
    | Hun : unlink _ ?par ?src = Some ?h1,
      Hre : relink ?h1 ?src ?d (Some ?new) = Some ?h,
      Hsn : nodes fs !! ?src = Some ?sn, Hdn : nodes fs !! ?d = Some ?dn |- _ =>
        eexists _, _, _, src, sn, par, d, dn, (Some new), h1, h
    end.
    split; [reflexivity|]. split_and!; try done. right. split; [done|].
    match goal with Hs : split_dest _ = _ |- _ => rewrite Hs end. done.
Qed.

Lemma move_kids h s sn par d nm h1 h' p l :
  chains_ok h → h !! s = Some sn → parent sn = Some par →
  unlink h par s = Some h1 → relink h1 s d nm = Some h' →
  kids h p l → kids h' p (after_step (Some (s, d)) (Some s) p l).
Proof.
  intros Hok Hs Hpar Hun Hre Hk.
  assert (Hlen : s < length h1).
  { rewrite (unlink_length _ _ _ _ Hun). by eapply lookup_lt_Some. }
  pose proof (unlink_unchained _ _ _ _ _ Hok Hun Hs Hpar) as Hunch.
  pose proof (unlink_kids _ _ _ _ _ _ _ Hok Hun Hs Hpar Hk) as Hk1.
  cbn. destruct (decide (p = d)) as [->|Hne].
  - by eapply relink_kids_dst.
  - by eapply relink_kids_other.
Qed.

Lemma copy_kids fs fs' d copy p l :
  grows fs fs' (λ y, y ≠ d) →
  nodes fs' !! d = set_child (Some copy) <$> nodes fs !! d →
  p ≠ d → kids (nodes fs) p l → kids (nodes fs') p l.
Proof.
  intros Hg Hd Hne (n & Hn & Hl). exists n. split.
  - rewrite (grows_lookup _ _ _ _ Hg); [done|by eapply lookup_lt_Some|done].
  - eapply chain_frame; [done|]. intros c m Hc Hm.
    destruct (decide (c = d)) as [->|Hcd].
    + rewrite Hd, Hm. by eexists.
    + exists m. split; [|done].
      rewrite (grows_lookup _ _ _ _ Hg); [done|by eapply lookup_lt_Some|done].
Qed.

(** The first node of a chain names the owner of the chain as its parent. *)
Lemma head_parent h d x l :
  chains_ok h → kids h d (x :: l) → parent_of h x = Some d.
Proof.
  intros Hok (n & Hn & Hl). destruct (Hok d n Hn) as (l0 & Hl0 & Hpar & _).
  rewrite (chain_det _ _ _ _ Hl0 Hl) in Hpar. apply Hpar. by left.
Qed.

(** The end of [mkdir] and [touch]: the new cell is the first child of the
    directory [d], in front of the children that [d] had. *)
Lemma create_in_first fs d nm file out o fs' :
  wf fs → d < length (nodes fs) →
  create_in fs d nm file out = Some (Ok o, fs') →
  (∀ p l, kids (nodes fs) p l →
     kids (nodes fs') p (after_step (Some (length (nodes fs), d)) None p l))
  ∧ ∃ l, children (nodes fs) d = Some l
         ∧ children (nodes fs') d = Some (length (nodes fs) :: l)
         ∧ parent_of (nodes fs') (length (nodes fs)) = Some d
         ∧ name_of (nodes fs') (length (nodes fs)) = Some nm.
Proof.
  intros Hwf Hd H.
  pose proof (create_in_kids _ _ _ _ _ _ _ Hwf Hd H) as Hkids.
  split; [done|].
  destruct (lookup_lt_is_Some_2 _ _ Hd) as [dn Hdn].
  destruct (wf_chains _ Hwf d dn Hdn) as (l & Hl & _).
  assert (Hk : kids (nodes fs) d l) by (by exists dn).
  pose proof (Hkids d l Hk) as Hk'. cbn in Hk'.
  rewrite decide_True in Hk' by done.
  destruct (create_in_Ok _ _ _ _ _ _ _ Hd H)
    as (_ & _ & _ & _ & _ & _ & (n & Hn & Hnm & _ & Hpar & _) & _).
  exists l. split; [by apply kids_children|]. split; [by apply kids_children|].
  split.
  - unfold parent_of. by rewrite Hn.
  - unfold name_of. rewrite Hn. cbn. by rewrite Hnm.
Qed.

Lemma mkdir_command_Ok fs args out fs' :
  wf fs → mkdir_command fs args = Some (Ok out, fs') →
  ∃ d nm, placed fs args d nm ∧ d < length (nodes fs)
          ∧ create_in fs d nm false [] = Some (Ok out, fs').
Proof.
  intros Hwf H. unfold mkdir_command in H.
  destruct args as [|cmd [|a [|b [|? ?]]]]; try done.
  - destruct (wf_current _ Hwf) as (cn & Hcn & _).
    exists (current fs), a. split; [left; by exists cmd|].
    split; [by eapply lookup_lt_Some|done].
  - apply bind_Some in H as (target & Htarget & H).
    destruct target as [t|]; [|done].
    apply bind_Some in H as (n & Hn & H). destruct (is_file n); [done|].
    exists t, b. split; [right; by exists cmd, a|].
    split; [by eapply lookup_lt_Some|done].
Qed.

Lemma touch_command_Ok fs args out fs' :
  wf fs → touch_command fs args = Some (Ok out, fs') →
  ∃ d nm o, placed fs args d nm ∧ d < length (nodes fs)
            ∧ create_in fs d nm true o = Some (Ok out, fs').
Proof.
  intros Hwf H. unfold touch_command, touch_tail in H.
  destruct args as [|cmd [|a [|b [|? ?]]]]; try done.
  - destruct (wf_current _ Hwf) as (cn & Hcn & _).
    destruct (negb _); [done|].
    exists (current fs), a. eexists. split; [left; by exists cmd|].
    split; [by eapply lookup_lt_Some|done].
  - apply bind_Some in H as (target & Htarget & H).
    destruct target as [t|]; [|done].
    apply bind_Some in H as (n & Hn & H). destruct (is_file n); [done|].
    destruct (negb _); [done|].
    exists t, b. eexists. split; [right; by exists cmd, a|].
    split; [by eapply lookup_lt_Some|done].
Qed.

(** The insertion of the copy at the end of [cp]. *)
Lemma cp_command_kids fs args out fs' :
  wf fs → cp_command fs args = Some (Ok out, fs') →
  ∃ cmd source_path destination_path s sn d nm l,
    args = [cmd; source_path; destination_path]
    ∧ get_node_by_path fs source_path = Some (Some s)
    ∧ nodes fs !! s = Some sn
    ∧ destination fs destination_path d nm
    ∧ (∀ p l, kids (nodes fs) p l →
         kids (nodes fs') p (after_step (Some (length (nodes fs), d)) None p l))
    ∧ children (nodes fs) d = Some l
    ∧ children (nodes fs') d = Some (length (nodes fs) :: l)
    ∧ parent_of (nodes fs') (length (nodes fs)) = Some d
    ∧ name_of (nodes fs') (length (nodes fs)) = Some (arrival_name nm sn).
Proof.
  intros Hwf H.
  destruct (cp_command_Ok _ _ _ _ H)
    as (cmd & sp & dp & s & sn & d & dn & nm & fs1 & copy & h
        & -> & Hs & Hsn & Hdest & Hdn & Hdir & Hfind & Hdc & Hadd & ->).
  destruct (copy_into _ fs s sn d nm _ fs1 copy h Hwf Hsn
              (lookup_lt_Some _ _ _ Hdn) eq_refl Hfind Hdc Hadd)
    as (Hwf' & -> & Hg & Hd & Hkd & t & Ht & Hfresh).
  destruct (wf_chains _ Hwf d dn Hdn) as (l & Hl & _).
  assert (Hk : kids (nodes fs) d l) by (by exists dn).
  pose proof (Hkd l Hk) as Hk'.
  exists cmd, sp, dp, s, sn, d, nm, l.
  split; [done|]. split; [done|]. split; [done|]. split; [done|]. split.
  { intros p l0 Hk0. cbn. destruct (decide (p = d)) as [->|Hne].
    - by apply Hkd.
    - by apply (copy_kids fs (with_nodes h fs1) d (length (nodes fs))). }
  split; [by apply kids_children|]. split; [by apply kids_children|]. split.
  - apply (head_parent _ _ _ l); [by apply (wf_chains _ Hwf')|done].
  - cbn [nodes with_nodes] in *.
    destruct Hk' as (dn' & _ & _ & n & Hn & _).
    unfold name_of. rewrite Hn. cbn. f_equal.
    apply fresh_tree_is_tree in Hfresh.
    rewrite <- (is_tree_name _ _ _ _ _ Hfresh Hn).
    unfold arrival_name. by destruct (mirror t).
Qed.

Lemma rm_command_kids fs args out fs' :
  wf fs → rm_command fs args = Some (Ok out, fs') →
  ∃ cmd path t,
    args = [cmd; path] ∧ get_node_by_path fs path = Some (Some t)
    ∧ ∀ p l, kids (nodes fs) p l →
        kids (nodes fs') p (after_step None (Some t) p l).
Proof.
  intros Hwf H.
  destruct (rm_command_Ok _ _ _ _ H)
    as (cmd & path & t & tn & par & h & -> & Hp & Ht & Hpar & Hun & ->).
  exists cmd, path, t. split; [done|]. split; [done|].
  intros p l Hk. cbn. eapply unlink_kids; [by apply wf_chains|done..].
Qed.

(** The reattachment at the end of [mv]. *)
Lemma mv_command_kids fs args out fs' :
  wf fs → mv_command fs args = Some (Ok out, fs') →
  ∃ cmd source_path destination_path s sn d nm l,
    args = [cmd; source_path; destination_path]
    ∧ get_node_by_path fs source_path = Some (Some s)
    ∧ nodes fs !! s = Some sn
    ∧ destination fs destination_path d nm
    ∧ (∀ p l, kids (nodes fs) p l →
         kids (nodes fs') p (after_step (Some (s, d)) (Some s) p l))
    ∧ children (nodes fs) d = Some l
    ∧ children (nodes fs') d = Some (s :: without s l)
    ∧ parent_of (nodes fs') s = Some d
    ∧ name_of (nodes fs') s = Some (arrival_name nm sn).
Proof.
  intros Hwf H. pose proof (mv_command_wf _ _ _ _ Hwf H) as Hwf'.
  destruct (mv_command_Ok _ _ _ _ H)
    as (cmd & sp & dp & s & sn & par & d & dn & nm & h1 & h
        & -> & Hs & Hsn & Hpar & Hdest & Hdn & Hdir & Hfind & Hun & Hre & ->).
  assert (Hkids : ∀ p l, kids (nodes fs) p l →
            kids h p (after_step (Some (s, d)) (Some s) p l)).
  { intros p l Hk.
    exact (move_kids _ s sn par d nm h1 h p l (wf_chains _ Hwf) Hsn Hpar Hun Hre Hk). }
  destruct (wf_chains _ Hwf d dn Hdn) as (l & Hl & _).
  assert (Hk : kids (nodes fs) d l) by (by exists dn).
  pose proof (Hkids d l Hk) as Hk'. cbn in Hk'.
  rewrite decide_True in Hk' by done.
  assert (Hlen : s < length h1).
  { rewrite (unlink_length _ _ _ _ Hun). by eapply lookup_lt_Some. }
  exists cmd, sp, dp, s, sn, d, nm, l.
  split; [done|]. split; [done|]. split; [done|]. split; [done|].
  split; [done|].
  split; [by apply kids_children|]. split; [by apply kids_children|]. split.
  - cbn. rewrite (relink_parent_of _ _ _ _ _ s Hre Hlen). by rewrite decide_True.
  - cbn. rewrite (relink_name_of _ _ _ _ _ s Hre Hlen). rewrite decide_True by done.
    rewrite (unlink_name_of _ _ _ _ s Hun). unfold name_of, arrival_name.
    rewrite Hsn. by destruct nm.
Qed.

Lemma rename_command_kids fs args res fs' p l :
  rename_command fs args = Some (res, fs') →
  kids (nodes fs) p l → kids (nodes fs') p l.
Proof.
  intros H Hk. unfold rename_command in H. crunch; subst; try done.
  cbn. by apply kids_alter_keep.
Qed.

Lemma cd_command_nodes fs args res fs' :
  cd_command fs args = Some (res, fs') → nodes fs' = nodes fs.
Proof. intros H. unfold cd_command in H. crunch; by subst. Qed.

Lemma nwfiletxt_command_kids fs args stdin res fs' stdin' p l :
  nwfiletxt_command fs args stdin = Some (res, fs', stdin') →
  kids (nodes fs) p l → kids (nodes fs') p l.
Proof.
  intros H Hk. unfold nwfiletxt_command in H. crunch; subst; try done.
  cbn. by apply kids_alter_keep.
Qed.

Lemma edit_at_nodes fs n number edit res fs' :
  edit_at fs n number edit = Some (res, fs') → nodes fs' = nodes fs.
Proof. intros H. unfold edit_at in H. crunch; by subst. Qed.

Lemma appendtxt_command_nodes fs args stdin res fs' stdin' :
  appendtxt_command fs args stdin = Some (res, fs', stdin') → nodes fs' = nodes fs.
Proof. intros H. unfold appendtxt_command in H. crunch; by subst. Qed.

Lemma editline_command_nodes fs args res fs' :
  editline_command fs args = Some (res, fs') → nodes fs' = nodes fs.
Proof.
  intros H. unfold editline_command in H.
  crunch; subst; try done; by eapply edit_at_nodes.
Qed.

Lemma deline_command_nodes fs args res fs' :
  deline_command fs args = Some (res, fs') → nodes fs' = nodes fs.
Proof.
  intros H. unfold deline_command in H.
  crunch; subst; try done; by eapply edit_at_nodes.
Qed.

(** C9.  Every insertion of a child puts the node in front of the
    children collection of the directory that the arguments name.  After a
    successful [mkdir] or [touch] the new cell is the first child of the
    directory [d] that the arguments name (the cursor, or the node of the
    path), followed by the children that [d] had, in their order; after a
    successful [cp] the copy of the source is the first child of the
    destination directory, followed by the children it had; after a
    successful [mv] the source node is the first child of the destination
    directory, followed by the children it had, without the source if it
    was among them.  In each case the inserted node names [d] as its parent
    and bears the name it arrives under.  Every other children collection
    stays as it is, except that [rm] and [mv] take the node out of the one
    it was in; the nodes that stay keep their order.  So in every
    well-formed store, and hence in every reachable one, each collection
    lists the children from the most recently inserted to the oldest, and
    that is the order in which [ls] prints them. *)
Theorem insertion_prepends c fs args stdin res fs' stdin' :
  wf fs →
  run_command c fs args stdin = Some (res, fs', stdin') →
  ∃ ins gone,
    (∀ p l, kids (nodes fs) p l → kids (nodes fs') p (after_step ins gone p l))
    ∧ match c, res with
      | (Mkdir | Touch), Ok _ =>
          ∃ d nm l,
            placed fs args d nm
            ∧ ins = Some (length (nodes fs), d) ∧ gone = None
            ∧ children (nodes fs) d = Some l
            ∧ children (nodes fs') d = Some (length (nodes fs) :: l)
            ∧ parent_of (nodes fs') (length (nodes fs)) = Some d
            ∧ name_of (nodes fs') (length (nodes fs)) = Some nm
      | Cp, Ok _ =>
          ∃ cmd source_path destination_path s sn d nm l,
            args = [cmd; source_path; destination_path]
            ∧ get_node_by_path fs source_path = Some (Some s)
            ∧ nodes fs !! s = Some sn
            ∧ destination fs destination_path d nm
            ∧ ins = Some (length (nodes fs), d) ∧ gone = None
            ∧ children (nodes fs) d = Some l
            ∧ children (nodes fs') d = Some (length (nodes fs) :: l)
            ∧ parent_of (nodes fs') (length (nodes fs)) = Some d
            ∧ name_of (nodes fs') (length (nodes fs)) = Some (arrival_name nm sn)
      | Mv, Ok _ =>
          ∃ cmd source_path destination_path s sn d nm l,
            args = [cmd; source_path; destination_path]
            ∧ get_node_by_path fs source_path = Some (Some s)
            ∧ nodes fs !! s = Some sn
            ∧ destination fs destination_path d nm
            ∧ ins = Some (s, d) ∧ gone = Some s
            ∧ children (nodes fs) d = Some l
            ∧ children (nodes fs') d = Some (s :: without s l)
            ∧ parent_of (nodes fs') s = Some d
            ∧ name_of (nodes fs') s = Some (arrival_name nm sn)
      | Rm, Ok _ =>
          ∃ cmd path t,
            args = [cmd; path]
            ∧ get_node_by_path fs path = Some (Some t)
            ∧ ins = None ∧ gone = Some t
      | _, _ => ins = None ∧ gone = None
      end
    ∧ (∀ p n l, nodes fs' !! p = Some n → kids (nodes fs') p l →
         ls_names (length (nodes fs')) (nodes fs') (child n)
         = Some (label (nodes fs') <$> l)
         ∧ ls_command (with_current p fs') ["ls"]
           = Some (Ok [match l with
                       | [] => "Empty directory."
                       | _ => Py.join (String "009"%char "")
                                (label (nodes fs') <$> l)
                       end], with_current p fs')).
Proof.
  intros Hwf H.
  assert (Hls : ∀ p n l, nodes fs' !! p = Some n → kids (nodes fs') p l →
            ls_names (length (nodes fs')) (nodes fs') (child n)
            = Some (label (nodes fs') <$> l)
            ∧ ls_command (with_current p fs') ["ls"]
              = Some (Ok [match l with
                          | [] => "Empty directory."
                          | _ => Py.join (String "009"%char "")
                                   (label (nodes fs') <$> l)
                          end], with_current p fs')).
  { intros p n l Hn (n' & Hn' & Hl). rewrite Hn in Hn'. injection Hn' as <-.
    assert (Hnames : ls_names (length (nodes fs')) (nodes fs') (child n)
                     = Some (label (nodes fs') <$> l)).
    { apply ls_names_chain; [done|]. by eapply chain_length. }
    split; [done|]. unfold ls_command. cbn [nodes current with_current].
    rewrite Hn. cbn [mbind option_bind]. rewrite Hnames. cbn [mbind option_bind].
    by destruct l. }
  destruct res as [out|msg].
  2:{ rewrite (command_error_same _ _ _ _ _ _ _ H) in *.
      exists None, None. split; [done|]. split; [by destruct c|done]. }
  destruct c; cbn [run_command] in H; unfold no_input in H;
    try (apply bind_Some in H as ([r f] & H & [= -> -> ->])).
  - destruct (mkdir_command_Ok _ _ _ _ Hwf H) as (d & nm & Hplaced & Hd & Hc).
    destruct (create_in_first _ _ _ _ _ _ _ Hwf Hd Hc)
      as (Hkids & l & Hl & Hl' & Hpar & Hname).
    exists (Some (length (nodes fs), d)), None. split; [done|]. split; [|done].
    exists d, nm, l. by split_and!.
  - destruct (touch_command_Ok _ _ _ _ Hwf H) as (d & nm & o & Hplaced & Hd & Hc).
    destruct (create_in_first _ _ _ _ _ _ _ Hwf Hd Hc)
      as (Hkids & l & Hl & Hl' & Hpar & Hname).
    exists (Some (length (nodes fs), d)), None. split; [done|]. split; [|done].
    exists d, nm, l. by split_and!.
  - exists None, None. rewrite (cd_command_nodes _ _ _ _ H) in *.
    split; [done|]. split; [done|]. intros p n l Hn Hk.
    by apply Hls; rewrite ?(cd_command_nodes _ _ _ _ H).
  - destruct (rm_command_kids _ _ _ _ Hwf H) as (cmd & path & t & -> & Hp & Ht).
    exists None, (Some t). split; [done|]. split; [|done].
    by exists cmd, path, t.
  - exists None, None. split; [|by split].
    intros p l Hk. by eapply rename_command_kids.
  - destruct (cp_command_kids _ _ _ _ Hwf H)
      as (cmd & sp & dp & s & sn & d & nm & l & -> & Hs & Hsn & Hdest & Hkids
          & Hl & Hl' & Hpar & Hname).
    exists (Some (length (nodes fs), d)), None. split; [done|]. split; [|done].
    exists cmd, sp, dp, s, sn, d, nm, l. by split_and!.
  - destruct (mv_command_kids _ _ _ _ Hwf H)
      as (cmd & sp & dp & s & sn & d & nm & l & -> & Hs & Hsn & Hdest & Hkids
          & Hl & Hl' & Hpar & Hname).
    exists (Some (s, d)), (Some s). split; [done|]. split; [|done].
    exists cmd, sp, dp, s, sn, d, nm, l. by split_and!.
  - exists None, None. split; [|by split].
    intros p l Hk. by eapply nwfiletxt_command_kids.
  - exists None, None. rewrite (appendtxt_command_nodes _ _ _ _ _ _ H) in *.
    split; [done|]. split; [done|]. intros p n l Hn Hk. by apply Hls.
  - exists None, None. rewrite (editline_command_nodes _ _ _ _ H) in *.
    split; [done|]. split; [done|]. intros p n l Hn Hk. by apply Hls.
  - exists None, None. rewrite (deline_command_nodes _ _ _ _ H) in *.
    split; [done|]. split; [done|]. intros p n l Hn Hk. by apply Hls.
Qed.

Lemma insertion_prepends_witness :
  ∃ ins gone,
    (∀ p l, kids (nodes (state_after ["mkdir a"; "touch b.txt"])) p l →
       kids (nodes (state_after ["mkdir a"; "touch b.txt"; "mkdir c"])) p
         (after_step ins gone p l))
    ∧ (∃ d nm l,
         placed (state_after ["mkdir a"; "touch b.txt"]) ["mkdir"; "c"] d nm
         ∧ ins = Some (length (nodes (state_after ["mkdir a"; "touch b.txt"])), d)
         ∧ gone = None
         ∧ children (nodes (state_after ["mkdir a"; "touch b.txt"])) d = Some l
         ∧ children (nodes (state_after ["mkdir a"; "touch b.txt"; "mkdir c"])) d
           = Some (length (nodes (state_after ["mkdir a"; "touch b.txt"])) :: l)
         ∧ parent_of (nodes (state_after ["mkdir a"; "touch b.txt"; "mkdir c"]))
             (length (nodes (state_after ["mkdir a"; "touch b.txt"]))) = Some d
         ∧ name_of (nodes (state_after ["mkdir a"; "touch b.txt"; "mkdir c"]))
             (length (nodes (state_after ["mkdir a"; "touch b.txt"]))) = Some nm)
    ∧ (∀ p n l,
         nodes (state_after ["mkdir a"; "touch b.txt"; "mkdir c"]) !! p = Some n →
         kids (nodes (state_after ["mkdir a"; "touch b.txt"; "mkdir c"])) p l →
         ls_names (length (nodes (state_after ["mkdir a"; "touch b.txt"; "mkdir c"])))
           (nodes (state_after ["mkdir a"; "touch b.txt"; "mkdir c"])) (child n)
         = Some (label (nodes (state_after ["mkdir a"; "touch b.txt"; "mkdir c"])) <$> l)
         ∧ ls_command
             (with_current p (state_after ["mkdir a"; "touch b.txt"; "mkdir c"])) ["ls"]
           = Some (Ok [match l with
                       | [] => "Empty directory."
                       | _ => Py.join (String "009"%char "")
                                (label (nodes (state_after
                                   ["mkdir a"; "touch b.txt"; "mkdir c"])) <$> l)
                       end],
                   with_current p (state_after ["mkdir a"; "touch b.txt"; "mkdir c"]))).
Proof.
  apply (insertion_prepends Mkdir (state_after ["mkdir a"; "touch b.txt"])
           ["mkdir"; "c"] [] (Ok [])
           (state_after ["mkdir a"; "touch b.txt"; "mkdir c"]) []).
  - apply reachable_wf, state_after_reachable.
  - vm_compute. reflexivity.
Defined.

(** Three insertions into the root, then a move into it: [ls] shows the
    newest first. *)
Example ls_newest_first :
  children (nodes (state_after ["mkdir a"; "touch b.txt"; "mkdir c"])) 0
  = Some [3; 2; 1]
  ∧ (label (nodes (state_after ["mkdir a"; "touch b.txt"; "mkdir c"])) <$> [3; 2; 1])
    = ["c/"; "b.txt"; "a/"]
  ∧ children (nodes (state_after ["mkdir a"; "touch b.txt"; "mkdir c"; "mv a c";
                                  "mv c/a ."])) 0
    = Some [1; 3; 2].
Proof. by vm_compute. Qed.

(** ** The line lists of a copy are its own *)






(** An editor run on the file [r] changes the lines of [r] and of the
    nodes that share its line list, and of no other node. *)
Lemma editor_content_frame c fs args stdin res fs' stdin' cmd path rest r n x nx :
  wf fs → is_editor c = true →
  run_command c fs args stdin = Some (res, fs', stdin') →
  args = cmd :: path :: rest →
  file_at fs path = Some (Some (r, n)) →
  nodes fs !! x = Some nx → x ≠ r → content nx ≠ content n →
  content_of fs' x = content_of fs x.
Proof.
  intros Hwf Hc H -> Hfile Hx Hne Hcontent.
  assert (Hvalid : ∀ j, content nx = Some j → j < length (lists fs)).
  { intros j Hj. destruct (wf_refs _ Hwf x nx Hx) as (_ & _ & _ & Hv). by apply Hv. }
  destruct c; try done; cbn [run_command] in H; unfold no_input in H;
    try (apply bind_Some in H as ([r0 f] & H & [= <- <- <-])).
  - (* nwfiletxt *)
    unfold nwfiletxt_command in H. destruct rest; [|by injection H as _ <- _].
    rewrite Hfile in H. cbn in H.
    apply bind_Some in H as ([new_lines rest'] & _ & [= _ <- _]).
    unfold content_of. cbn. rewrite list_lookup_alter_ne by done. rewrite Hx. cbn.
    destruct (content nx) as [j|]; [|done]. cbn. apply lookup_app_l. by apply Hvalid.
  - (* appendtxt *)
    unfold appendtxt_command in H. destruct rest; [|by injection H as _ <- _].
    rewrite Hfile in H. cbn in H.
    apply bind_Some in H as ([new_lines rest'] & _ & H).
    apply bind_Some in H as (k & Hk & H). apply bind_Some in H as (l & _ & [= _ <- _]).
    unfold content_of. cbn. rewrite Hx. cbn.
    destruct (content nx) as [j|]; [|done]. cbn.
    apply list_lookup_alter_ne. congruence.
  - (* editline *)
    unfold editline_command in H.
    destruct rest as [|number [|w ws]]; try (by injection H as _ <-).
    rewrite Hfile in H. cbn in H. unfold edit_at in H.
    destruct (Py.int number); [|by injection H as _ <-].
    apply bind_Some in H as (k & Hk & H). apply bind_Some in H as (l & _ & H).
    destruct (_ || _); injection H as _ <-; [done|].
    unfold content_of. cbn. rewrite Hx. cbn.
    destruct (content nx) as [j|]; [|done]. cbn.
    apply list_lookup_alter_ne. congruence.
  - (* deline *)
    unfold deline_command in H.
    destruct rest as [|number [|w ws]]; try (by injection H as _ <-).
    rewrite Hfile in H. cbn in H. unfold edit_at in H.
    destruct (Py.int number); [|by injection H as _ <-].
    apply bind_Some in H as (k & Hk & H). apply bind_Some in H as (l & _ & H).
    destruct (_ || _); injection H as _ <-; [done|].
    unfold content_of. cbn. rewrite Hx. cbn.
    destruct (content nx) as [j|]; [|done]. cbn.
    apply list_lookup_alter_ne. congruence.
Qed.

(** ** What [cp] makes *)


Lemma read_tree_is_tree fuel h ls :
  ∀ x t, read_tree fuel h ls x = Some t → is_tree h ls x t.
Proof.
  induction fuel as [|fuel IH]; [done|]. intros x t H. cbn in H.
  apply bind_Some in H as (n & Hn & H).
  apply bind_Some in H as (cs & Hcs & H).
  apply bind_Some in H as (ts & Hts & [= <-]).
  apply (is_tree_node h ls x n cs ts); [done|by apply (children_chain h x n cs)|].
  apply mapM_Some in Hts. eapply Forall2_impl; [exact Hts|]. exact IH.
Qed.


(** C2 does not hold of the code.  [deep_copy] walks the children of the
    source from the first to the last and attaches each copy with
    [add_child], which puts it in front, so the copy has the children of
    every directory in the reverse of the source's order.  In the reachable
    store [two_files] the directory [d] holds [b.txt] before [a.txt];
    [cp d e] succeeds, and the copy [e] holds [a.txt] before [b.txt]: [ls]
    in [d] prints [b.txt], [a.txt], [ls] in [e] prints [a.txt], [b.txt],
    and the subtree under [e] is not the subtree under [d] with the top
    name replaced. *)
Theorem cp_reverses_sibling_order :
  reachable two_files
  ∧ cp_command two_files ["cp"; "d"; "e"] = Some (Ok [], two_files_copied)
  ∧ get_node_by_path two_files "d" = Some (Some 1)
  ∧ get_node_by_path two_files_copied "d" = Some (Some 1)
  ∧ get_node_by_path two_files_copied "e" = Some (Some 4)
  ∧ is_tree (nodes two_files) (lists two_files) 1
      (Tree "d" false None
         [Tree "b.txt" true (Some []) []; Tree "a.txt" true (Some []) []])
  ∧ is_tree (nodes two_files_copied) (lists two_files_copied) 4
      (Tree "e" false None
         [Tree "a.txt" true (Some []) []; Tree "b.txt" true (Some []) []])
  ∧ Tree "e" false None
      [Tree "a.txt" true (Some []) []; Tree "b.txt" true (Some []) []]
    ≠ renamed "e"
        (Tree "d" false None
           [Tree "b.txt" true (Some []) []; Tree "a.txt" true (Some []) []])
  ∧ ls_command
      (state_after ["mkdir d"; "touch d a.txt"; "touch d b.txt"; "cp d e"; "cd d"])
      ["ls"]
    = Some (Ok [Py.join (String "009"%char "") ["b.txt"; "a.txt"]],
            state_after ["mkdir d"; "touch d a.txt"; "touch d b.txt"; "cp d e";
                         "cd d"])
  ∧ ls_command
      (state_after ["mkdir d"; "touch d a.txt"; "touch d b.txt"; "cp d e"; "cd e"])
      ["ls"]
    = Some (Ok [Py.join (String "009"%char "") ["a.txt"; "b.txt"]],
            state_after ["mkdir d"; "touch d a.txt"; "touch d b.txt"; "cp d e";
                         "cd e"]).
Proof.
  split; [apply state_after_reachable|].
  split; [by vm_compute|]. split; [by vm_compute|]. split; [by vm_compute|].
  split; [by vm_compute|].
  split; [by apply (read_tree_is_tree 2); vm_compute|].
  split; [by apply (read_tree_is_tree 2); vm_compute|].
  split; [cbn; congruence|].
  split; by vm_compute.
Qed.

(** ** What [mv] leaves as it is *)

Lemma alter_fields (f : FileSystemNode → FileSystemNode) k
    (h : list FileSystemNode) x n :
  h !! x = Some n → ∃ n', alter f k h !! x = Some n' ∧ (n' = n ∨ n' = f n).
Proof.
  intros Hn. destruct (decide (k = x)) as [->|Hne].
  - rewrite list_lookup_alter_eq, Hn. cbn. eauto.
  - rewrite list_lookup_alter_ne by done. eauto.
Qed.

Lemma unlink_fields h par t h' x n :
  unlink h par t = Some h' → h !! x = Some n →
  ∃ n', h' !! x = Some n'
        ∧ name n' = name n ∧ is_file n' = is_file n
        ∧ parent n' = parent n ∧ content n' = content n.
Proof.
  intros H Hn.
  destruct (unlink_cases _ _ _ _ H) as (p & tn & _ & _ & [[_ ->]|[_ (r & _ & Hr)]]).
  - destruct (alter_fields (set_child (next tn)) par h x n Hn) as (n' & Hn' & Hcase).
    exists n'. split; [done|]. destruct Hcase as [->| ->]; by destruct n.
  - destruct r as [c|]; subst; [|by exists n].
    destruct (alter_fields (set_next (next tn)) c h x n Hn) as (n' & Hn' & Hcase).
    exists n'. split; [done|]. destruct Hcase as [->| ->]; by destruct n.
Qed.

Lemma relink_fields h src dst nm h' x n :
  relink h src dst nm = Some h' → src < length h → h !! x = Some n →
  ∃ n', h' !! x = Some n'
        ∧ is_file n' = is_file n ∧ content n' = content n.
Proof.
  intros H Hsrc Hn. destruct (lookup_lt_is_Some_2 h src Hsrc) as [sn Hs].
  destruct (relink_dst _ _ _ _ _ H) as [dn Hd].
  rewrite (relink_lookup _ _ _ _ _ _ _ x H Hs Hd).
  destruct (decide (x = dst)) as [Hxd|Hxd]; destruct (decide (x = src)) as [Hxs|Hxs];
    subst; try (by exists n); eexists; (split; [reflexivity|]); simplify_eq;
    try done; destruct nm; by destruct n.
Qed.

(** [mv] keeps the kind and the content of every node, and the name and
    the parent of every node but the moved one. *)
Lemma move_fields h s sn par d nm h1 h' x n :
  h !! s = Some sn → unlink h par s = Some h1 → relink h1 s d nm = Some h' →
  h !! x = Some n →
  ∃ n', h' !! x = Some n'
        ∧ is_file n' = is_file n ∧ content n' = content n
        ∧ name n' = (if decide (x = s) then arrival_name nm sn else name n)
        ∧ parent n' = (if decide (x = s) then Some d else parent n).
Proof.
  intros Hs Hun Hre Hn.
  assert (Hlen : s < length h1).
  { rewrite (unlink_length _ _ _ _ Hun). by eapply lookup_lt_Some. }
  destruct (unlink_fields _ _ _ _ x n Hun Hn) as (n1 & Hn1 & Hnm1 & Hf1 & Hp1 & Hc1).
  destruct (relink_fields _ _ _ _ _ x n1 Hre Hlen Hn1) as (n' & Hn' & Hf & Hc).
  exists n'. split; [done|]. split; [congruence|]. split; [congruence|].
  pose proof (relink_name_of _ _ _ _ _ x Hre Hlen) as Hname.
  pose proof (relink_parent_of _ _ _ _ _ x Hre Hlen) as Hparent.
  rewrite (unlink_name_of _ _ _ _ s Hun) in Hname.
  unfold name_of, parent_of in Hname, Hparent. rewrite Hn', Hs in Hname.
  rewrite Hn', Hn1 in Hparent. cbn in Hname, Hparent.
  destruct (decide (x = s)) as [Hxs|Hxs].
  - split; [|done]. destruct nm; cbn in *; congruence.
  - split; [|congruence]. rewrite Hn1 in Hname. cbn in Hname. congruence.
Qed.

(** *** Looking up a name in a collection that lost a cell *)

Lemma first_named_without h g l w s :
  first_named h g l = Some w → w ≠ s → first_named h g (without s l) = Some w.
Proof.
  intros H Hws. induction l as [|c l IH]; [done|]. cbn in H. unfold without.
  destruct (decide (name_of h c = Some g)) as [Hc|Hc].
  - injection H as ->. rewrite filter_cons_True by done. cbn.
    by rewrite decide_True.
  - destruct (decide (c = s)) as [->|Hcs].
    + rewrite filter_cons_False by (by intros ?). by apply IH.
    + rewrite filter_cons_True by done. cbn. rewrite decide_False by done.
      by apply IH.
Qed.

Lemma first_named_without_None h g l s :
  NoDup (name_of h <$> l) → first_named h g l = Some s →
  first_named h g (without s l) = None.
Proof.
  intros Hnd H. apply first_named_Some in H as [Hs Hg].
  apply first_named_None. intros c [Hcs Hc]%elem_of_without Hcg.
  apply Hcs. eapply (NoDup_fmap_inj_on (name_of h)); [done..|congruence].
Qed.

Lemma find_child_kids h v g r :
  chains_ok h → find_child h v g = Some r →
  ∃ l, kids h v l ∧ (∀ c, c ∈ l → parent_of h c = Some v)
       ∧ NoDup (name_of h <$> l) ∧ r = first_named h g l.
Proof.
  intros Hok H. pose proof H as H'. unfold find_child in H'.
  apply bind_Some in H' as (n & Hn & _).
  destruct (Hok v n Hn) as (l & Hl & Hpar & Hnd).
  assert (Hk : kids h v l) by (by exists n).
  exists l. split; [done|]. split; [done|]. split; [done|].
  apply kids_children in Hk. rewrite (find_child_children _ _ _ _ Hk) in H.
  by injection H.
Qed.

Lemma kids_find_child h v g l :
  kids h v l → find_child h v g = Some (first_named h g l).
Proof. intros Hk. apply find_child_children. by apply kids_children. Qed.

(** *** Nodes inside and outside a subtree *)

Lemma inside_parent h s x p : parent_of h x = Some p → inside h s p → inside h s x.
Proof.
  intros Hp [->|Hanc]; right; [by apply ancestor_parent|by eapply ancestor_step].
Qed.

Lemma inside_child h s x p :
  parent_of h x = Some p → inside h s x → ¬ inside h s p → x = s.
Proof.
  intros Hp [->|Hanc] Hout; [done|]. destruct Hout.
  inversion Hanc as [? ? Hp'|? q ? Hp' Hq]; subst; rewrite Hp in Hp'; injection Hp' as <-.
  - by left.
  - by right.
Qed.

(** ** Paths and subtrees across a move *)

Lemma walk_cons h node part parts :
  walk h node (part :: parts) =
    if String.eqb part "" || String.eqb part "." then walk h node parts
    else if String.eqb part ".." then
      n ← h !! node;
      match parent n with
      | Some p => walk h p parts
      | None => walk h node parts
      end
    else
      nxt ← find_child h node part;
      match nxt with
      | None => Some None
      | Some x => walk h x parts
      end.
Proof. reflexivity. Qed.

Lemma after_step_move s d p l :
  after_step (Some (s, d)) (Some s) p l
  = if decide (p = d) then s :: without s l else without s l.
Proof. reflexivity. Qed.

Section moved.
Variables (h h' : list FileSystemNode) (ls : list (list string)).
Variables (s d : ref) (arrival : string).
Hypothesis Hok : chains_ok h.
Hypothesis Hlen : length h' = length h.
Hypothesis Hfind : find_child h d arrival = Some None.
Hypothesis Hparent :
  ∀ x, parent_of h' x = if decide (x = s) then Some d else parent_of h x.
Hypothesis Hname :
  ∀ x, name_of h' x = if decide (x = s) then Some arrival else name_of h x.
Hypothesis Hfields :
  ∀ x n, h !! x = Some n →
    ∃ n', h' !! x = Some n' ∧ is_file n' = is_file n ∧ content n' = content n.
Hypothesis Hkids :
  ∀ p l, kids h p l → kids h' p (after_step (Some (s, d)) (Some s) p l).

(** A name that led to the moved node leads nowhere now; a name that led
    to another node still leads to it. *)
Lemma step_moved v g w :
  find_child h v g = Some (Some w) →
  find_child h' v g = Some (if decide (w = s) then None else Some w).
Proof.
  intros H. destruct (find_child_kids h v g _ Hok H) as (l & Hk & Hp & Hnd & Hw).
  symmetry in Hw. rewrite (kids_find_child h' v g _ (Hkids v l Hk)). f_equal.
  assert (Hg : g ≠ arrival ∨ v ≠ d).
  { destruct (decide (v = d)) as [->|]; [left|by right]. intros ->.
    rewrite H in Hfind. done. }
  assert (Hrest : first_named h' g (without s l)
                  = if decide (w = s) then None else Some w).
  { rewrite (first_named_ext h h').
    2:{ intros c [Hcs _]%elem_of_without. rewrite Hname. by rewrite decide_False. }
    destruct (decide (w = s)) as [->|Hws];
      [by apply first_named_without_None|by apply first_named_without]. }
  rewrite after_step_move. destruct (decide (v = d)) as [->|Hvd]; [|done].
  cbn. rewrite Hname, (decide_True (P := s = s)) by done.
  rewrite decide_False; [done|].
  intros [= ->]. by destruct Hg.
Qed.

(** The moved node has arrived under its new parent. *)
Lemma arrived dn : h !! d = Some dn → find_child h' d arrival = Some (Some s).
Proof.
  intros Hd. destruct (Hok d dn Hd) as (l & Hl & _).
  assert (Hk : kids h d l) by (by exists dn).
  rewrite (kids_find_child h' d arrival _ (Hkids d l Hk)), after_step_move.
  rewrite decide_True by done. cbn.
  rewrite Hname, (decide_True (P := s = s)) by done. by rewrite decide_True.
Qed.

(** A path that led from outside the subtree to a node inside it now stops
    before it enters. *)
Lemma walk_leaves parts :
  ∀ v r, ¬ inside h s v → walk h v parts = Some (Some r) → inside h s r →
    walk h' v parts = Some None.
Proof.
  induction parts as [|part parts IH]; intros v r Hout H Hin.
  - cbn in H. injection H as <-. done.
  - rewrite walk_cons in H. rewrite walk_cons.
    destruct (String.eqb part "" || String.eqb part "."); [by eapply IH|].
    destruct (String.eqb part "..").
    + apply bind_Some in H as (n & Hn & H).
      assert (Hvs : v ≠ s) by (intros ->; apply Hout; by left).
      pose proof (Hparent v) as Hpv. rewrite decide_False in Hpv by done.
      destruct (lookup_lt_is_Some_2 h' v) as [n' Hn'].
      { rewrite Hlen. by eapply lookup_lt_Some. }
      unfold parent_of in Hpv. rewrite Hn, Hn' in Hpv. cbn in Hpv.
      rewrite Hn'. cbn. rewrite Hpv. destruct (parent n) as [p|] eqn:Hp.
      * eapply IH; [|done..]. intros Hp'. apply Hout.
        eapply inside_parent; [|done]. unfold parent_of. by rewrite Hn.
      * by eapply IH.
    + apply bind_Some in H as (nxt & Hnxt & H). destruct nxt as [w|]; [|done].
      rewrite (step_moved _ _ _ Hnxt). cbn.
      destruct (decide (w = s)) as [->|Hws]; [done|].
      eapply IH; [|done..]. intros Hw. apply Hws.
      destruct (find_child_kids h v part _ Hok Hnxt) as (l & Hk & Hp & Hnd & Hw').
      symmetry in Hw'. apply first_named_Some in Hw' as [Hwl _].
      eapply inside_child; [by apply Hp|done|done].
Qed.

Hypothesis Hd : ¬ inside h s d.
Hypothesis Hcyc : ¬ ancestor h s s.

(** Inside the moved subtree every children collection is as it was. *)
Lemma kids_inside x cs :
  inside h s x → kids h x cs →
  kids h' x cs ∧ ∀ c, c ∈ cs → ancestor h s c.
Proof.
  intros Hin Hk.
  assert (Hp : ∀ c, c ∈ cs → parent_of h c = Some x).
  { destruct Hk as (n & Hn & Hch). destruct (Hok x n Hn) as (l & Hl & Hp & _).
    by rewrite (chain_det _ _ _ _ Hch Hl). }
  assert (Hanc : ∀ c, c ∈ cs → ancestor h s c).
  { intros c Hc. destruct Hin as [->|Hx].
    - apply ancestor_parent. by apply Hp.
    - eapply ancestor_step; [by apply Hp|done]. }
  split; [|done].
  pose proof (Hkids x cs Hk) as Hk'. rewrite after_step_move in Hk'.
  rewrite without_notin in Hk'.
  2:{ intros Hs. apply Hcyc. by apply Hanc. }
  rewrite decide_False in Hk'; [done|]. intros ->. done.
Qed.

Lemma move_below :
  ∀ t x, ancestor h s x → is_tree h ls x t → is_tree h' ls x t.
Proof.
  induction t as [nm file lines ts IH] using tree_ind'. intros x Hx Ht.
  inversion Ht as [? n cs ? Hn Hchain Hsub]; subst.
  destruct (kids_inside x cs (or_intror Hx)) as [(n' & Hn' & Hchain') Hanc].
  { by exists n. }
  destruct (Hfields x n Hn) as (n'' & Hn'' & Hf & Hc).
  rewrite Hn' in Hn''. injection Hn'' as <-.
  assert (Hxs : x ≠ s) by (by intros ->).
  pose proof (Hname x) as Hnm. rewrite decide_False in Hnm by done.
  unfold name_of in Hnm. rewrite Hn, Hn' in Hnm. injection Hnm as Hnm.
  replace (Tree (name n) (is_file n) (lines_of ls n) ts)
    with (Tree (name n') (is_file n') (lines_of ls n') ts).
  2:{ unfold lines_of. by rewrite Hnm, Hf, Hc. }
  apply (is_tree_node h' ls x n' cs ts); [done..|].
  clear Hchain Hchain' Ht. revert IH Hanc.
  induction Hsub as [|c t cs ts Hc' Hrest IHk]; intros IH Hanc; [constructor|].
  apply Forall_cons in IH as [IHt IHts]. constructor.
  - apply IHt; [|done]. apply Hanc. by left.
  - apply IHk; [done|]. intros c' Hc''. apply Hanc. by right.
Qed.

(** The moved node takes its subtree along. *)
Lemma move_tree t :
  is_tree h ls s t → is_tree h' ls s (renamed arrival t).
Proof.
  intros Ht. inversion Ht as [? n cs ts Hn Hchain Hsub]; subst.
  destruct (kids_inside s cs (or_introl eq_refl)) as [(n' & Hn' & Hchain') Hanc].
  { by exists n. }
  destruct (Hfields s n Hn) as (n'' & Hn'' & Hf & Hc).
  rewrite Hn' in Hn''. injection Hn'' as <-.
  pose proof (Hname s) as Hnm. rewrite decide_True in Hnm by done.
  unfold name_of in Hnm. rewrite Hn' in Hnm. injection Hnm as Hnm.
  cbn. replace (Tree arrival (is_file n) (lines_of ls n) ts)
    with (Tree (name n') (is_file n') (lines_of ls n') ts).
  2:{ unfold lines_of. by rewrite Hnm, Hf, Hc. }
  apply (is_tree_node h' ls s n' cs ts); [done..|].
  clear Hchain Hchain' Ht. revert Hanc.
  induction Hsub as [|c t cs ts Hc' Hrest IHk]; intros Hanc; [constructor|].
  constructor.
  - apply move_below; [|done]. apply Hanc. by left.
  - apply IHk. intros c' Hc''. apply Hanc. by right.
Qed.

End moved.

(** ** What [mv] does *)

Lemma root_outside h r s sn par :
  root_ok h r → h !! s = Some sn → parent sn = Some par → ¬ inside h s r.
Proof.
  intros (Hr & n & Hn & _ & _ & Hp) Hs Hpar Hin. subst r.
  destruct Hin as [Heq|Hanc].
  - rewrite <- Heq in Hs. congruence.
  - inversion Hanc as [? ? Hp'|? q ? Hp' _]; subst;
      unfold parent_of in Hp'; rewrite Hn in Hp'; cbn in Hp'; congruence.
Qed.

(** C4, as the code has it.  A successful [mv] of the node [s] from its
    parent [par] to the directory [d] leaves the line lists, the root, the
    cursor and the number of nodes as they are.  Every node keeps its kind
    and its content, and every node but [s] its name and its parent; [s]
    names [d] as its parent and bears the arrival name.  The children
    collection of [d] gets [s] in front, the one of [par] loses [s], and
    all others stay.  The arrival name is found under [d] and leads to [s].
    The old path no longer resolves if it is absolute or if the cursor is
    outside the moved subtree.  If [d] is outside the moved subtree and
    [s] is not its own ancestor, the subtree under [s] is what it was,
    except for the name at its top. *)
Theorem mv_moves_subtree fs source_path destination_path out fs' :
  wf fs →
  mv_command fs ["mv"; source_path; destination_path] = Some (Ok out, fs') →
  ∃ s sn par d nm,
    get_node_by_path fs source_path = Some (Some s)
    ∧ nodes fs !! s = Some sn ∧ parent sn = Some par
    ∧ destination fs destination_path d nm
    ∧ lists fs' = lists fs ∧ root fs' = root fs ∧ current fs' = current fs
    ∧ length (nodes fs') = length (nodes fs)
    ∧ (∀ x n, nodes fs !! x = Some n →
         ∃ n', nodes fs' !! x = Some n'
               ∧ is_file n' = is_file n ∧ content n' = content n
               ∧ name n' = (if decide (x = s) then arrival_name nm sn else name n)
               ∧ parent n' = (if decide (x = s) then Some d else parent n))
    ∧ (∀ p l, kids (nodes fs) p l →
         kids (nodes fs') p
           (if decide (p = d) then s :: without s l
            else if decide (p = par) then without s l else l))
    ∧ find_child (nodes fs') d (arrival_name nm sn) = Some (Some s)
    ∧ (Py.startswith Py.slash source_path = true
       ∨ ¬ inside (nodes fs) s (current fs) →
       get_node_by_path fs' source_path = Some None)
    ∧ (¬ inside (nodes fs) s d → ¬ ancestor (nodes fs) s s →
       ∀ t, is_tree (nodes fs) (lists fs) s t →
            is_tree (nodes fs') (lists fs') s (renamed (arrival_name nm sn) t)).
Proof.
  intros Hwf H.
  destruct (mv_command_Ok _ _ _ _ H)
    as (cmd & sp & dp & s & sn & par & d & dn & nm & h1 & h
        & Hargs & Hs & Hsn & Hpar & Hdest & Hdn & Hdir & Hfind & Hun & Hre & ->).
  injection Hargs as <- <- <-.
  pose proof (wf_chains _ Hwf) as Hok.
  assert (Hlen1 : s < length h1).
  { rewrite (unlink_length _ _ _ _ Hun). by eapply lookup_lt_Some. }
  assert (Hlen : length h = length (nodes fs)).
  { by rewrite (relink_length _ _ _ _ _ Hre), (unlink_length _ _ _ _ Hun). }
  assert (Hparent : ∀ x, parent_of h x
            = if decide (x = s) then Some d else parent_of (nodes fs) x).
  { intros x. rewrite (relink_parent_of _ _ _ _ _ x Hre Hlen1).
    by rewrite (unlink_parent_of _ _ _ _ x Hun). }
  assert (Hname : ∀ x, name_of h x
            = if decide (x = s) then Some (arrival_name nm sn)
              else name_of (nodes fs) x).
  { intros x. rewrite (relink_name_of _ _ _ _ _ x Hre Hlen1).
    rewrite !(unlink_name_of _ _ _ _ _ Hun). destruct (decide (x = s)); [|done].
    unfold name_of, arrival_name. rewrite Hsn. by destruct nm. }
  pose proof (λ x n, move_fields _ s sn par d nm h1 h x n Hsn Hun Hre) as Hfields.
  pose proof (λ p l, move_kids _ s sn par d nm h1 h p l Hok Hsn Hpar Hun Hre) as Hkids.
  exists s, sn, par, d, nm. cbn [nodes lists root current with_nodes].
  split; [done|]. split; [done|]. split; [done|]. split; [done|].
  split; [done|]. split; [done|]. split; [done|]. split; [done|].
  split; [exact Hfields|]. split; [|split; [|split]].
  - intros p l Hk. pose proof (Hkids p l Hk) as Hk'.
    rewrite after_step_move in Hk'.
    destruct (decide (p = d)) as [Hpd|Hpd]; [done|].
    destruct (decide (p = par)) as [Hpp|Hpp]; [done|].
    rewrite without_notin in Hk'; [done|]. intros Hin.
    assert (Hps : parent_of (nodes fs) s = Some p).
    { destruct Hk as (n & Hn & Hch). destruct (Hok p n Hn) as (l' & Hl' & Hp' & _).
      apply Hp'. by rewrite <- (chain_det _ _ _ _ Hch Hl'). }
    unfold parent_of in Hps. rewrite Hsn in Hps. cbn in Hps. congruence.
  - by eapply (arrived (nodes fs) h s d).
  - intros Hstart. unfold get_node_by_path in Hs |- *. cbn [nodes root current with_nodes].
    assert (Hin : inside (nodes fs) s s) by (by left).
    destruct (Py.startswith Py.slash source_path).
    + destruct (String.eqb source_path "/").
      * injection Hs as Hs. destruct (root_outside _ _ s sn par (wf_root _ Hwf) Hsn Hpar).
        rewrite Hs. by left.
      * eapply (walk_leaves (nodes fs) h s d); [done..| |exact Hs|done].
        by eapply root_outside; [apply wf_root| |].
    + destruct Hstart as [?|Hout]; [done|].
      by eapply (walk_leaves (nodes fs) h s d); [..|exact Hs|].
  - intros Hd Hcyc t Ht.
    eapply (move_tree (nodes fs) h (lists fs) s d); [done..| | | |done|done|done];
      [done| |done].
    intros x n Hn. destruct (Hfields x n Hn) as (n' & Hn' & Hf & Hc & _).
    by exists n'.
Qed.

Lemma mv_moves_subtree_witness :
  ∃ s sn par d nm,
    get_node_by_path before_mv_dir "a" = Some (Some s)
    ∧ nodes before_mv_dir !! s = Some sn ∧ parent sn = Some par
    ∧ destination before_mv_dir "c" d nm
    ∧ lists after_mv_dir = lists before_mv_dir
    ∧ root after_mv_dir = root before_mv_dir
    ∧ current after_mv_dir = current before_mv_dir
    ∧ length (nodes after_mv_dir) = length (nodes before_mv_dir)
    ∧ (∀ x n, nodes before_mv_dir !! x = Some n →
         ∃ n', nodes after_mv_dir !! x = Some n'
               ∧ is_file n' = is_file n ∧ content n' = content n
               ∧ name n' = (if decide (x = s) then arrival_name nm sn else name n)
               ∧ parent n' = (if decide (x = s) then Some d else parent n))
    ∧ (∀ p l, kids (nodes before_mv_dir) p l →
         kids (nodes after_mv_dir) p
           (if decide (p = d) then s :: without s l
            else if decide (p = par) then without s l else l))
    ∧ find_child (nodes after_mv_dir) d (arrival_name nm sn) = Some (Some s)
    ∧ (Py.startswith Py.slash "a" = true
       ∨ ¬ inside (nodes before_mv_dir) s (current before_mv_dir) →
       get_node_by_path after_mv_dir "a" = Some None)
    ∧ (¬ inside (nodes before_mv_dir) s d → ¬ ancestor (nodes before_mv_dir) s s →
       ∀ t, is_tree (nodes before_mv_dir) (lists before_mv_dir) s t →
            is_tree (nodes after_mv_dir) (lists after_mv_dir) s
              (renamed (arrival_name nm sn) t)).
Proof.
  apply (mv_moves_subtree before_mv_dir "a" "c" [] after_mv_dir).
  - apply reachable_wf, state_after_reachable.
  - vm_compute. reflexivity.
Defined.

(** C4 as the specification has it fails when the cursor is in the moved
    directory: after [mv . ../c] the old path [.] still resolves, to the
    moved node, and the new path [../c/a] does not resolve. *)
Lemma mv_old_path_still_resolves :
  mv_command before_mv_cwd ["mv"; "."; "../c"] = Some (Ok [], after_mv_cwd)
  ∧ get_node_by_path before_mv_cwd "." = Some (Some 1)
  ∧ get_node_by_path before_mv_cwd "../c" = Some (Some 2)
  ∧ name_of (nodes before_mv_cwd) 1 = Some "a"
  ∧ get_node_by_path after_mv_cwd "." = Some (Some 1)
  ∧ get_node_by_path after_mv_cwd "../c/a" = Some None.
Proof. by vm_compute. Qed.

(** The same move seen from the root: the old path is gone and the new one
    leads to the moved directory with its file. *)
Example mv_seen_from_root :
  get_node_by_path before_mv_dir "/a" = Some (Some 1)
  ∧ get_node_by_path after_mv_dir "/a" = Some None
  ∧ get_node_by_path after_mv_dir "/c/a" = Some (Some 1)
  ∧ get_node_by_path after_mv_dir "/c/a/x.txt" = Some (Some 2)
  ∧ children (nodes before_mv_dir) 1 = children (nodes after_mv_dir) 1.
Proof. by vm_compute. Qed.

(** ** Paths read in parts *)

Lemma walk_app h v l1 l2 :
  walk h v (l1 ++ l2) = and_then (walk h v l1) (λ x, walk h x l2).
Proof.
  revert v. induction l1 as [|part l1 IH]; intros v; [done|].
  rewrite <- app_comm_cons, !walk_cons.
  destruct (String.eqb part "" || String.eqb part "."); [apply IH|].
  destruct (String.eqb part "..").
  - destruct (h !! v) as [n|]; cbn; [|done]. destruct (parent n); apply IH.
  - destruct (find_child h v part) as [[x|]|]; cbn; [apply IH|done..].
Qed.

Lemma walk_empties h v k : walk h v (replicate k EmptyString) = Some (Some v).
Proof. induction k as [|k IH]; [done|]. cbn [replicate]. by rewrite walk_cons. Qed.

Lemma walk_strip h v s :
  walk h v (Py.split Py.slash (Py.strip Py.slash s)) = walk h v (Py.split Py.slash s).
Proof.
  destruct (split_strip Py.slash s) as (j & k & ->).
  rewrite walk_app, walk_empties. cbn. rewrite walk_app.
  destruct (walk h v _) as [[x|]|]; cbn; try done.
  by rewrite walk_empties.
Qed.

(** The special case of the path [/] and the stripping of an absolute
    path make no difference: the loop over the pieces of the path as it
    stands gives the same node. *)
Lemma get_node_by_path_walk fs path :
  get_node_by_path fs path
  = walk (nodes fs) (if Py.startswith Py.slash path then root fs else current fs)
      (Py.split Py.slash path).
Proof.
  unfold get_node_by_path. destruct (Py.startswith Py.slash path); [|done].
  destruct (String.eqb_spec path "/") as [->|Hne]; [done|]. apply walk_strip.
Qed.

Lemma split_append c p q :
  Py.split c (p +:+ String c q) = Py.split c p ++ Py.split c q.
Proof.
  induction p as [|a p IH].
  - apply split_cons_sep.
  - change (Py.split c (String a (p +:+ String c q))
            = Py.split c (String a p) ++ Py.split c q).
    destruct (Ascii.eqb a c) eqn:Ha.
    + apply Ascii.eqb_eq in Ha as ->. by rewrite !split_cons_sep, IH.
    + destruct (Py.split c p) as [|w ws] eqn:Hp; [by destruct (split_not_nil c p)|].
      rewrite (split_cons_other c a p w ws Ha Hp).
      by apply split_cons_other.
Qed.

(** *** Resolution always returns *)

Lemma find_child_total h v nm :
  chains_ok h → v < length h →
  ∃ r, find_child h v nm = Some r
       ∧ ∀ c, r = Some c →
           c < length h ∧ parent_of h c = Some v ∧ name_of h c = Some nm.
Proof.
  intros Hok Hv. destruct (lookup_lt_is_Some_2 h v Hv) as [n Hn].
  destruct (Hok v n Hn) as (l & Hl & Hpar & _).
  assert (Hk : kids h v l) by (by exists n).
  exists (first_named h nm l). split; [by apply kids_find_child|].
  intros c [Hc Hnm]%first_named_Some. split; [by eapply kids_valid|].
  split; [by apply Hpar|done].
Qed.

Lemma walk_total h k parts :
  chains_ok h → refs_valid h k →
  ∀ v, v < length h →
    ∃ r, walk h v parts = Some r ∧ ∀ x, r = Some x → x < length h.
Proof.
  intros Hok Hrefs. induction parts as [|part parts IH]; intros v Hv.
  - exists (Some v). split; [done|]. by intros x [= <-].
  - rewrite walk_cons.
    destruct (String.eqb part "" || String.eqb part "."); [by apply IH|].
    destruct (String.eqb part "..").
    + destruct (lookup_lt_is_Some_2 h v Hv) as [n Hn]. rewrite Hn. cbn.
      destruct (parent n) as [p|] eqn:Hp; [|by apply IH].
      apply IH. destruct (Hrefs v n Hn) as (Hpv & _). by apply Hpv.
    + destruct (find_child_total h v part Hok Hv) as (r & -> & Hr). cbn.
      destruct r as [c|].
      * apply IH. by destruct (Hr c).
      * exists None. by split.
Qed.

Lemma get_node_by_path_allocated fs path :
  wf fs →
  ∃ r, get_node_by_path fs path = Some r
       ∧ ∀ x, r = Some x → is_Some (nodes fs !! x).
Proof.
  intros Hwf. rewrite get_node_by_path_walk.
  set (start := if Py.startswith Py.slash path then root fs else current fs).
  assert (Hstart : start < length (nodes fs)).
  { subst start. destruct (Py.startswith Py.slash path).
    - destruct (wf_root _ Hwf) as (-> & n & Hn & _). by eapply lookup_lt_Some.
    - destruct (wf_current _ Hwf) as (n & Hn & _). by eapply lookup_lt_Some. }
  destruct (walk_total (nodes fs) (length (lists fs)) (Py.split Py.slash path)
              (wf_chains _ Hwf) (wf_refs _ Hwf) start Hstart) as (r & Hr & Hx).
  exists r. split; [done|]. intros x Hrx. apply lookup_lt_is_Some_2. by apply Hx.
Qed.

(** In a well-formed store [get_node_by_path] returns for every path: it
    neither loops on a chain nor steps on a missing object; and the node it
    returns is allocated. *)
Theorem get_node_by_path_total fs path :
  wf fs →
  ∃ r, get_node_by_path fs path = Some r
       ∧ ∀ x, r = Some x → is_Some (nodes fs !! x).
Proof. apply get_node_by_path_allocated. Qed.

Lemma get_node_by_path_total_witness :
  ∃ r, get_node_by_path (state_after ["mkdir a"; "cd a"; "rm ."]) "../a/./b" = Some r
       ∧ ∀ x, r = Some x
           → is_Some (nodes (state_after ["mkdir a"; "cd a"; "rm ."]) !! x).
Proof.
  apply (get_node_by_path_total (state_after ["mkdir a"; "cd a"; "rm ."]) "../a/./b").
  apply reachable_wf, state_after_reachable.
Defined.

(** *** One path after another *)

Lemma startswith_append c p q :
  p ≠ EmptyString → Py.startswith c (p +:+ q) = Py.startswith c p.
Proof. by destruct p. Qed.

Lemma get_node_by_path_append fs p q :
  p ≠ EmptyString → Py.startswith Py.slash q = false →
  get_node_by_path fs (p +:+ String Py.slash q)
  = and_then (get_node_by_path fs p) (λ x, get_node_by_path (with_current x fs) q).
Proof.
  intros Hp Hq. rewrite !get_node_by_path_walk, startswith_append by done.
  rewrite split_append, walk_app. unfold and_then.
  destruct (walk _ _ (Py.split Py.slash p)) as [[x|]|]; [|done..].
  rewrite get_node_by_path_walk, Hq. done.
Qed.

(** After a successful [cd p], a relative path [q] leads to what the path
    [p/q] led to before, for every non-empty [p]: not found, a node, or no
    answer alike.  ([cd] with the empty path, which no console line can
    give, stays where it is, while [/q] starts at the root.) *)
Theorem cd_then_relative fs cmd p q out fs' :
  cd_command fs [cmd; p] = Some (Ok out, fs') →
  p ≠ EmptyString → Py.startswith Py.slash q = false →
  get_node_by_path fs' q = get_node_by_path fs (p +:+ String Py.slash q).
Proof.
  intros H Hp Hq. rewrite (get_node_by_path_append fs p q Hp Hq).
  unfold cd_command in H.
  destruct (get_node_by_path fs p) as [[d|]|]; cbn in H |- *; [|done..].
  destruct (nodes fs !! d) as [n|]; cbn in H; [|done].
  destruct (is_file n); [done|]. by injection H as _ <-.
Qed.

Lemma cd_then_relative_witness :
  get_node_by_path (state_after ["mkdir a"; "mkdir a b"; "touch a/b x.txt"; "cd a"])
    "b/x.txt"
  = get_node_by_path (state_after ["mkdir a"; "mkdir a b"; "touch a/b x.txt"])
      ("a" +:+ String Py.slash "b/x.txt").
Proof.
  apply (cd_then_relative
           (state_after ["mkdir a"; "mkdir a b"; "touch a/b x.txt"]) "cd" "a" "b/x.txt" []
           (state_after ["mkdir a"; "mkdir a b"; "touch a/b x.txt"; "cd a"]));
    [by vm_compute|done|done].
Defined.

(** ** Paths across an insertion *)

Lemma after_step_insert new d p l :
  after_step (Some (new, d)) None p l = if decide (p = d) then new :: l else l.
Proof. reflexivity. Qed.

Section inserted.
Variables (h h' : list FileSystemNode) (new d : ref) (nm : string).
Hypothesis Hok : chains_ok h.
Hypothesis Hold :
  ∀ x n, h !! x = Some n →
    ∃ n', h' !! x = Some n' ∧ name n' = name n ∧ parent n' = parent n.
Hypothesis Hnew : name_of h' new = Some nm.
Hypothesis Hfree : find_child h d nm = Some None.
Hypothesis Hkids :
  ∀ p l, kids h p l → kids h' p (after_step (Some (new, d)) None p l).

Lemma names_inserted p l c : kids h p l → c ∈ l → name_of h' c = name_of h c.
Proof.
  intros (n & Hn & Hl) Hc. destruct (chain_lookup _ _ _ _ Hl Hc) as [m Hm].
  destruct (Hold c m Hm) as (m' & Hm' & Hnm & _).
  unfold name_of. rewrite Hm, Hm'. cbn. by rewrite Hnm.
Qed.

(** A name that led to a node still leads to it. *)
Lemma step_inserted v g w :
  find_child h v g = Some (Some w) → find_child h' v g = Some (Some w).
Proof.
  intros H. destruct (find_child_kids h v g _ Hok H) as (l & Hk & _ & _ & Hw).
  rewrite (kids_find_child h' v g _ (Hkids v l Hk)), after_step_insert. f_equal.
  assert (Hl : first_named h' g l = Some w).
  { rewrite (first_named_ext h h'); [done|]. intros c. by apply (names_inserted v). }
  destruct (decide (v = d)) as [->|Hvd]; [|done].
  cbn. rewrite Hnew. rewrite decide_False; [done|].
  intros [= ->]. rewrite H in Hfree. done.
Qed.

(** The new name leads to the new node. *)
Lemma found_inserted dn : h !! d = Some dn → find_child h' d nm = Some (Some new).
Proof.
  intros Hd. destruct (Hok d dn Hd) as (l & Hl & _).
  assert (Hk : kids h d l) by (by exists dn).
  rewrite (kids_find_child h' d nm _ (Hkids d l Hk)), after_step_insert.
  rewrite decide_True by done. cbn. by rewrite Hnew, decide_True.
Qed.

(** A path that led to a node still leads to it. *)
Lemma walk_inserted parts :
  ∀ v r, walk h v parts = Some (Some r) → walk h' v parts = Some (Some r).
Proof.
  induction parts as [|part parts IH]; intros v r H; [done|].
  rewrite walk_cons in H. rewrite walk_cons.
  destruct (String.eqb part "" || String.eqb part "."); [by apply IH|].
  destruct (String.eqb part "..").
  - apply bind_Some in H as (n & Hn & H).
    destruct (Hold v n Hn) as (n' & Hn' & _ & Hp). rewrite Hn'. cbn. rewrite Hp.
    destruct (parent n); by apply IH.
  - apply bind_Some in H as (nxt & Hnxt & H). destruct nxt as [w|]; [|done].
    rewrite (step_inserted _ _ _ Hnxt). cbn. by apply IH.
Qed.

End inserted.

(** *** Where a path can end *)

Lemma split_pieces c s g : g ∈ Py.split c s → Py.contains c g = false.
Proof.
  revert g. induction s as [|a s IH]; intros g; cbn [Py.split].
  - by intros ->%list_elem_of_singleton.
  - destruct (Ascii.eqb a c) eqn:Ha.
    + intros [->|Hg]%elem_of_cons; [done|by apply IH].
    + destruct (Py.split c s) as [|w ws] eqn:Hs.
      * intros ->%list_elem_of_singleton. cbn. by rewrite Ha.
      * intros [->|Hg]%elem_of_cons.
        -- cbn. rewrite Ha. cbn. apply IH. by left.
        -- apply IH. by right.
Qed.

Lemma split_whole c s : Py.contains c s = false → Py.split c s = [s].
Proof.
  induction s as [|a s IH]; [done|]. cbn [Py.contains Py.split].
  intros [Ha Hs]%orb_false_iff. rewrite Ha, (IH Hs). done.
Qed.

(** A path ends where it started, at the parent of some node, or at a
    node that bears one of its names. *)
Lemma walk_lands h parts :
  chains_ok h →
  ∀ v r, walk h v parts = Some (Some r) →
    r = v
    ∨ (∃ c, parent_of h c = Some r)
    ∨ (∃ g, g ∈ parts ∧ g ≠ "" ∧ g ≠ "." ∧ g ≠ ".." ∧ name_of h r = Some g).
Proof.
  intros Hok. induction parts as [|part parts IH]; intros v r H.
  - left. cbn in H. by injection H.
  - rewrite walk_cons in H.
    assert (Hmore : ∀ u, walk h u parts = Some (Some r) →
              r = u
              ∨ (∃ c, parent_of h c = Some r)
              ∨ (∃ g, g ∈ part :: parts ∧ g ≠ "" ∧ g ≠ "." ∧ g ≠ ".."
                      ∧ name_of h r = Some g)).
    { intros u Hu. destruct (IH u r Hu) as [?|[?|(g & Hg & ?)]]; [by left|by right; left|].
      right; right. exists g. split; [by right|done]. }
    destruct (String.eqb_spec part "") as [->|Hne1]; [by apply Hmore|].
    destruct (String.eqb_spec part ".") as [->|Hne2]; [by apply Hmore|].
    cbn [orb] in H. destruct (String.eqb_spec part "..") as [->|Hne3].
    + apply bind_Some in H as (n & Hn & H). destruct (parent n) as [p|] eqn:Hp.
      * destruct (Hmore p H) as [->|?]; [|by right]. right; left. exists v.
        unfold parent_of. by rewrite Hn.
      * by apply Hmore.
    + apply bind_Some in H as (nxt & Hnxt & H). destruct nxt as [w|]; [|done].
      destruct (Hmore w H) as [->|?]; [|by right]. right; right. exists part.
      split; [by left|]. split_and!; try done.
      destruct (find_child_kids h v part _ Hok Hnxt) as (l & _ & _ & _ & Hw).
      symmetry in Hw. by apply first_named_Some in Hw as [_ ?].
Qed.

(** ** What [mkdir] and [touch] make *)

(** The new node is found under its name, existing paths lead where they
    led, and the path made of the name alone leads from the directory to
    the new node exactly when the name is a segment. *)
Lemma create_in_paths fs target nm file out o fs' :
  wf fs → target < length (nodes fs) →
  create_in fs target nm file out = Some (Ok o, fs') →
  find_child (nodes fs') target nm = Some (Some (length (nodes fs)))
  ∧ (∀ parts v r, walk (nodes fs) v parts = Some (Some r) →
                  walk (nodes fs') v parts = Some (Some r))
  ∧ (get_node_by_path (with_current target fs') nm = Some (Some (length (nodes fs)))
     ↔ segment_name nm).
Proof.
  intros Hwf Htarget H.
  destruct (create_in_Ok _ _ _ _ _ _ _ Htarget H)
    as (_ & Hfree & Hroot & Hcur & Hlen & _ & (m & Hm & Hnm & _ & Hpm & _) & Hold).
  pose proof (create_in_kids _ _ _ _ _ _ _ Hwf Htarget H) as Hkids.
  pose proof (create_in_wf _ _ _ _ _ _ _ Hwf Htarget H) as Hwf'.
  pose proof (wf_chains _ Hwf) as Hok.
  assert (Hold' : ∀ x n, nodes fs !! x = Some n →
            ∃ n', nodes fs' !! x = Some n' ∧ name n' = name n ∧ parent n' = parent n).
  { intros x n Hn. destruct (Hold x n Hn) as (n' & ? & ? & _ & ? & _). by exists n'. }
  assert (Hname : name_of (nodes fs') (length (nodes fs)) = Some nm).
  { unfold name_of. rewrite Hm. cbn. by rewrite Hnm. }
  destruct (lookup_lt_is_Some_2 _ _ Htarget) as [tn Htn].
  pose proof (found_inserted _ _ _ _ _ Hok Hname Hkids tn Htn) as Hfound.
  split; [done|]. split.
  { intros parts v r. by apply (walk_inserted _ _ _ _ _ Hok Hold' Hname Hfree Hkids). }
  rewrite get_node_by_path_walk. cbn [nodes root current with_current]. split.
  - intros Hwalk.
    set (start := if Py.startswith Py.slash nm then root fs' else target) in Hwalk.
    assert (Hstart : start < length (nodes fs)).
    { subst start. destruct (Py.startswith Py.slash nm); [|done].
      rewrite Hroot. destruct (wf_root _ Hwf) as (-> & n & Hn & _).
      by eapply lookup_lt_Some. }
    destruct (walk_lands _ _ (wf_chains _ Hwf') _ _ Hwalk)
      as [Heq|[(c & Hc)|(g & Hg & Hg1 & Hg2 & Hg3 & Hgn)]].
    + lia.
    + exfalso. unfold parent_of in Hc.
      destruct (nodes fs' !! c) as [cn|] eqn:Hcn; [|done]. cbn in Hc.
      destruct (decide (c < length (nodes fs))) as [Hlt|Hge].
      * destruct (lookup_lt_is_Some_2 _ _ Hlt) as [cn0 Hcn0].
        destruct (Hold c cn0 Hcn0) as (cn' & Hcn' & _ & _ & Hp & _).
        rewrite Hcn in Hcn'. injection Hcn' as <-.
        destruct (wf_refs _ Hwf c cn0 Hcn0) as (Hv & _).
        rewrite Hp in Hc. apply Hv in Hc. lia.
      * apply lookup_lt_Some in Hcn as Hc'.
        assert (c = length (nodes fs)) as -> by lia.
        rewrite Hm in Hcn. injection Hcn as <-. rewrite Hpm in Hc.
        injection Hc as ->. lia.
    + rewrite Hname in Hgn. injection Hgn as ->.
      split; [by eapply split_pieces|done].
  - intros (Hslash & Hne1 & Hne2 & Hne3).
    assert (Hs : Py.startswith Py.slash nm = false).
    { destruct nm as [|a s]; [done|]. cbn in Hslash |- *.
      by apply orb_false_iff in Hslash as [-> _]. }
    rewrite Hs, (split_whole _ _ Hslash), walk_cons.
    apply String.eqb_neq in Hne1, Hne2, Hne3. rewrite Hne1, Hne2, Hne3. cbn.
    by rewrite Hfound.
Qed.

(** A successful [mkdir] allocates one node, the last of the store: an
    empty directory with the given name, which was free, under the
    directory the arguments name.  A look-up of the name there finds it.
    The name alone, read as a path from that directory, leads to it
    exactly when it is a segment: a directory called [.], [..] or [a/b] is
    made, but no such path reaches it.  Line lists, root and cursor stay. *)
Theorem mkdir_makes_directory fs args out fs' :
  wf fs → mkdir_command fs args = Some (Ok out, fs') →
  ∃ d nm n,
    placed fs args d nm
    ∧ length (nodes fs') = S (length (nodes fs))
    ∧ find_child (nodes fs) d nm = Some None
    ∧ nodes fs' !! length (nodes fs) = Some n
    ∧ name n = nm ∧ is_file n = false ∧ parent n = Some d
    ∧ child n = None ∧ content n = None
    ∧ lists fs' = lists fs ∧ root fs' = root fs ∧ current fs' = current fs
    ∧ find_child (nodes fs') d nm = Some (Some (length (nodes fs)))
    ∧ (get_node_by_path (with_current d fs') nm = Some (Some (length (nodes fs)))
       ↔ segment_name nm).
Proof.
  intros Hwf H. unfold mkdir_command in H.
  assert (Hmade : ∀ d nm, d < length (nodes fs) →
            create_in fs d nm false [] = Some (Ok out, fs') →
            placed fs args d nm →
            ∃ d nm n,
              placed fs args d nm
              ∧ length (nodes fs') = S (length (nodes fs))
              ∧ find_child (nodes fs) d nm = Some None
              ∧ nodes fs' !! length (nodes fs) = Some n
              ∧ name n = nm ∧ is_file n = false ∧ parent n = Some d
              ∧ child n = None ∧ content n = None
              ∧ lists fs' = lists fs ∧ root fs' = root fs ∧ current fs' = current fs
              ∧ find_child (nodes fs') d nm = Some (Some (length (nodes fs)))
              ∧ (get_node_by_path (with_current d fs') nm
                 = Some (Some (length (nodes fs)))
                 ↔ segment_name nm)).
  { intros d nm Hd Hc Hplaced.
    destruct (create_in_Ok _ _ _ _ _ _ _ Hd Hc)
      as (_ & Hfree & Hroot & Hcur & Hlen & Hlists & (n & Hn & ? & ? & ? & ? & ?) & _).
    destruct (create_in_paths _ _ _ _ _ _ _ Hwf Hd Hc) as (Hfound & _ & Hiff).
    exists d, nm, n. by split_and!. }
  destruct args as [|cmd [|a [|b [|c args]]]]; try done.
  - destruct (wf_current _ Hwf) as (cn & Hcn & _).
    apply (Hmade (current fs) a); [by eapply lookup_lt_Some|done|].
    left. by exists cmd.
  - apply bind_Some in H as (target & Htarget & H).
    destruct target as [t|]; [|done].
    apply bind_Some in H as (n & Hn & H). destruct (is_file n); [done|].
    apply (Hmade t b); [by eapply lookup_lt_Some|done|].
    right. by exists cmd, a.
Qed.

Lemma mkdir_makes_directory_witness :
  ∃ d nm n,
    placed (state_after ["mkdir a"]) ["mkdir"; "a"; "b"] d nm
    ∧ length (nodes (state_after ["mkdir a"; "mkdir a b"]))
      = S (length (nodes (state_after ["mkdir a"])))
    ∧ find_child (nodes (state_after ["mkdir a"])) d nm = Some None
    ∧ nodes (state_after ["mkdir a"; "mkdir a b"])
        !! length (nodes (state_after ["mkdir a"])) = Some n
    ∧ name n = nm ∧ is_file n = false ∧ parent n = Some d
    ∧ child n = None ∧ content n = None
    ∧ lists (state_after ["mkdir a"; "mkdir a b"]) = lists (state_after ["mkdir a"])
    ∧ root (state_after ["mkdir a"; "mkdir a b"]) = root (state_after ["mkdir a"])
    ∧ current (state_after ["mkdir a"; "mkdir a b"]) = current (state_after ["mkdir a"])
    ∧ find_child (nodes (state_after ["mkdir a"; "mkdir a b"])) d nm
      = Some (Some (length (nodes (state_after ["mkdir a"]))))
    ∧ (get_node_by_path (with_current d (state_after ["mkdir a"; "mkdir a b"])) nm
       = Some (Some (length (nodes (state_after ["mkdir a"]))))
       ↔ segment_name nm).
Proof.
  apply (mkdir_makes_directory (state_after ["mkdir a"]) ["mkdir"; "a"; "b"] []
           (state_after ["mkdir a"; "mkdir a b"])).
  - apply reachable_wf, state_after_reachable.
  - by vm_compute.
Defined.

(** The directories that [mkdir .] and [mkdir a/b] make are there, and no
    path of that name leads to them. *)
Example mkdir_odd_names :
  (name_of (nodes (state_after ["mkdir ."])) 1 = Some "."
   ∧ get_node_by_path (state_after ["mkdir ."]) "." = Some (Some 0))
  ∧ (name_of (nodes (state_after ["mkdir a/b"])) 1 = Some "a/b"
     ∧ get_node_by_path (state_after ["mkdir a/b"]) "a/b" = Some None).
Proof. by vm_compute. Qed.

Lemma endswith_txt_name nm :
  Py.endswith ".txt" nm = true → nm ≠ "" ∧ nm ≠ "." ∧ nm ≠ "..".
Proof. intros H. split_and!; intros ->; by vm_compute in H. Qed.

(** A successful [touch] allocates one node, the last of the store: a file
    without lines, whose name ends in [.txt] and was free, under the
    directory the arguments name; it says so in one line.  A look-up of the
    name there finds the file, and the name alone leads to it from that
    directory exactly when it holds no [/].  The lines of all other files
    are as before. *)
Theorem touch_makes_file fs args out fs' :
  wf fs → touch_command fs args = Some (Ok out, fs') →
  ∃ d nm n,
    placed fs args d nm
    ∧ length (nodes fs') = S (length (nodes fs))
    ∧ Py.endswith ".txt" nm = true
    ∧ out = ["File '" +:+ nm +:+ "' created."]
    ∧ find_child (nodes fs) d nm = Some None
    ∧ nodes fs' !! length (nodes fs) = Some n
    ∧ name n = nm ∧ is_file n = true ∧ parent n = Some d ∧ child n = None
    ∧ content_of fs' (length (nodes fs)) = Some []
    ∧ (∀ x, x < length (nodes fs) → content_of fs' x = content_of fs x)
    ∧ root fs' = root fs ∧ current fs' = current fs
    ∧ find_child (nodes fs') d nm = Some (Some (length (nodes fs)))
    ∧ (get_node_by_path (with_current d fs') nm = Some (Some (length (nodes fs)))
       ↔ Py.contains Py.slash nm = false).
Proof.
  intros Hwf H. unfold touch_command in H.
  assert (Hmade : ∀ d nm, d < length (nodes fs) →
            touch_tail fs d nm = Some (Ok out, fs') →
            placed fs args d nm →
            ∃ d nm n,
              placed fs args d nm
              ∧ length (nodes fs') = S (length (nodes fs))
              ∧ Py.endswith ".txt" nm = true
              ∧ out = ["File '" +:+ nm +:+ "' created."]
              ∧ find_child (nodes fs) d nm = Some None
              ∧ nodes fs' !! length (nodes fs) = Some n
              ∧ name n = nm ∧ is_file n = true ∧ parent n = Some d ∧ child n = None
              ∧ content_of fs' (length (nodes fs)) = Some []
              ∧ (∀ x, x < length (nodes fs) → content_of fs' x = content_of fs x)
              ∧ root fs' = root fs ∧ current fs' = current fs
              ∧ find_child (nodes fs') d nm = Some (Some (length (nodes fs)))
              ∧ (get_node_by_path (with_current d fs') nm
                 = Some (Some (length (nodes fs)))
                 ↔ Py.contains Py.slash nm = false)).
  { intros d nm Hd Hc Hplaced. unfold touch_tail in Hc.
    destruct (Py.endswith ".txt" nm) eqn:Hends; [|done]. cbn [negb] in Hc.
    destruct (create_in_Ok _ _ _ _ _ _ _ Hd Hc)
      as (Hout & Hfree & Hroot & Hcur & Hlen & Hlists
          & (n & Hn & ? & ? & ? & ? & Hcontent) & Hold).
    destruct (create_in_paths _ _ _ _ _ _ _ Hwf Hd Hc) as (Hfound & _ & Hiff).
    exists d, nm, n. split_and!; try done.
    - unfold content_of. rewrite Hn. cbn. rewrite Hcontent. cbn.
      rewrite Hlists. by apply list_lookup_middle.
    - intros x Hx. destruct (lookup_lt_is_Some_2 _ _ Hx) as [xn Hxn].
      destruct (Hold x xn Hxn) as (xn' & Hxn' & _ & _ & _ & Hc').
      unfold content_of. rewrite Hxn, Hxn'. cbn. rewrite Hc'.
      destruct (content xn) as [k|] eqn:Hk; [|done]. cbn. rewrite Hlists.
      apply lookup_app_l.
      destruct (wf_refs _ Hwf x xn Hxn) as (_ & _ & _ & Hv). by apply Hv.
    - rewrite Hiff. unfold segment_name.
      destruct (endswith_txt_name nm Hends) as (? & ? & ?).
      split; [by intros [? _]|by intros ?; split_and!]. }
  destruct args as [|cmd [|a [|b [|c args]]]]; try done.
  - destruct (wf_current _ Hwf) as (cn & Hcn & _).
    apply (Hmade (current fs) a); [by eapply lookup_lt_Some|done|].
    left. by exists cmd.
  - apply bind_Some in H as (target & Htarget & H).
    destruct target as [t|]; [|done].
    apply bind_Some in H as (n & Hn & H). destruct (is_file n); [done|].
    apply (Hmade t b); [by eapply lookup_lt_Some|done|].
    right. by exists cmd, a.
Qed.

Lemma touch_makes_file_witness :
  ∃ d nm n,
    placed (state_after ["mkdir a"]) ["touch"; "a"; "x.txt"] d nm
    ∧ length (nodes (state_after ["mkdir a"; "touch a x.txt"]))
      = S (length (nodes (state_after ["mkdir a"])))
    ∧ Py.endswith ".txt" nm = true
    ∧ ["File 'x.txt' created."] = ["File '" +:+ nm +:+ "' created."]
    ∧ find_child (nodes (state_after ["mkdir a"])) d nm = Some None
    ∧ nodes (state_after ["mkdir a"; "touch a x.txt"])
        !! length (nodes (state_after ["mkdir a"])) = Some n
    ∧ name n = nm ∧ is_file n = true ∧ parent n = Some d ∧ child n = None
    ∧ content_of (state_after ["mkdir a"; "touch a x.txt"])
        (length (nodes (state_after ["mkdir a"]))) = Some []
    ∧ (∀ x, x < length (nodes (state_after ["mkdir a"])) →
         content_of (state_after ["mkdir a"; "touch a x.txt"]) x
         = content_of (state_after ["mkdir a"]) x)
    ∧ root (state_after ["mkdir a"; "touch a x.txt"]) = root (state_after ["mkdir a"])
    ∧ current (state_after ["mkdir a"; "touch a x.txt"])
      = current (state_after ["mkdir a"])
    ∧ find_child (nodes (state_after ["mkdir a"; "touch a x.txt"])) d nm
      = Some (Some (length (nodes (state_after ["mkdir a"]))))
    ∧ (get_node_by_path (with_current d (state_after ["mkdir a"; "touch a x.txt"])) nm
       = Some (Some (length (nodes (state_after ["mkdir a"]))))
       ↔ Py.contains Py.slash nm = false).
Proof.
  apply (touch_makes_file (state_after ["mkdir a"]) ["touch"; "a"; "x.txt"]
           ["File 'x.txt' created."] (state_after ["mkdir a"; "touch a x.txt"])).
  - apply reachable_wf, state_after_reachable.
  - by vm_compute.
Defined.

(** ** Paths that resolved keep resolving *)

Lemma cp_paths fs args out fs' :
  wf fs → cp_command fs args = Some (Ok out, fs') →
  root fs' = root fs ∧ current fs' = current fs
  ∧ ∀ parts v r, walk (nodes fs) v parts = Some (Some r) →
                 walk (nodes fs') v parts = Some (Some r).
Proof.
  intros Hwf H.
  destruct (cp_command_Ok _ _ _ _ H)
    as (cmd & sp & dp & s & sn & d & dn & nm & fs1 & copy & h
        & -> & Hs & Hsn & Hdest & Hdn & Hdir & Hfind & Hdc & Hadd & ->).
  destruct (copy_into _ fs s sn d nm _ fs1 copy h Hwf Hsn
              (lookup_lt_Some _ _ _ Hdn) eq_refl Hfind Hdc Hadd)
    as (_ & -> & Hg & Hd & Hkd & t & _ & Hfresh).
  pose proof Hg as (_ & _ & _ & Hroot & Hcur).
  split; [done|]. split; [done|]. intros parts.
  cbn [nodes with_nodes] in *.
  apply (walk_inserted (nodes fs) h (length (nodes fs)) d (arrival_name nm sn)).
  - by apply wf_chains.
  - intros x n Hn. destruct (decide (x = d)) as [->|Hxd].
    + rewrite Hd, Hn. cbn. by eexists.
    + exists n. split; [|done].
      rewrite <- Hn. apply (grows_lookup _ _ _ _ Hg); [by eapply lookup_lt_Some|done].
  - rewrite (fresh_tree_name _ _ _ _ _ _ Hfresh). by destruct (mirror t).
  - done.
  - intros p l Hk. rewrite after_step_insert. destruct (decide (p = d)) as [->|Hne].
    + by apply Hkd.
    + by apply (copy_kids fs (with_nodes h fs1) d (length (nodes fs))).
Qed.

(** [mkdir], [touch] and [cp] never break or redirect a path: whatever
    path led to a node before the command leads to the same node after it,
    whether the command succeeded or not. *)
Theorem insertion_keeps_paths c fs args stdin res fs' stdin' path r :
  wf fs → is_insertion c = true →
  run_command c fs args stdin = Some (res, fs', stdin') →
  get_node_by_path fs path = Some (Some r) →
  get_node_by_path fs' path = Some (Some r).
Proof.
  intros Hwf Hc H. destruct res as [out|msg].
  2:{ by rewrite (command_error_same _ _ _ _ _ _ _ H). }
  rewrite !get_node_by_path_walk.
  assert (Hcreate : ∀ d nm file o,
            d < length (nodes fs) →
            create_in fs d nm file o = Some (Ok out, fs') →
            root fs' = root fs ∧ current fs' = current fs
            ∧ ∀ parts v r, walk (nodes fs) v parts = Some (Some r) →
                           walk (nodes fs') v parts = Some (Some r)).
  { intros d nm file o Hd Hcr.
    destruct (create_in_Ok _ _ _ _ _ _ _ Hd Hcr) as (_ & _ & ? & ? & _).
    by destruct (create_in_paths _ _ _ _ _ _ _ Hwf Hd Hcr) as (_ & ? & _). }
  destruct (wf_current _ Hwf) as (cn & Hcn%lookup_lt_Some & _).
  destruct c; try done; cbn [run_command] in H; unfold no_input in H;
    apply bind_Some in H as ([r0 f] & H & [= -> -> ->]).
  - unfold mkdir_command in H.
    destruct args as [|cmd [|a [|b [|? ?]]]]; try done.
    + destruct (Hcreate _ _ _ _ Hcn H) as (-> & -> & Hw). apply Hw.
    + apply bind_Some in H as (target & Htarget & H).
      destruct target as [t|]; [|done].
      apply bind_Some in H as (n & Hn%lookup_lt_Some & H).
      destruct (is_file n); [done|].
      destruct (Hcreate _ _ _ _ Hn H) as (-> & -> & Hw). apply Hw.
  - unfold touch_command, touch_tail in H.
    destruct args as [|cmd [|a [|b [|? ?]]]]; try done.
    + destruct (negb _); [done|].
      destruct (Hcreate _ _ _ _ Hcn H) as (-> & -> & Hw). apply Hw.
    + apply bind_Some in H as (target & Htarget & H).
      destruct target as [t|]; [|done].
      apply bind_Some in H as (n & Hn%lookup_lt_Some & H).
      destruct (is_file n); [done|]. destruct (negb _); [done|].
      destruct (Hcreate _ _ _ _ Hn H) as (-> & -> & Hw). apply Hw.
  - destruct (cp_paths _ _ _ _ Hwf H) as (-> & -> & Hw). apply Hw.
Qed.

Lemma insertion_keeps_paths_witness :
  get_node_by_path (state_after ["mkdir d"; "touch d a.txt"; "cp d e"]) "d/a.txt"
  = Some (Some 2).
Proof.
  apply (insertion_keeps_paths Cp (state_after ["mkdir d"; "touch d a.txt"])
           ["cp"; "d"; "e"] [] (Ok [])
           (state_after ["mkdir d"; "touch d a.txt"; "cp d e"]) [] "d/a.txt" 2).
  - apply reachable_wf, state_after_reachable.
  - done.
  - by vm_compute.
  - by vm_compute.
Defined.

(** ** Writing lines and reading them back *)

Lemma same_links_lookup_None h h' x : same_links h h' → h !! x = None → h' !! x = None.
Proof.
  intros [Hlen _] Hx. apply lookup_ge_None. apply lookup_ge_None in Hx. lia.
Qed.

Lemma find_child_from_same_links h h' nm fuel :
  same_links h h' →
  ∀ o, find_child_from fuel h' o nm = find_child_from fuel h o nm.
Proof.
  intros Hsame. induction fuel as [|fuel IH]; intros [c|]; cbn; try done.
  destruct (h !! c) as [n|] eqn:Hn.
  - destruct Hsame as [_ Hs]. destruct (Hs c n Hn) as (n' & -> & Hnm & _ & _ & Hnx).
    cbn. rewrite Hnm, Hnx. destruct (String.eqb (name n) nm); [done|]. apply IH.
  - by rewrite (same_links_lookup_None _ _ _ Hsame Hn).
Qed.

Lemma find_child_same_links h h' v nm :
  same_links h h' → find_child h' v nm = find_child h v nm.
Proof.
  intros Hsame. unfold find_child. destruct (h !! v) as [n|] eqn:Hn.
  - pose proof Hsame as [Hlen Hs].
    destruct (Hs v n Hn) as (n' & -> & _ & _ & Hch & _). cbn.
    rewrite Hch, Hlen. by apply find_child_from_same_links.
  - by rewrite (same_links_lookup_None _ _ _ Hsame Hn).
Qed.

Lemma walk_same_links h h' parts :
  same_links h h' → ∀ v, walk h' v parts = walk h v parts.
Proof.
  intros Hsame. induction parts as [|part parts IH]; intros v; [done|].
  rewrite !walk_cons.
  destruct (String.eqb part "" || String.eqb part "."); [apply IH|].
  destruct (String.eqb part "..").
  - destruct (h !! v) as [n|] eqn:Hn.
    + destruct Hsame as [_ Hs]. destruct (Hs v n Hn) as (n' & -> & _ & Hp & _).
      cbn. rewrite Hp. destruct (parent n); apply IH.
    + by rewrite (same_links_lookup_None _ _ _ Hsame Hn).
  - rewrite (find_child_same_links h h') by done.
    destruct (find_child h v part) as [[x|]|]; cbn; [apply IH|done..].
Qed.

(** A store with the same links resolves every path alike. *)
Lemma get_node_by_path_same_links fs fs' path :
  same_links (nodes fs) (nodes fs') → root fs' = root fs → current fs' = current fs →
  get_node_by_path fs' path = get_node_by_path fs path.
Proof.
  intros Hsame Hroot Hcur. rewrite !get_node_by_path_walk, Hroot, Hcur.
  by apply walk_same_links.
Qed.

Lemma same_links_refl h : same_links h h.
Proof. split; [done|]. intros x n Hn. by exists n. Qed.

Lemma same_links_set_content h k r : same_links h (alter (set_content k) r h).
Proof.
  split; [by rewrite length_alter|]. intros x n Hn.
  destruct (decide (r = x)) as [->|Hne].
  - rewrite list_lookup_alter_eq, Hn. cbn. by eexists.
  - rewrite list_lookup_alter_ne by done. by exists n.
Qed.

(** The console loop takes the lines up to the first end line, and what
    follows that line is left on the console. *)
Lemma read_lines_end new_lines end_line rest :
  Forall (λ l, is_end l = false) new_lines → is_end end_line = true →
  read_lines (new_lines ++ end_line :: rest) = Some (new_lines, rest).
Proof.
  intros Hnew Hend. induction Hnew as [|l ls Hl _ IH]; cbn.
  - unfold is_end in Hend. by rewrite Hend.
  - unfold is_end in Hl. rewrite Hl. cbn. by rewrite IH.
Qed.

Lemma read_lines_none stdin :
  Forall (λ l, is_end l = false) stdin → read_lines stdin = None.
Proof.
  induction 1 as [|l ls Hl _ IH]; [done|]. cbn. unfold is_end in Hl.
  by rewrite Hl, IH.
Qed.

(** [nwfiletxt] on a path that names a file: if no end line comes, be the
    console empty or not, the command does not return ([input] raises at
    the end of the console).
    If the console delivers [new_lines] and then an end line, the command
    returns with the rest of the console unread; the links of all nodes
    are as before, [cat] of the same path then prints exactly [new_lines],
    and every other node has the content it had. *)
Theorem nwfiletxt_then_cat fs cmd cmd' path r n new_lines end_line rest :
  wf fs → file_at fs path = Some (Some (r, n)) →
  Forall (λ l, is_end l = false) new_lines →
  nwfiletxt_command fs [cmd; path] new_lines = None
  ∧ (is_end end_line = false →
     nwfiletxt_command fs [cmd; path] (new_lines ++ [end_line]) = None)
  ∧ (is_end end_line = true →
     ∃ out fs',
       nwfiletxt_command fs [cmd; path] (new_lines ++ end_line :: rest)
       = Some (Ok out, fs', rest)
       ∧ same_links (nodes fs) (nodes fs')
       ∧ root fs' = root fs ∧ current fs' = current fs
       ∧ cat_command fs' [cmd'; path] = Some (Ok new_lines, fs')
       ∧ ∀ x, x ≠ r → content_of fs' x = content_of fs x).
Proof.
  intros Hwf Hfile Hnew. unfold nwfiletxt_command. rewrite Hfile.
  cbn [mbind option_bind]. split; [by rewrite read_lines_none|]. split.
  - intros Hend. rewrite read_lines_none; [done|].
    apply Forall_app. split; [done|]. by constructor.
  - intros Hend. rewrite (read_lines_end _ _ _ Hnew Hend). cbn [mbind option_bind].
    eexists _, _. split; [reflexivity|]. cbn [nodes lists root current].
    split; [apply same_links_set_content|]. split; [done|]. split; [done|].
    destruct (file_at_Some _ _ _ _ Hfile) as [Hr Hf]. split.
    + unfold cat_command, file_at.
      rewrite (get_node_by_path_same_links fs); cbn [nodes root current];
        [|apply same_links_set_content|done|done].
      unfold file_at in Hfile.
      destruct (get_node_by_path fs path) as [[r'|]|]; cbn in Hfile |- *; try done.
      assert (r' = r) as ->.
      { destruct (nodes fs !! r'); cbn in Hfile; [|done].
        destruct (is_file f); by simplify_eq. }
      rewrite list_lookup_alter_eq, Hr. cbn. rewrite Hf. cbn.
      by rewrite list_lookup_middle.
    + intros x Hx. unfold content_of. cbn.
      rewrite list_lookup_alter_ne by done.
      destruct (nodes fs !! x) as [nx|] eqn:Hnx; [|done]. cbn.
      destruct (content nx) as [k|] eqn:Hk; [|done]. cbn. apply lookup_app_l.
      destruct (wf_refs _ Hwf x nx Hnx) as (_ & _ & _ & Hv). by apply Hv.
Qed.

Lemma nwfiletxt_then_cat_witness :
  nwfiletxt_command (state_after ["touch f.txt"]) ["nwfiletxt"; "f.txt"]
    ["one"; "two"] = None
  ∧ (is_end " /end/ " = false →
     nwfiletxt_command (state_after ["touch f.txt"]) ["nwfiletxt"; "f.txt"]
       (["one"; "two"] ++ [" /end/ "]) = None)
  ∧ (is_end " /end/ " = true →
     ∃ out fs',
       nwfiletxt_command (state_after ["touch f.txt"]) ["nwfiletxt"; "f.txt"]
         (["one"; "two"] ++ " /end/ " :: ["ls"])
       = Some (Ok out, fs', ["ls"])
       ∧ same_links (nodes (state_after ["touch f.txt"])) (nodes fs')
       ∧ root fs' = root (state_after ["touch f.txt"])
       ∧ current fs' = current (state_after ["touch f.txt"])
       ∧ cat_command fs' ["cat"; "f.txt"] = Some (Ok ["one"; "two"], fs')
       ∧ ∀ x, x ≠ 1 → content_of fs' x = content_of (state_after ["touch f.txt"]) x).
Proof.
  apply (nwfiletxt_then_cat (state_after ["touch f.txt"]) "nwfiletxt" "cat" "f.txt" 1
           (mkNode "f.txt" true (Some 0) None None (Some 0))
           ["one"; "two"] " /end/ " ["ls"]).
  - apply reachable_wf, state_after_reachable.
  - by vm_compute.
  - by repeat constructor.
Defined.

(** [appendtxt] on a path that names a file with the lines [l]: when the
    console delivers [new_lines] and then an end line, the command returns
    with the rest of the console unread and no node changed; [cat] of the
    same path then prints [l] followed by [new_lines], and every node that
    holds another line list has the content it had.  Without an end line,
    be the console empty or not, the command does not return. *)
Theorem appendtxt_then_cat fs cmd cmd' path r n k l new_lines end_line rest :
  file_at fs path = Some (Some (r, n)) →
  content n = Some k → lists fs !! k = Some l →
  Forall (λ l, is_end l = false) new_lines →
  appendtxt_command fs [cmd; path] new_lines = None
  ∧ (is_end end_line = false →
     appendtxt_command fs [cmd; path] (new_lines ++ [end_line]) = None)
  ∧ (is_end end_line = true →
     ∃ out fs',
       appendtxt_command fs [cmd; path] (new_lines ++ end_line :: rest)
       = Some (Ok out, fs', rest)
       ∧ nodes fs' = nodes fs ∧ root fs' = root fs ∧ current fs' = current fs
       ∧ cat_command fs' [cmd'; path] = Some (Ok (l ++ new_lines), fs')
       ∧ ∀ x nx, nodes fs !! x = Some nx → content nx ≠ Some k →
                 content_of fs' x = content_of fs x).
Proof.
  intros Hfile Hk Hl Hnew. unfold appendtxt_command. rewrite Hfile.
  cbn [mbind option_bind]. split; [by rewrite read_lines_none|]. split.
  - intros Hend. rewrite read_lines_none; [done|].
    apply Forall_app. split; [done|]. by constructor.
  - intros Hend. rewrite (read_lines_end _ _ _ Hnew Hend). cbn [mbind option_bind].
    rewrite Hk. cbn [mbind option_bind]. rewrite Hl. cbn [mbind option_bind].
    eexists _, _. split; [reflexivity|].
    split; [done|]. split; [done|]. split; [done|]. split.
    + unfold cat_command.
      change (file_at (with_lists ?ls fs) path) with (file_at fs path).
      rewrite Hfile. cbn [mbind option_bind]. rewrite Hk. cbn.
      by rewrite list_lookup_alter_eq, Hl.
    + intros x nx Hx Hne. unfold content_of. cbn. rewrite Hx. cbn.
      destruct (content nx) as [j|]; [|done]. cbn.
      apply list_lookup_alter_ne. congruence.
Qed.

Lemma appendtxt_then_cat_witness :
  appendtxt_command (state_after ["touch f.txt"]) ["appendtxt"; "f.txt"]
    ["one"; "two"] = None
  ∧ (is_end "/end/" = false →
     appendtxt_command (state_after ["touch f.txt"]) ["appendtxt"; "f.txt"]
       (["one"; "two"] ++ ["/end/"]) = None)
  ∧ (is_end "/end/" = true →
     ∃ out fs',
       appendtxt_command (state_after ["touch f.txt"]) ["appendtxt"; "f.txt"]
         (["one"; "two"] ++ "/end/" :: ["ls"])
       = Some (Ok out, fs', ["ls"])
       ∧ nodes fs' = nodes (state_after ["touch f.txt"])
       ∧ root fs' = root (state_after ["touch f.txt"])
       ∧ current fs' = current (state_after ["touch f.txt"])
       ∧ cat_command fs' ["cat"; "f.txt"] = Some (Ok ([] ++ ["one"; "two"]), fs')
       ∧ ∀ x nx, nodes (state_after ["touch f.txt"]) !! x = Some nx →
                 content nx ≠ Some 0 →
                 content_of fs' x = content_of (state_after ["touch f.txt"]) x).
Proof.
  apply (appendtxt_then_cat (state_after ["touch f.txt"]) "appendtxt" "cat" "f.txt" 1
           (mkNode "f.txt" true (Some 0) None None (Some 0)) 0 []
           ["one"; "two"] "/end/" ["ls"]).
  - by vm_compute.
  - done.
  - by vm_compute.
  - by repeat constructor.
Defined.

(** Appending one line to a file of [length l] lines and then deleting
    line [length l + 1] gives back the very store the two commands
    started from. *)
Theorem append_then_deline fs cmd cmd' path r n k l line end_line rest number :
  file_at fs path = Some (Some (r, n)) →
  content n = Some k → lists fs !! k = Some l →
  is_end line = false → is_end end_line = true →
  Py.int number = Some (Z.of_nat (S (length l))) →
  ∃ out fs',
    appendtxt_command fs [cmd; path] (line :: end_line :: rest)
    = Some (Ok out, fs', rest)
    ∧ content_of fs' r = Some (l ++ [line])
    ∧ deline_command fs' [cmd'; path; number] = Some (Ok [], fs).
Proof.
  intros Hfile Hk Hl Hline Hend Hnum. unfold appendtxt_command. rewrite Hfile.
  cbn [mbind option_bind].
  change (line :: end_line :: rest) with ([line] ++ end_line :: rest).
  rewrite (read_lines_end [line] end_line rest) by (by repeat constructor).
  cbn [mbind option_bind]. rewrite Hk. cbn [mbind option_bind].
  rewrite Hl. cbn [mbind option_bind].
  eexists _, _. split; [reflexivity|].
  destruct (file_at_Some _ _ _ _ Hfile) as [Hr Hf]. split.
  { unfold content_of. cbn. rewrite Hr. cbn. rewrite Hk. cbn.
    by rewrite list_lookup_alter_eq, Hl. }
  unfold deline_command.
  change (file_at (with_lists ?ls fs) path) with (file_at fs path).
  rewrite Hfile. cbn [mbind option_bind]. unfold edit_at. rewrite Hnum, Hk.
  cbn [mbind option_bind lists with_lists].
  rewrite list_lookup_alter_eq, Hl. cbn [fmap option_fmap option_map mbind option_bind].
  rewrite length_app. cbn [length].
  replace ((Z.of_nat (S (length l)) <? 1)%Z
           || (Z.of_nat (length l + 1) <? Z.of_nat (S (length l)))%Z) with false
    by (symmetry; apply orb_false_iff; split; apply Z.ltb_ge; lia).
  do 2 f_equal. replace (Z.to_nat (Z.of_nat (S (length l)) - 1)) with (length l) by lia.
  rewrite (alter_as_insert _ _ k l Hl).
  rewrite (alter_as_insert _ _ k (l ++ [line])).
  2:{ rewrite list_lookup_insert_eq; [done|]. by eapply lookup_lt_Some. }
  rewrite list_insert_insert_eq.
  replace (delete (length l) (l ++ [line])) with l.
  2:{ rewrite delete_take_drop, take_app_length.
      rewrite drop_ge; [by rewrite app_nil_r|]. rewrite length_app. cbn. lia. }
  rewrite (list_insert_id _ _ _ Hl). by destruct fs.
Qed.

Lemma append_then_deline_witness :
  ∃ out fs',
    appendtxt_command (state_after ["touch f.txt"]) ["appendtxt"; "f.txt"]
      ("one" :: "/end/" :: [])
    = Some (Ok out, fs', [])
    ∧ content_of fs' 1 = Some ([] ++ ["one"])
    ∧ deline_command fs' ["deline"; "f.txt"; "1"]
      = Some (Ok [], state_after ["touch f.txt"]).
Proof.
  apply (append_then_deline (state_after ["touch f.txt"]) "appendtxt" "deline" "f.txt" 1
           (mkNode "f.txt" true (Some 0) None None (Some 0)) 0 [] "one" "/end/" [] "1");
    by vm_compute.
Defined.

(** ** Renaming there and back *)

Lemma first_named_unique h g l t :
  t ∈ l → name_of h t = Some g →
  (∀ c, c ∈ l → c ≠ t → name_of h c ≠ Some g) →
  first_named h g l = Some t.
Proof.
  intros Ht Hg Hothers. destruct (first_named h g l) as [c|] eqn:Hc.
  - apply first_named_Some in Hc as [Hcl Hcg].
    destruct (decide (c = t)) as [->|Hne]; [done|]. by destruct (Hothers c).
  - rewrite first_named_None in Hc. by destruct (Hc t).
Qed.

Lemma name_of_set_name h nm t x :
  t < length h →
  name_of (alter (set_name nm) t h) x = if decide (x = t) then Some nm else name_of h x.
Proof.
  intros Ht. unfold name_of. destruct (decide (x = t)) as [->|Hne].
  - rewrite list_lookup_alter_eq. by destruct (lookup_lt_is_Some_2 h t Ht) as [n ->].
  - by rewrite list_lookup_alter_ne.
Qed.

(** A successful [rename] of a node that is among the children of its
    parent: the new name is then found there and leads to the node, the old
    name is found there no more, and renaming the node back to its old name
    succeeds and restores the very store the first command started from. *)
Theorem rename_there_and_back fs cmd path new_name out fs' cmd' path' t n p l :
  wf fs →
  rename_command fs [cmd; path; new_name] = Some (Ok out, fs') →
  get_node_by_path fs path = Some (Some t) →
  nodes fs !! t = Some n → parent n = Some p →
  kids (nodes fs) p l → t ∈ l →
  get_node_by_path fs' path' = Some (Some t) →
  new_name ≠ name n
  ∧ find_child (nodes fs') p new_name = Some (Some t)
  ∧ find_child (nodes fs') p (name n) = Some None
  ∧ rename_command fs' [cmd'; path'; name n] = Some (Ok [], fs).
Proof.
  intros Hwf H Hpath Hn Hp Hk Ht Hpath'.
  unfold rename_command in H. rewrite Hpath in H. cbn [mbind option_bind] in H.
  rewrite Hn in H. cbn [mbind option_bind] in H. rewrite Hp in H.
  destruct (find_child (nodes fs) p new_name) as [[dup|]|] eqn:Hfree; try done.
  cbn in H. injection H as _ <-.
  pose proof (lookup_lt_Some _ _ _ Hn) as Hlt.
  pose proof (find_child_None_kids _ _ _ _ Hfree Hk) as Hnone.
  rewrite first_named_None in Hnone.
  assert (Hnew : new_name ≠ name n).
  { intros ->. apply (Hnone t Ht). unfold name_of. by rewrite Hn. }
  assert (Hnd : NoDup (name_of (nodes fs) <$> l)).
  { destruct Hk as (pn & Hpn & Hl). destruct (wf_chains _ Hwf p pn Hpn) as (l' & Hl' & _ & Hnd).
    by rewrite (chain_det _ _ _ _ Hl Hl'). }
  assert (Hk' : kids (alter (set_name new_name) t (nodes fs)) p l)
    by (by apply kids_alter_keep).
  cbn [nodes with_nodes] in *. split; [done|]. split; [|split].
  - rewrite (kids_find_child _ _ _ _ Hk'). f_equal.
    apply first_named_unique; [done|..].
    + rewrite name_of_set_name by done. by rewrite decide_True.
    + intros c Hc Hne. rewrite name_of_set_name by done.
      rewrite decide_False by done. by apply Hnone.
  - rewrite (kids_find_child _ _ _ _ Hk'). f_equal.
    apply first_named_None. intros c Hc. rewrite name_of_set_name by done.
    destruct (decide (c = t)) as [->|Hne]; [congruence|].
    intros Hcn. apply Hne.
    eapply (NoDup_fmap_inj_on (name_of (nodes fs))); [done..|].
    rewrite Hcn. unfold name_of. by rewrite Hn.
  - assert (Hfree' : find_child (alter (set_name new_name) t (nodes fs)) p (name n)
                     = Some None).
    { rewrite (kids_find_child _ _ _ _ Hk'). f_equal.
      apply first_named_None. intros c Hc. rewrite name_of_set_name by done.
      destruct (decide (c = t)) as [->|Hne]; [congruence|].
      intros Hcn. apply Hne.
      eapply (NoDup_fmap_inj_on (name_of (nodes fs))); [done..|].
      rewrite Hcn. unfold name_of. by rewrite Hn. }
    unfold rename_command. rewrite Hpath'. cbn [mbind option_bind nodes with_nodes].
    rewrite list_lookup_alter_eq, Hn. cbn [fmap option_fmap option_map mbind option_bind].
    cbn [parent set_name]. rewrite Hp, Hfree'. cbn [mbind option_bind].
    do 2 f_equal. rewrite (alter_as_insert (set_name new_name) _ _ _ Hn).
    rewrite (alter_as_insert _ _ t (set_name new_name n))
      by (by apply list_lookup_insert_eq).
    rewrite list_insert_insert_eq.
    replace (set_name (name n) (set_name new_name n)) with n by (by destruct n).
    rewrite (list_insert_id _ _ _ Hn). by destruct fs.
Qed.

Lemma rename_there_and_back_witness :
  "b" ≠ name (mkNode "a" false (Some 0) None None None)
  ∧ find_child (nodes (state_after ["mkdir a"; "rename a b"])) 0 "b" = Some (Some 1)
  ∧ find_child (nodes (state_after ["mkdir a"; "rename a b"])) 0
      (name (mkNode "a" false (Some 0) None None None)) = Some None
  ∧ rename_command (state_after ["mkdir a"; "rename a b"])
      ["rename"; "b"; name (mkNode "a" false (Some 0) None None None)]
    = Some (Ok [], state_after ["mkdir a"]).
Proof.
  apply (rename_there_and_back (state_after ["mkdir a"]) "rename" "a" "b" []
           (state_after ["mkdir a"; "rename a b"]) "rename" "b" 1
           (mkNode "a" false (Some 0) None None None) 0 [1]).
  - apply reachable_wf, state_after_reachable.
  - by vm_compute.
  - by vm_compute.
  - by vm_compute.
  - done.
  - eexists. split; [by vm_compute|]. cbn. split; [done|]. eexists. split; [by vm_compute|done].
  - by left.
  - by vm_compute.
Defined.

(** ** What [rm] does *)

Section removed.
Variables (h h' : list FileSystemNode) (s : ref).
Hypothesis Hok : chains_ok h.
Hypothesis Hold :
  ∀ x n, h !! x = Some n →
    ∃ n', h' !! x = Some n' ∧ name n' = name n ∧ parent n' = parent n.
Hypothesis Hkids : ∀ p l, kids h p l → kids h' p (without s l).

Lemma names_removed p l c : kids h p l → c ∈ l → name_of h' c = name_of h c.
Proof.
  intros (n & Hn & Hl) Hc. destruct (chain_lookup _ _ _ _ Hl Hc) as [m Hm].
  destruct (Hold c m Hm) as (m' & Hm' & Hnm & _).
  unfold name_of. rewrite Hm, Hm'. cbn. by rewrite Hnm.
Qed.

(** A name that led to the removed node leads nowhere now; a name that led
    to another node still leads to it. *)
Lemma step_removed v g w :
  find_child h v g = Some (Some w) →
  find_child h' v g = Some (if decide (w = s) then None else Some w).
Proof.
  intros H. destruct (find_child_kids h v g _ Hok H) as (l & Hk & Hp & Hnd & Hw).
  symmetry in Hw. rewrite (kids_find_child h' v g _ (Hkids v l Hk)). f_equal.
  rewrite (first_named_ext h h').
  2:{ intros c [_ Hc]%elem_of_without. by apply (names_removed v l). }
  destruct (decide (w = s)) as [->|Hws];
    [by apply first_named_without_None|by apply first_named_without].
Qed.

(** A path that led from outside the removed subtree into it now stops
    at the gap. *)
Lemma walk_removed parts :
  ∀ v r, ¬ inside h s v → walk h v parts = Some (Some r) → inside h s r →
    walk h' v parts = Some None.
Proof.
  induction parts as [|part parts IH]; intros v r Hout H Hin.
  - cbn in H. injection H as <-. done.
  - rewrite walk_cons in H. rewrite walk_cons.
    destruct (String.eqb part "" || String.eqb part "."); [by eapply IH|].
    destruct (String.eqb part "..").
    + apply bind_Some in H as (n & Hn & H).
      destruct (Hold v n Hn) as (n' & Hn' & _ & Hp). rewrite Hn'. cbn. rewrite Hp.
      destruct (parent n) as [p|] eqn:Hpn.
      * eapply IH; [|done..]. intros Hp'. apply Hout.
        eapply inside_parent; [|done]. unfold parent_of. by rewrite Hn.
      * by eapply IH.
    + apply bind_Some in H as (nxt & Hnxt & H). destruct nxt as [w|]; [|done].
      rewrite (step_removed _ _ _ Hnxt). cbn.
      destruct (decide (w = s)) as [->|Hws]; [done|].
      eapply IH; [|done..]. intros Hw. apply Hws.
      destruct (find_child_kids h v part _ Hok Hnxt) as (l & Hk & Hp & Hnd & Hw').
      symmetry in Hw'. apply first_named_Some in Hw' as [Hwl _].
      eapply inside_child; [by apply Hp|done|done].
Qed.

End removed.

(** A successful [rm] of the node [t] changes the children collection of
    the parent of [t] and nothing else: that collection is the one before
    without [t], and every other children collection, the names, kinds,
    parents and contents of all nodes (of [t] and of its subtree too), the
    line lists, the root and the cursor are as before.  Every
    path that led to [t] or to a node below it no longer resolves, if it is
    absolute or if the cursor is outside the removed subtree; and if [t]
    was among its parent's children, its name is free there again. *)
Theorem rm_unlinks_subtree fs cmd path out fs' :
  wf fs → rm_command fs [cmd; path] = Some (Ok out, fs') →
  ∃ t tn par,
    get_node_by_path fs path = Some (Some t)
    ∧ nodes fs !! t = Some tn ∧ parent tn = Some par
    ∧ lists fs' = lists fs ∧ root fs' = root fs ∧ current fs' = current fs
    ∧ length (nodes fs') = length (nodes fs)
    ∧ (∀ x n, nodes fs !! x = Some n →
         ∃ n', nodes fs' !! x = Some n'
               ∧ name n' = name n ∧ is_file n' = is_file n
               ∧ parent n' = parent n ∧ content n' = content n)
    ∧ (∀ p l, kids (nodes fs) p l →
         kids (nodes fs') p (if decide (p = par) then without t l else l))
    ∧ (∀ path' r,
         get_node_by_path fs path' = Some (Some r) → inside (nodes fs) t r →
         Py.startswith Py.slash path' = true ∨ ¬ inside (nodes fs) t (current fs) →
         get_node_by_path fs' path' = Some None)
    ∧ (∀ l, kids (nodes fs) par l → t ∈ l →
         find_child (nodes fs') par (name tn) = Some None).
Proof.
  intros Hwf H.
  destruct (rm_command_Ok _ _ _ _ H)
    as (cmd0 & path0 & t & tn & par & h & Hargs & Hp & Ht & Hpar & Hun & ->).
  injection Hargs as <- <-.
  pose proof (wf_chains _ Hwf) as Hok.
  pose proof (λ x n, unlink_fields _ _ _ _ x n Hun) as Hfields.
  pose proof (λ p l, unlink_kids _ _ _ _ tn p l Hok Hun Ht Hpar) as Hkids.
  assert (Hold : ∀ x n, nodes fs !! x = Some n →
            ∃ n', h !! x = Some n' ∧ name n' = name n ∧ parent n' = parent n).
  { intros x n Hn. destruct (Hfields x n Hn) as (n' & ? & ? & _ & ? & _). by exists n'. }
  exists t, tn, par. cbn [nodes lists root current with_nodes].
  split; [done|]. split; [done|]. split; [done|]. split; [done|].
  split; [done|]. split; [done|]. split; [by eapply unlink_length|].
  split; [|split; [|split]].
  - intros x n Hn. destruct (Hfields x n Hn) as (n' & ? & ? & ? & ? & ?).
    by exists n'.
  - intros p l Hk. pose proof (Hkids p l Hk) as Hk'.
    destruct (decide (p = par)) as [Hpp|Hpp]; [done|].
    rewrite without_notin in Hk'; [done|]. intros Hin.
    assert (Hps : parent_of (nodes fs) t = Some p).
    { destruct Hk as (n & Hn & Hch). destruct (Hok p n Hn) as (l' & Hl' & Hp' & _).
      apply Hp'. by rewrite <- (chain_det _ _ _ _ Hch Hl'). }
    unfold parent_of in Hps. rewrite Ht in Hps. cbn in Hps. congruence.
  - intros path' r Hr Hin Hstart. rewrite get_node_by_path_walk in Hr.
    rewrite get_node_by_path_walk. cbn [nodes root current with_nodes].
    eapply (walk_removed (nodes fs) h t Hok Hold Hkids); [|exact Hr|done].
    destruct (Py.startswith Py.slash path').
    + by eapply root_outside; [apply wf_root| |].
    + by destruct Hstart.
  - intros l Hk Hin.
    rewrite (kids_find_child _ _ _ _ (Hkids par l Hk)). f_equal.
    rewrite (first_named_ext (nodes fs) h).
    2:{ intros c [_ Hc]%elem_of_without.
        by apply (names_removed (nodes fs) h Hold par l). }
    apply first_named_without_None.
    + destruct Hk as (pn & Hpn & Hl).
      destruct (Hok par pn Hpn) as (l' & Hl' & _ & Hnd).
      by rewrite (chain_det _ _ _ _ Hl Hl').
    + apply first_named_unique; [done|unfold name_of; by rewrite Ht|].
      intros c Hc Hne Hcn. apply Hne.
      destruct Hk as (pn & Hpn & Hl).
      destruct (Hok par pn Hpn) as (l' & Hl' & _ & Hnd).
      rewrite (chain_det _ _ _ _ Hl Hl') in Hc, Hin.
      eapply (NoDup_fmap_inj_on (name_of (nodes fs))); [done..|].
      rewrite Hcn. unfold name_of. by rewrite Ht.
Qed.

Lemma rm_unlinks_subtree_witness :
  ∃ t tn par,
    get_node_by_path (state_after ["mkdir a"; "mkdir a b"]) "a" = Some (Some t)
    ∧ nodes (state_after ["mkdir a"; "mkdir a b"]) !! t = Some tn
    ∧ parent tn = Some par
    ∧ lists (state_after ["mkdir a"; "mkdir a b"; "rm a"])
      = lists (state_after ["mkdir a"; "mkdir a b"])
    ∧ root (state_after ["mkdir a"; "mkdir a b"; "rm a"])
      = root (state_after ["mkdir a"; "mkdir a b"])
    ∧ current (state_after ["mkdir a"; "mkdir a b"; "rm a"])
      = current (state_after ["mkdir a"; "mkdir a b"])
    ∧ length (nodes (state_after ["mkdir a"; "mkdir a b"; "rm a"]))
      = length (nodes (state_after ["mkdir a"; "mkdir a b"]))
    ∧ (∀ x n, nodes (state_after ["mkdir a"; "mkdir a b"]) !! x = Some n →
         ∃ n', nodes (state_after ["mkdir a"; "mkdir a b"; "rm a"]) !! x = Some n'
               ∧ name n' = name n ∧ is_file n' = is_file n
               ∧ parent n' = parent n ∧ content n' = content n)
    ∧ (∀ p l, kids (nodes (state_after ["mkdir a"; "mkdir a b"])) p l →
         kids (nodes (state_after ["mkdir a"; "mkdir a b"; "rm a"])) p
           (if decide (p = par) then without t l else l))
    ∧ (∀ path' r,
         get_node_by_path (state_after ["mkdir a"; "mkdir a b"]) path' = Some (Some r) →
         inside (nodes (state_after ["mkdir a"; "mkdir a b"])) t r →
         Py.startswith Py.slash path' = true
         ∨ ¬ inside (nodes (state_after ["mkdir a"; "mkdir a b"])) t
               (current (state_after ["mkdir a"; "mkdir a b"])) →
         get_node_by_path (state_after ["mkdir a"; "mkdir a b"; "rm a"]) path'
         = Some None)
    ∧ (∀ l, kids (nodes (state_after ["mkdir a"; "mkdir a b"])) par l → t ∈ l →
         find_child (nodes (state_after ["mkdir a"; "mkdir a b"; "rm a"])) par (name tn)
         = Some None).
Proof.
  apply (rm_unlinks_subtree (state_after ["mkdir a"; "mkdir a b"]) "rm" "a" []
           (state_after ["mkdir a"; "mkdir a b"; "rm a"])).
  - apply reachable_wf, state_after_reachable.
  - by vm_compute.
Defined.

(** ** Files are leaves and share no lines *)

Lemma alter_lookup_inv (f : FileSystemNode → FileSystemNode) k
    (h : list FileSystemNode) x n' :
  alter f k h !! x = Some n' →
  ∃ n, h !! x = Some n ∧ (n' = n ∨ (x = k ∧ n' = f n)).
Proof.
  destruct (decide (k = x)) as [->|Hne].
  - rewrite list_lookup_alter_eq. destruct (h !! x) as [n|]; [|done].
    intros [= <-]. exists n. split; [done|]. by right.
  - rewrite list_lookup_alter_ne by done. intros Hn. exists n'. split; [done|]. by left.
Qed.

Lemma tidy_alter h f x :
  tidy h →
  (∀ n, is_file (f n) = is_file n) → (∀ n, content (f n) = content n) →
  (∀ n, h !! x = Some n → is_file n = true → child (f n) = None) →
  tidy (alter f x h).
Proof.
  intros [Hleaf Hapart] Hfile Hcontent Hchild. split.
  - intros r n' Hn' Hf. destruct (alter_lookup_inv _ _ _ _ _ Hn') as (n & Hn & [->|[-> ->]]).
    + by eapply Hleaf.
    + rewrite Hfile in Hf. by apply Hchild.
  - intros a b na nb k Ha Hb Hka Hkb.
    destruct (alter_lookup_inv _ _ _ _ _ Ha) as (na0 & Ha0 & Hna).
    destruct (alter_lookup_inv _ _ _ _ _ Hb) as (nb0 & Hb0 & Hnb).
    apply (Hapart a b na0 nb0 k Ha0 Hb0).
    + destruct Hna as [->|[_ ->]]; [done|]. by rewrite Hcontent in Hka.
    + destruct Hnb as [->|[_ ->]]; [done|]. by rewrite Hcontent in Hkb.
Qed.

Lemma tidy_alloc h m :
  tidy h → child m = None →
  (∀ k, content m = Some k → ∀ y n, h !! y = Some n → content n ≠ Some k) →
  tidy (h ++ [m]).
Proof.
  intros [Hleaf Hapart] Hchild Hfresh. split.
  - intros r n Hn Hf. apply lookup_app_Some in Hn as [Hn|[_ Hn]].
    + by eapply Hleaf.
    + by apply list_lookup_singleton_Some in Hn as [_ <-].
  - intros a b na nb k Ha Hb Hka Hkb.
    apply lookup_app_Some in Ha as [Ha|[Hla Ha]];
      apply lookup_app_Some in Hb as [Hb|[Hlb Hb]].
    + by eapply Hapart.
    + apply list_lookup_singleton_Some in Hb as [_ <-].
      by destruct (Hfresh k Hkb a na Ha).
    + apply list_lookup_singleton_Some in Ha as [_ <-].
      by destruct (Hfresh k Hka b nb Hb).
    + apply list_lookup_singleton_Some in Ha as [Ha _].
      apply list_lookup_singleton_Some in Hb as [Hb _]. lia.
Qed.

Lemma tidy_set_content h k x :
  tidy h → (∀ y n, h !! y = Some n → content n ≠ Some k) →
  tidy (alter (set_content (Some k)) x h).
Proof.
  intros [Hleaf Hapart] Hfresh. split.
  - intros r n' Hn' Hf. destruct (alter_lookup_inv _ _ _ _ _ Hn') as (n & Hn & [->|[-> ->]]);
      cbn in *; by eapply Hleaf.
  - intros a b na nb j Ha Hb Hka Hkb.
    destruct (alter_lookup_inv _ _ _ _ _ Ha) as (na0 & Ha0 & Hna).
    destruct (alter_lookup_inv _ _ _ _ _ Hb) as (nb0 & Hb0 & Hnb).
    destruct Hna as [->|[-> ->]]; destruct Hnb as [->|[-> ->]]; try done.
    + by eapply Hapart.
    + cbn in Hkb. injection Hkb as <-. by destruct (Hfresh a na0 Ha0).
    + cbn in Hka. injection Hka as <-. by destruct (Hfresh b nb0 Hb0).
Qed.

Lemma content_below h nlists k :
  refs_valid h nlists → nlists ≤ k → ∀ y n, h !! y = Some n → content n ≠ Some k.
Proof.
  intros Hrefs Hk y n Hn Hc. destruct (Hrefs y n Hn) as (_ & _ & _ & Hv).
  apply Hv in Hc. lia.
Qed.

Lemma tidy_add_child h self c h' :
  tidy h → (∀ n, h !! self = Some n → is_file n = false) →
  add_child h self c = Some h' → tidy h'.
Proof.
  intros Ht Hdir H. unfold add_child in H.
  apply bind_Some in H as (s & Hs & [= <-]).
  apply tidy_alter; [|done|done|].
  - apply tidy_alter; [done..|]. intros n Hn Hf. cbn. by destruct Ht as [Hl _]; eapply Hl.
  - intros n Hn Hf. destruct (alter_lookup_inv _ _ _ _ _ Hn) as (n0 & Hn0 & Hcase).
    pose proof (Hdir n0 Hn0) as Hd0.
    destruct Hcase as [->|[_ ->]]; cbn in Hf; congruence.
Qed.

Lemma tidy_unlink h par t h' : tidy h → unlink h par t = Some h' → tidy h'.
Proof.
  intros Ht H.
  destruct (unlink_cases _ _ _ _ H) as (p & tn & Hp & _ & [[Hc ->]|[_ (r & _ & Hr)]]).
  - apply tidy_alter; [done..|]. intros n Hn Hf. destruct Ht as [Hl _].
    rewrite Hp in Hn. injection Hn as <-. rewrite (Hl par p Hp Hf) in Hc. done.
  - destruct r as [c|]; subst; [|done]. apply tidy_alter; [done..|].
    intros n Hn Hf. cbn. by destruct Ht as [Hl _]; eapply Hl.
Qed.

Lemma tidy_relink h src dst nm h' dn :
  tidy h → h !! dst = Some dn → is_file dn = false →
  relink h src dst nm = Some h' → tidy h'.
Proof.
  intros Ht Hd Hdir H. unfold relink in H.
  apply bind_Some in H as (d & Hd2 & [= <-]).
  pose proof Ht as [Hleaf _].
  assert (H1 : tidy (alter (set_parent (Some dst)) src h)).
  { apply tidy_alter; [done..|]. intros n Hn Hf. cbn. by eapply Hleaf. }
  assert (H2 : tidy (match nm with
                     | Some n => alter (set_name n) src (alter (set_parent (Some dst)) src h)
                     | None => alter (set_parent (Some dst)) src h
                     end)).
  { destruct nm; [|done]. apply tidy_alter; [done..|].
    intros n Hn Hf. cbn. destruct H1 as [Hl1 _]. by eapply Hl1. }
  apply tidy_alter; [|done|done|].
  - apply tidy_alter; [done..|]. intros n Hn Hf. cbn. destruct H2 as [Hl2 _]. by eapply Hl2.
  - intros n Hn Hf. exfalso.
    destruct (alter_lookup_inv _ _ _ _ _ Hn) as (n1 & Hn1 & Hc1).
    assert (Hf1 : is_file n1 = true) by (by destruct Hc1 as [->|[_ ->]]).
    assert (Hf0 : ∃ n0, h !! dst = Some n0 ∧ is_file n0 = true).
    { destruct nm.
      - destruct (alter_lookup_inv _ _ _ _ _ Hn1) as (n2 & Hn2 & Hc2).
        destruct (alter_lookup_inv _ _ _ _ _ Hn2) as (n3 & Hn3 & Hc3).
        exists n3. split; [done|].
        destruct Hc2 as [->|[_ ->]]; destruct Hc3 as [->|[_ ->]]; done.
      - destruct (alter_lookup_inv _ _ _ _ _ Hn1) as (n2 & Hn2 & Hc2).
        exists n2. split; [done|]. by destruct Hc2 as [->|[_ ->]]. }
    destruct Hf0 as (n0 & Hn0 & Hfile0). congruence.
Qed.

Lemma tidy_new_node fs nm file par fs1 new :
  wf fs → tidy (nodes fs) → new_node fs nm file par = (fs1, new) → tidy (nodes fs1).
Proof.
  intros Hwf Ht H.
  destruct (new_node_spec _ _ _ _ _ _ H)
    as (_ & _ & _ & m & -> & _ & _ & _ & Hchild & _ & Hl).
  apply tidy_alloc; [done..|]. intros k Hk.
  apply (content_below _ (length (lists fs))); [by apply wf_refs|].
  destruct file; destruct Hl as [_ Hm]; rewrite Hm in Hk; [|done].
  injection Hk as <-. lia.
Qed.

Lemma tidy_create_in fs target tn nm file out res fs' :
  wf fs → tidy (nodes fs) →
  nodes fs !! target = Some tn → is_file tn = false →
  create_in fs target nm file out = Some (res, fs') → tidy (nodes fs').
Proof.
  intros Hwf Ht Htn Hdir H. unfold create_in in H.
  apply bind_Some in H as (dup & _ & H). destruct dup; [by injection H as _ <-|].
  destruct (new_node fs nm file (Some target)) as [fs1 new] eqn:Hnew.
  apply bind_Some in H as (h & Hadd & [= _ <-]).
  pose proof (tidy_new_node _ _ _ _ _ _ Hwf Ht Hnew) as Ht1.
  destruct (new_node_spec _ _ _ _ _ _ Hnew) as (_ & _ & _ & m & Hnodes & _).
  eapply tidy_add_child; [exact Ht1| |exact Hadd].
  intros n Hn. rewrite Hnodes in Hn.
  rewrite lookup_app_l in Hn by (by eapply lookup_lt_Some). congruence.
Qed.

Lemma copy_top_tidy fs n x np fs2 :
  fs_basics fs → nodes fs !! x = Some n → tidy (nodes fs) →
  copy_top fs n np = Some fs2 → tidy (nodes fs2).
Proof.
  intros Hb Hn Ht H.
  assert (Hvalid : ∀ k, content n = Some k → k < length (lists fs)).
  { intros k Hk. destruct Hb as (_ & _ & Hv & _).
    destruct (Hv x n Hn) as (_ & _ & _ & Hc). by apply Hc. }
  destruct (copy_top_spec _ _ _ _ Hvalid H)
    as (_ & _ & m & -> & _ & _ & _ & Hchild & _ & Hl).
  apply tidy_alloc; [done..|]. intros k Hk.
  destruct Hb as (_ & _ & Hrefs & _).
  apply (content_below _ (length (lists fs))); [done|].
  destruct (is_file n).
  - destruct Hl as (? & ? & _ & _ & _ & Hm). rewrite Hm in Hk. injection Hk as <-. lia.
  - destruct Hl as [_ Hm]. congruence.
Qed.

Lemma deep_copy_tidy fuel :
  (∀ fs node np fs' c,
     fs_basics fs → np < length (nodes fs) → tidy (nodes fs) →
     deep_copy fuel fs node np = Some (fs', c) → tidy (nodes fs'))
  ∧ (∀ fs o copy_node fs',
       fs_basics fs → copy_node < length (nodes fs) → tidy (nodes fs) →
       (is_Some o → ∀ n, nodes fs !! copy_node = Some n → is_file n = false) →
       copy_children fuel fs o copy_node = Some fs' → tidy (nodes fs')).
Proof.
  induction fuel as [|fuel [IHD IHC]].
  - split; [done|]. intros fs [ch|] copy_node fs' _ _ Ht _; [done|].
    by intros [= <-].
  - split.
    + intros fs node np fs' c Hb Hnp Ht H. rewrite deep_copy_unfold in H.
      apply bind_Some in H as (n & Hn & H).
      apply bind_Some in H as (fs2 & Htop & H).
      apply bind_Some in H as (fs3 & Hkids & [= <- <-]).
      assert (Hvalid : ∀ j, content n = Some j → j < length (lists fs)).
      { intros j Hj. destruct Hb as (_ & _ & Hv & _).
        destruct (Hv node n Hn) as (_ & _ & _ & Hc). by apply Hc. }
      destruct (copy_top_grows _ _ _ _ Hvalid Htop) as [Hg2 Hlen2].
      pose proof (copy_top_basics _ _ _ _ _ Hb Hn Hnp Htop) as Hb2.
      apply (IHC fs2 (child n) (length (nodes fs)) fs3 Hb2); [lia| | |done].
      * exact (copy_top_tidy fs n node np fs2 Hb Hn Ht Htop).
      * intros [ch Hch] m Hm.
        destruct (copy_top_spec _ _ _ _ Hvalid Htop)
          as (_ & _ & m' & Hnodes & _ & Hfile & _).
        rewrite Hnodes, list_lookup_middle in Hm by done. injection Hm as <-.
        rewrite Hfile. destruct (is_file n) eqn:Hf; [|done].
        destruct Ht as [Hleaf _]. rewrite (Hleaf node n Hn Hf) in Hch. done.
    + intros fs [ch|] copy_node fs' Hb Hcn Ht Hdir H; [|by injection H as <-].
      rewrite copy_children_unfold in H.
      apply bind_Some in H as ([fs1 child_copy] & Hdc & H).
      apply bind_Some in H as (h & Hadd & H).
      apply bind_Some in H as (n & Hn & H).
      destruct (deep_copy_grows fuel) as [HG _].
      destruct (HG fs ch copy_node fs1 child_copy Hb Hcn Hdc) as (-> & Hlt & Hg1 & Hb1).
      pose proof (IHD fs ch copy_node fs1 _ Hb Hcn Ht Hdc) as Ht1.
      assert (Hdir1 : ∀ m, nodes fs1 !! copy_node = Some m → is_file m = false).
      { intros m Hm. rewrite (grows_lookup _ _ _ _ Hg1) in Hm by done.
        by apply Hdir. }
      apply (IHC (with_nodes h fs1) (next n) copy_node fs'); [| | | |done].
      * by eapply basics_add_child.
      * cbn. rewrite (add_child_length _ _ _ _ Hadd). lia.
      * by eapply tidy_add_child.
      * intros _ m Hm. cbn in Hm. unfold add_child in Hadd.
        apply bind_Some in Hadd as (s & Hs & [= <-]).
        destruct (alter_lookup_inv _ _ _ _ _ Hm) as (m1 & Hm1 & Hc1).
        destruct (alter_lookup_inv _ _ _ _ _ Hm1) as (m2 & Hm2 & Hc2).
        pose proof (Hdir1 m2 Hm2) as Hf.
        destruct Hc1 as [->|[_ ->]]; destruct Hc2 as [->|[_ ->]]; done.
Qed.

Lemma run_command_tidy c fs args stdin res fs' stdin' :
  wf fs → tidy (nodes fs) →
  run_command c fs args stdin = Some (res, fs', stdin') → tidy (nodes fs').
Proof.
  intros Hwf Ht H. destruct res as [out|msg].
  2:{ by rewrite (command_error_same _ _ _ _ _ _ _ H). }
  destruct (wf_current _ Hwf) as (cn & Hcn & Hcdir).
  destruct c; cbn [run_command] in H; unfold no_input in H;
    try (apply bind_Some in H as ([r f] & H & [= -> -> ->])).
  - unfold mkdir_command in H.
    destruct args as [|cmd [|a [|b [|? ?]]]]; try done.
    + eapply (tidy_create_in fs _ cn); [exact Hwf|exact Ht|exact Hcn|exact Hcdir|exact H].
    + apply bind_Some in H as (target & _ & H). destruct target as [t|]; [|done].
      apply bind_Some in H as (n & Hn & H). destruct (is_file n) eqn:Hf; [done|].
      eapply (tidy_create_in fs _ n); [exact Hwf|exact Ht|exact Hn|exact Hf|exact H].
  - unfold touch_command, touch_tail in H.
    destruct args as [|cmd [|a [|b [|? ?]]]]; try done.
    + destruct (negb _); [done|].
      eapply (tidy_create_in fs _ cn); [exact Hwf|exact Ht|exact Hcn|exact Hcdir|exact H].
    + apply bind_Some in H as (target & _ & H). destruct target as [t|]; [|done].
      apply bind_Some in H as (n & Hn & H). destruct (is_file n) eqn:Hf; [done|].
      destruct (negb _); [done|].
      eapply (tidy_create_in fs _ n); [exact Hwf|exact Ht|exact Hn|exact Hf|exact H].
  - by rewrite (cd_command_nodes _ _ _ _ H).
  - destruct (rm_command_Ok _ _ _ _ H)
      as (? & ? & t & tn & par & h & _ & _ & _ & _ & Hun & ->).
    by eapply tidy_unlink.
  - unfold rename_command in H. crunch; subst; try done. cbn.
    apply tidy_alter; [done..|]. intros m0 Hm0 Hf0. cbn.
    destruct Ht as [Hl _]. by eapply Hl.
  - destruct (cp_command_Ok _ _ _ _ H)
      as (? & ? & ? & s & sn & d & dn & nm & fs1 & copy & h
          & _ & _ & Hsn & _ & Hdn & Hdir & _ & Hdc & Hadd & ->).
    pose proof Hwf as [Hb _]%wf_basics.
    pose proof (lookup_lt_Some _ _ _ Hdn) as Hd.
    destruct (deep_copy_tidy (subtree_fuel (nodes fs))) as [HD _].
    pose proof (HD fs s d fs1 copy Hb Hd Ht Hdc) as Ht1.
    destruct (deep_copy_grows (subtree_fuel (nodes fs))) as [HG _].
    destruct (HG fs s d fs1 copy Hb Hd Hdc) as (-> & Hlt & Hg1 & Hb1).
    cbn. eapply tidy_add_child; [|  |exact Hadd].
    + apply tidy_alter; [done|by destruct nm|by destruct nm|].
      intros n Hn Hf. destruct Ht1 as [Hl1 _].
      destruct nm; cbn; by eapply Hl1.
    + intros n Hn. rewrite list_lookup_alter_ne in Hn by lia.
      rewrite (grows_lookup _ _ _ _ Hg1) in Hn by done. congruence.
  - destruct (mv_command_Ok _ _ _ _ H)
      as (? & ? & ? & s & sn & par & d & dn & nm & h1 & h
          & _ & _ & Hsn & Hpar & _ & Hdn & Hdir & _ & Hun & Hre & ->).
    destruct (unlink_fields _ _ _ _ d dn Hun Hdn) as (dn1 & Hdn1 & _ & Hf1 & _).
    cbn. eapply tidy_relink; [by eapply tidy_unlink|exact Hdn1|congruence|exact Hre].
  - unfold nwfiletxt_command in H. crunch; subst; try done. cbn.
    apply tidy_set_content; [done|].
    apply (content_below _ (length (lists fs))); [by apply wf_refs|done].
  - by rewrite (appendtxt_command_nodes _ _ _ _ _ _ H).
  - by rewrite (editline_command_nodes _ _ _ _ H).
  - by rewrite (deline_command_nodes _ _ _ _ H).
Qed.

Lemma reachable_tidy fs : reachable fs → tidy (nodes fs).
Proof.
  induction 1 as [|fs line stdin res fs' stdin' Hreach IH Hstep].
  - split.
    + intros [|r] n; [|done]. by intros [= <-].
    + intros [|a] [|b] na nb k; done.
  - destruct (process_command_cases _ _ _ _ _ _ Hstep) as [->|[c Hc]]; [done|].
    eapply run_command_tidy; [by apply reachable_wf|done|done].
Qed.

(** ** What holds in every state the command loop can reach *)

(** In every reachable state each allocated node has a children collection
    (its sibling chain ends, so every loop over it does); the collection
    holds no node twice and no name twice, and each of its members names
    the node as its parent. *)
Theorem reachable_children fs p :
  reachable fs → is_Some (nodes fs !! p) →
  ∃ l, children (nodes fs) p = Some l
       ∧ NoDup l ∧ NoDup (name_of (nodes fs) <$> l)
       ∧ ∀ c, c ∈ l → parent_of (nodes fs) c = Some p ∧ is_Some (nodes fs !! c).
Proof.
  intros Hwf%reachable_wf [n Hn].
  destruct (wf_chains _ Hwf p n Hn) as (l & Hl & Hpar & Hnd).
  exists l. split; [by apply (children_chain _ p n l)|].
  split; [by eapply chain_NoDup|]. split; [done|].
  intros c Hc. split; [by apply Hpar|by eapply chain_lookup].
Qed.

Lemma reachable_children_witness :
  ∃ l, children (nodes (state_after ["mkdir a"; "touch b.txt"; "mv a c"])) 0 = Some l
       ∧ NoDup l
       ∧ NoDup (name_of (nodes (state_after ["mkdir a"; "touch b.txt"; "mv a c"])) <$> l)
       ∧ ∀ c, c ∈ l →
           parent_of (nodes (state_after ["mkdir a"; "touch b.txt"; "mv a c"])) c = Some 0
           ∧ is_Some (nodes (state_after ["mkdir a"; "touch b.txt"; "mv a c"]) !! c).
Proof.
  apply (reachable_children (state_after ["mkdir a"; "touch b.txt"; "mv a c"]) 0).
  - apply state_after_reachable.
  - by eexists.
Defined.

(** In every reachable state a file has lines and no children, a
    directory has no lines, and no two nodes hold the same line list. *)
Theorem reachable_files fs :
  reachable fs →
  (∀ r n, nodes fs !! r = Some n → is_file n = true →
     children (nodes fs) r = Some [] ∧ is_Some (content_of fs r))
  ∧ (∀ r n, nodes fs !! r = Some n → is_file n = false → content n = None)
  ∧ (∀ x y nx ny k,
       nodes fs !! x = Some nx → nodes fs !! y = Some ny →
       content nx = Some k → content ny = Some k → x = y).
Proof.
  intros Hreach. pose proof (reachable_wf _ Hreach) as Hwf.
  destruct (reachable_tidy _ Hreach) as [Hleaf Hapart].
  split; [|split; [|done]].
  - intros r n Hn Hf. split.
    + apply (children_chain _ r n []); [done|]. cbn. by eapply Hleaf.
    + pose proof (wf_kinds _ Hwf r n Hn) as Hk. rewrite Hf in Hk.
      destruct Hk as [k Hk]. unfold content_of. rewrite Hn. cbn. rewrite Hk. cbn.
      apply lookup_lt_is_Some_2.
      destruct (wf_refs _ Hwf r n Hn) as (_ & _ & _ & Hv). by apply Hv.
  - intros r n Hn Hf. pose proof (wf_kinds _ Hwf r n Hn) as Hk. by rewrite Hf in Hk.
Qed.

(** In every reachable state an editor command that names the file [r]
    leaves the lines of every other node as they are, whatever it prints;
    and it changes no name and no pointer of any node. *)
Theorem editor_changes_one_file c fs cmd path rest stdin res fs' stdin' r n :
  reachable fs → is_editor c = true →
  run_command c fs (cmd :: path :: rest) stdin = Some (res, fs', stdin') →
  file_at fs path = Some (Some (r, n)) →
  same_links (nodes fs) (nodes fs')
  ∧ ∀ x, x ≠ r → content_of fs' x = content_of fs x.
Proof.
  intros Hreach Hc H Hfile. pose proof (reachable_wf _ Hreach) as Hwf.
  destruct (reachable_tidy _ Hreach) as [_ Hapart]. split.
  - destruct c; try done; cbn [run_command] in H; unfold no_input in H;
      try (apply bind_Some in H as ([r0 f] & H & [= <- <- <-])).
    + unfold nwfiletxt_command in H. crunch; subst; try apply same_links_refl.
      apply same_links_set_content.
    + rewrite (appendtxt_command_nodes _ _ _ _ _ _ H). apply same_links_refl.
    + rewrite (editline_command_nodes _ _ _ _ H). apply same_links_refl.
    + rewrite (deline_command_nodes _ _ _ _ H). apply same_links_refl.
  - intros x Hx. destruct (nodes fs !! x) as [nx|] eqn:Hnx.
    + eapply editor_content_frame;
        [exact Hwf|exact Hc|exact H|reflexivity|exact Hfile|exact Hnx|exact Hx|].
      destruct (file_at_Some _ _ _ _ Hfile) as [Hr Hf].
      pose proof (wf_kinds _ Hwf r n Hr) as Hk. rewrite Hf in Hk. destruct Hk as [k Hk].
      rewrite Hk. intros Hxk. apply Hx. by eapply Hapart.
    + assert (Hlen : length (nodes fs') = length (nodes fs)).
      { destruct c; try done; cbn [run_command] in H; unfold no_input in H;
          try (apply bind_Some in H as ([r0 f] & H & [= <- <- <-])).
        - unfold nwfiletxt_command in H. crunch; subst; try done.
          cbn. by rewrite length_alter.
        - by rewrite (appendtxt_command_nodes _ _ _ _ _ _ H).
        - by rewrite (editline_command_nodes _ _ _ _ H).
        - by rewrite (deline_command_nodes _ _ _ _ H). }
      unfold content_of. rewrite Hnx.
      apply lookup_ge_None in Hnx. rewrite <- Hlen in Hnx.
      apply lookup_ge_None in Hnx. by rewrite Hnx.
Qed.

Lemma editor_changes_one_file_witness :
  same_links (nodes (state_after ["touch a.txt"; "cp a.txt b.txt"]))
    (nodes (mkFS (nodes (state_after ["touch a.txt"; "cp a.txt b.txt"]))
                 [[]; []; ["x"]] 0 0))
  ∧ ∀ x, x ≠ 2 →
      content_of (mkFS (nodes (state_after ["touch a.txt"; "cp a.txt b.txt"]))
                       [[]; []; ["x"]] 0 0) x
      = content_of (state_after ["touch a.txt"; "cp a.txt b.txt"]) x.
Proof.
  apply (editor_changes_one_file Appendtxt
           (state_after ["touch a.txt"; "cp a.txt b.txt"])
           "appendtxt" "b.txt" [] ["x"; "/end/"]
           (Ok ["Enter text to append. Type '/end/' to finish."])
           (mkFS (nodes (state_after ["touch a.txt"; "cp a.txt b.txt"]))
                 [[]; []; ["x"]] 0 0)
           [] 2 (mkNode "b.txt" true (Some 0) None (Some 1) (Some 2))).
  - apply state_after_reachable.
  - done.
  - by vm_compute.
  - by vm_compute.
Defined.

(** In every reachable state the cursor is an allocated directory, and
    [ls] returns: it changes nothing and prints [Empty directory.] if the
    cursor has no children, and otherwise one line with the names of the
    children in the order of the chain, directories with a [/] at the end,
    separated by tabs. *)
Theorem ls_lists_cursor fs args :
  reachable fs →
  ∃ n l,
    nodes fs !! current fs = Some n ∧ is_file n = false
    ∧ children (nodes fs) (current fs) = Some l
    ∧ ls_command fs args
      = Some (Ok [match l with
                  | [] => "Empty directory."
                  | _ => Py.join (String "009"%char "") (label (nodes fs) <$> l)
                  end], fs).
Proof.
  intros Hwf%reachable_wf. destruct (wf_current _ Hwf) as (n & Hn & Hdir).
  destruct (wf_chains _ Hwf _ n Hn) as (l & Hl & _).
  exists n, l. split; [done|]. split; [done|].
  split; [by apply (children_chain _ _ n l)|].
  unfold ls_command. rewrite Hn. cbn [mbind option_bind].
  rewrite (ls_names_chain _ _ _ l Hl) by (by eapply chain_length).
  cbn [mbind option_bind]. by destruct l.
Qed.

Lemma ls_lists_cursor_witness :
  ∃ n l,
    nodes (state_after ["mkdir a"; "touch b.txt"])
      !! current (state_after ["mkdir a"; "touch b.txt"]) = Some n
    ∧ is_file n = false
    ∧ children (nodes (state_after ["mkdir a"; "touch b.txt"]))
        (current (state_after ["mkdir a"; "touch b.txt"])) = Some l
    ∧ ls_command (state_after ["mkdir a"; "touch b.txt"]) ["ls"]
      = Some (Ok [match l with
                  | [] => "Empty directory."
                  | _ => Py.join (String "009"%char "")
                           (label (nodes (state_after ["mkdir a"; "touch b.txt"])) <$> l)
                  end], state_after ["mkdir a"; "touch b.txt"]).
Proof.
  apply (ls_lists_cursor (state_after ["mkdir a"; "touch b.txt"]) ["ls"]).
  apply state_after_reachable.
Defined.

Lemma reachable_files_witness :
  (∀ r n, nodes (state_after ["touch a.txt"; "cp a.txt b.txt"]) !! r = Some n →
     is_file n = true →
     children (nodes (state_after ["touch a.txt"; "cp a.txt b.txt"])) r = Some []
     ∧ is_Some (content_of (state_after ["touch a.txt"; "cp a.txt b.txt"]) r))
  ∧ (∀ r n, nodes (state_after ["touch a.txt"; "cp a.txt b.txt"]) !! r = Some n →
       is_file n = false → content n = None)
  ∧ (∀ x y nx ny k,
       nodes (state_after ["touch a.txt"; "cp a.txt b.txt"]) !! x = Some nx →
       nodes (state_after ["touch a.txt"; "cp a.txt b.txt"]) !! y = Some ny →
       content nx = Some k → content ny = Some k → x = y).
Proof.
  apply (reachable_files (state_after ["touch a.txt"; "cp a.txt b.txt"])).
  apply state_after_reachable.
Defined.

(** ** Small facts about paths *)

(** A slash or a slash and a dot at the end of a non-empty path change
    nothing: the result is the same node, the same not-found, or the same
    lack of an answer.  (The empty path is the cursor, while [/] is the
    root.) *)
Theorem trailing_slash_ignored fs p :
  p ≠ EmptyString →
  get_node_by_path fs (p +:+ "/") = get_node_by_path fs p
  ∧ get_node_by_path fs (p +:+ "/.") = get_node_by_path fs p.
Proof.
  intros Hp. split.
  - change (p +:+ "/") with (p +:+ String Py.slash "").
    rewrite (get_node_by_path_append fs p "" Hp eq_refl).
    by destruct (get_node_by_path fs p) as [[x|]|].
  - change (p +:+ "/.") with (p +:+ String Py.slash ".").
    rewrite (get_node_by_path_append fs p "." Hp eq_refl).
    by destruct (get_node_by_path fs p) as [[x|]|].
Qed.

Lemma trailing_slash_ignored_witness :
  get_node_by_path (state_after ["mkdir a"; "mkdir a b"]) ("a/b" +:+ "/")
  = get_node_by_path (state_after ["mkdir a"; "mkdir a b"]) "a/b"
  ∧ get_node_by_path (state_after ["mkdir a"; "mkdir a b"]) ("a/b" +:+ "/.")
    = get_node_by_path (state_after ["mkdir a"; "mkdir a b"]) "a/b".
Proof.
  apply (trailing_slash_ignored (state_after ["mkdir a"; "mkdir a b"]) "a/b"). done.
Defined.

Lemma segment_not_absolute nm q :
  segment_name nm → Py.startswith Py.slash (nm +:+ q) = false.
Proof.
  intros (Hslash & Hne & _). destruct nm as [|a s]; [done|].
  change (Ascii.eqb a Py.slash || Py.contains Py.slash s = false) in Hslash.
  change (Ascii.eqb a Py.slash = false).
  by apply orb_false_iff in Hslash as [? _].
Qed.

Lemma segment_relative nm : segment_name nm → Py.startswith Py.slash nm = false.
Proof.
  intros (Hslash & Hne & _). destruct nm as [|a s]; [done|].
  change (Ascii.eqb a Py.slash || Py.contains Py.slash s = false) in Hslash.
  change (Ascii.eqb a Py.slash = false).
  by apply orb_false_iff in Hslash as [? _].
Qed.

Lemma segment_step fs d nm :
  segment_name nm →
  get_node_by_path (with_current d fs) nm
  = and_then (find_child (nodes fs) d nm) (λ x, Some (Some x)).
Proof.
  intros Hseg. pose proof Hseg as (Hslash & Hne1 & Hne2 & Hne3).
  rewrite get_node_by_path_walk. cbn [nodes root current with_current].
  rewrite (segment_relative nm Hseg).
  rewrite (split_whole _ _ Hslash), walk_cons.
  apply String.eqb_neq in Hne1, Hne2, Hne3. rewrite Hne1, Hne2, Hne3. cbn.
  by destruct (find_child (nodes fs) d nm) as [[x|]|].
Qed.

(** In a well-formed store, going down by a name and then up by [..]
    leads back: if [p/nm] resolves, for a non-empty path [p] and a segment
    [nm], then [p/nm/..] resolves to what [p] resolves to. *)
Theorem dotdot_undoes_descent fs p nm x :
  wf fs → p ≠ EmptyString → segment_name nm →
  get_node_by_path fs (p +:+ "/" +:+ nm) = Some (Some x) →
  get_node_by_path fs (p +:+ "/" +:+ nm +:+ "/..") = get_node_by_path fs p.
Proof.
  intros Hwf Hp Hseg Hx.
  change (p +:+ "/" +:+ nm) with (p +:+ String Py.slash nm) in Hx.
  change (p +:+ "/" +:+ nm +:+ "/..")
    with (p +:+ String Py.slash (nm +:+ String Py.slash "..")).
  rewrite (get_node_by_path_append fs p nm Hp) in Hx by (by apply segment_relative).
  rewrite (get_node_by_path_append fs p _ Hp) by (by apply segment_not_absolute).
  destruct (get_node_by_path_allocated fs p Hwf) as (r & Hr & Halloc).
  rewrite Hr in Hx |- *. destruct r as [d|]; [|done]. cbn in Hx |- *.
  assert (Hnm : nm ≠ EmptyString) by (by destruct Hseg as (_ & ? & _)).
  rewrite (get_node_by_path_append _ nm ".." Hnm eq_refl), Hx. cbn.
  rewrite (segment_step fs d nm Hseg) in Hx.
  destruct (find_child (nodes fs) d nm) as [[y|]|] eqn:Hy; try done.
  cbn in Hx. injection Hx as ->.
  destruct (Halloc d eq_refl) as [dn Hdn].
  destruct (find_child_total (nodes fs) d nm (wf_chains _ Hwf)
              (lookup_lt_Some _ _ _ Hdn)) as (r & Hr' & Hfound).
  rewrite Hy in Hr'. injection Hr' as <-.
  destruct (Hfound x eq_refl) as (Hxl & Hxp & _).
  unfold parent_of in Hxp. destruct (nodes fs !! x) as [xn|]; [|done].
  cbn in Hxp |- *. by rewrite Hxp.
Qed.

Lemma dotdot_undoes_descent_witness :
  get_node_by_path (state_after ["mkdir a"; "mkdir a b"]) ("a" +:+ "/" +:+ "b" +:+ "/..")
  = get_node_by_path (state_after ["mkdir a"; "mkdir a b"]) "a".
Proof.
  apply (dotdot_undoes_descent (state_after ["mkdir a"; "mkdir a b"]) "a" "b" 2).
  - apply reachable_wf, state_after_reachable.
  - done.
  - by repeat split.
  - by vm_compute.
Defined.

(** *** [find_child] *)

Lemma first_named_split h nm l c :
  first_named h nm l = Some c →
  ∃ l1 l2, l = l1 ++ c :: l2 ∧ name_of h c = Some nm
           ∧ ∀ x, x ∈ l1 → name_of h x ≠ Some nm.
Proof.
  induction l as [|a l IH]; [done|]. cbn.
  destruct (decide (name_of h a = Some nm)) as [Ha|Ha].
  - intros [= <-]. exists [], l. split; [done|]. split; [done|].
    by intros x ?%elem_of_nil.
  - intros H. destruct (IH H) as (l1 & l2 & -> & Hc & Hl1).
    exists (a :: l1), l2. split; [done|]. split; [done|].
    intros x [->|Hx]%elem_of_cons; [done|by apply Hl1].
Qed.

(** On a node whose sibling chain of children is [l], [find_child]
    returns; it returns the first node of [l] that bears the name, and
    nothing exactly when no node of [l] bears it. *)
Theorem find_child_first_match h p nm l :
  children h p = Some l →
  ∃ r, find_child h p nm = Some r
       ∧ match r with
         | Some c =>
             ∃ l1 l2, l = l1 ++ c :: l2 ∧ name_of h c = Some nm
                      ∧ ∀ x, x ∈ l1 → name_of h x ≠ Some nm
         | None => ∀ x, x ∈ l → name_of h x ≠ Some nm
         end.
Proof.
  intros Hl. exists (first_named h nm l). split; [by apply find_child_children|].
  destruct (first_named h nm l) as [c|] eqn:Hc.
  - by apply first_named_split.
  - by apply first_named_None.
Qed.

Lemma find_child_first_match_witness :
  ∃ r, find_child (nodes (state_after ["mkdir a"; "mkdir b"; "mkdir c"])) 0 "b" = Some r
       ∧ match r with
         | Some c =>
             ∃ l1 l2, [3; 2; 1] = l1 ++ c :: l2
                      ∧ name_of (nodes (state_after ["mkdir a"; "mkdir b"; "mkdir c"])) c
                        = Some "b"
                      ∧ ∀ x, x ∈ l1 →
                          name_of (nodes (state_after ["mkdir a"; "mkdir b"; "mkdir c"])) x
                          ≠ Some "b"
         | None =>
             ∀ x, x ∈ [3; 2; 1] →
               name_of (nodes (state_after ["mkdir a"; "mkdir b"; "mkdir c"])) x ≠ Some "b"
         end.
Proof.
  apply (find_child_first_match (nodes (state_after ["mkdir a"; "mkdir b"; "mkdir c"]))
           0 "b" [3; 2; 1]).
  by vm_compute.
Defined.

(** ** The path shown in the prompt *)

Lemma route_det h r rn x names1 names2 :
  h !! r = Some rn → parent rn = None →
  route h r x names1 → route h r x names2 → names1 = names2.
Proof.
  intros Hr Hrp H1. revert names2.
  induction H1 as [|p x n names l Hp IH Hn Hpar Hk Hx Hseg]; intros names2 H2.
  - inversion H2 as [|p x n names l Hp Hn Hpar]; [done|]. subst. congruence.
  - inversion H2 as [|p' x' n' names' l' Hp' Hn' Hpar' Hk' Hx' Hseg']; subst.
    + congruence.
    + rewrite Hn in Hn'. injection Hn' as <-. rewrite Hpar in Hpar'.
      injection Hpar' as <-. by rewrite (IH _ Hp').
Qed.

Lemma route_allocated h r rn x names :
  h !! r = Some rn → route h r x names → x < length h.
Proof.
  intros Hr [|p y n ns l _ Hn _ _ _ _]; by eapply lookup_lt_Some.
Qed.

(** The nodes on the way from the root to [x] are all different, so the
    way is shorter than the store. *)
Lemma route_bound h r rn x names :
  h !! r = Some rn → parent rn = None →
  route h r x names → length names < length h.
Proof.
  intros Hr Hrp Hroute.
  assert (∃ cs : list ref,
            length cs = S (length names) ∧ NoDup cs
            ∧ ∀ c, c ∈ cs → ∃ ns, route h r c ns ∧ length ns ≤ length names)
    as (cs & Hlen & Hnd & Hcs).
  { induction Hroute as [|p x n names l Hp IH Hn Hpar Hk Hx Hseg].
    - exists [r]. split; [done|]. split; [apply NoDup_singleton|].
      intros c ->%list_elem_of_singleton. exists []. split; [constructor|done].
    - destruct IH as (cs & Hlen & Hnd & Hcs).
      assert (Hroute : route h r x (names ++ [name n])) by (by econstructor).
      exists (x :: cs). split; [rewrite length_app; cbn; lia|]. split.
      + apply NoDup_cons. split; [|done]. intros Hin.
        destruct (Hcs x Hin) as (ns & Hns & Hle).
        rewrite (route_det _ _ _ _ _ _ Hr Hrp Hns Hroute), length_app in Hle.
        cbn in Hle. lia.
      + intros c [->|Hc]%elem_of_cons.
        * by exists (names ++ [name n]).
        * destruct (Hcs c Hc) as (ns & Hns & Hle). exists ns. split; [done|].
          rewrite length_app. lia. }
  assert (length cs ≤ length h); [|lia].
  replace (length h) with (length (seq 0 (length h))) by apply length_seq.
  apply submseteq_length, NoDup_submseteq; [done|].
  intros c Hc. apply elem_of_seq. destruct (Hcs c Hc) as (ns & Hns & _).
  pose proof (route_allocated _ _ _ _ _ Hr Hns). lia.
Qed.

Lemma path_parts_route h r rn x names :
  h !! r = Some rn → parent rn = None → route h r x names →
  ∀ fuel acc, length names < fuel →
    path_parts fuel h (Some x) acc = Some (name rn :: names ++ acc).
Proof.
  intros Hr Hrp. induction 1 as [|p x n names l Hp IH Hn Hpar Hk Hx Hseg];
    intros [|fuel] acc Hfuel; try lia; cbn [path_parts].
  - rewrite Hr. cbn. rewrite Hrp. by destruct fuel.
  - rewrite Hn. cbn. rewrite Hpar. rewrite length_app in Hfuel. cbn in Hfuel.
    rewrite IH by lia. by rewrite <- app_assoc.
Qed.

Lemma route_segments h r x names : route h r x names → Forall segment_name names.
Proof.
  induction 1 as [|p x n names l Hp IH Hn Hpar Hk Hx Hseg]; [constructor|].
  apply Forall_app. split; [done|]. by constructor.
Qed.

Lemma walk_route h r x names :
  chains_ok h → route h r x names → walk h r names = Some (Some x).
Proof.
  intros Hok. induction 1 as [|p x n names l Hp IH Hn Hpar Hk Hx Hseg]; [done|].
  rewrite walk_app, IH. cbn [and_then]. rewrite walk_cons.
  destruct Hseg as (_ & Hne1 & Hne2 & Hne3).
  apply String.eqb_neq in Hne1, Hne2, Hne3. rewrite Hne1, Hne2, Hne3. cbn [orb].
  rewrite (kids_find_child _ _ _ _ Hk). cbn.
  rewrite (first_named_unique h (name n) l x); [done|done|unfold name_of; by rewrite Hn|].
  intros c Hc Hne Hcn. apply Hne.
  destruct Hk as (pn & Hpn & Hl). destruct (Hok p pn Hpn) as (l' & Hl' & _ & Hnd).
  rewrite (chain_det _ _ _ _ Hl Hl') in Hc, Hx.
  eapply (NoDup_fmap_inj_on (name_of h)); [done..|].
  rewrite Hcn. unfold name_of. by rewrite Hn.
Qed.

Lemma split_join names :
  names ≠ [] → Forall segment_name names →
  Py.split Py.slash (Py.join "/" names) = names.
Proof.
  intros Hne Hall. induction Hall as [|nm names Hnm Hall IH]; [done|].
  destruct names as [|nm2 names].
  - cbn. apply split_whole. by destruct Hnm.
  - change (Py.join "/" (nm :: nm2 :: names))
      with (nm +:+ String Py.slash (Py.join "/" (nm2 :: names))).
    rewrite split_append, IH by done. rewrite split_whole by (by destruct Hnm). done.
Qed.

(** For a node that hangs in the tree under the root, with names that are
    segments all the way up, [get_full_path] returns: [/] for the root
    itself and otherwise the names from below the root down to the node,
    each after a [/].  Resolving that text leads back to the node. *)
Theorem full_path_round_trip fs x names :
  wf fs → route (nodes fs) (root fs) x names →
  get_full_path fs x = Some (full_path_of names)
  ∧ get_node_by_path fs (full_path_of names) = Some (Some x).
Proof.
  intros Hwf Hroute. destruct (wf_root _ Hwf) as (Hr0 & rn & Hrn & _ & _ & Hrp).
  rewrite <- Hr0 in Hrn. split.
  - unfold get_full_path.
    rewrite (path_parts_route _ _ _ _ _ Hrn Hrp Hroute)
      by (by eapply route_bound).
    cbn [mbind option_bind]. rewrite app_nil_r. by destruct names.
  - pose proof (walk_route _ _ _ _ (wf_chains _ Hwf) Hroute) as Hwalk.
    destruct names as [|nm names]; [by cbn in Hwalk |- *|].
    rewrite get_node_by_path_walk. unfold full_path_of.
    change (Py.startswith Py.slash ("/" +:+ Py.join "/" (nm :: names))) with true.
    change ("/" +:+ Py.join "/" (nm :: names))
      with (EmptyString +:+ String Py.slash (Py.join "/" (nm :: names))).
    rewrite split_append, split_join; [|done|by eapply route_segments].
    change (Py.split Py.slash "" ++ nm :: names) with ("" :: nm :: names).
    by rewrite walk_cons.
Qed.

Lemma full_path_round_trip_witness :
  get_full_path (state_after ["mkdir a"; "mkdir a b"; "cd a/b"]) 2
  = Some (full_path_of ([] ++ ["a"] ++ ["b"]))
  ∧ get_node_by_path (state_after ["mkdir a"; "mkdir a b"; "cd a/b"])
      (full_path_of ([] ++ ["a"] ++ ["b"])) = Some (Some 2).
Proof.
  apply (full_path_round_trip (state_after ["mkdir a"; "mkdir a b"; "cd a/b"]) 2
           ([] ++ ["a"] ++ ["b"])).
  - apply reachable_wf, state_after_reachable.
  - rewrite app_assoc.
    apply (route_child _ _ 1 2 (mkNode "b" false (Some 1) None None None) _ [2]);
      [|done|done| |by left|by repeat split].
    + apply (route_child _ _ 0 1 (mkNode "a" false (Some 0) (Some 2) None None) [] [1]);
        [constructor|done|done| |by left|by repeat split].
      eexists. split; [by vm_compute|]. cbn. split; [done|].
      eexists. split; [by vm_compute|done].
    + eexists. split; [by vm_compute|]. cbn. split; [done|].
      eexists. split; [by vm_compute|done].
Defined.
